(** * k-means clustering (methods/k-means/src/pg_gp/kmeans.py)

    A shallow embedding of [quote_ident], [quote_literal], [__kmeans_init]
    and [kmeans_run].  The Python code drives a PostgreSQL session through
    [plpy.execute]; every SQL statement is rendered here as the list function
    it denotes, the tables it touches are fields of a [Store], and the Python
    control flow (exceptions raised by [plpy.error], the [while] loops, the
    local variables) is written in a small state-and-exception monad.

    Floating point values ([change_pct], distances, the goodness of fit) are
    idealised as rationals. *)

From Stdlib Require Import ZArith QArith Qabs Qcanon Qcabs List String Ascii Bool Lia Permutation.
Import ListNotations.
Open Scope Z_scope.

(** ** External primitives *)

(** What the [madlib] schema and the SVEC type provide to the SQL text of
    kmeans.py.  None of it is defined in kmeans.py itself, so it is an
    interface here. *)
Class Madlib := {
  Position : Type;                                        (* SVEC *)
  l2norm_diff : Position -> Position -> Q;                 (* l2norm (a - b) *)
  _kmeans_closestID : Position -> list (option Position) -> Z;
  _kmeans_meanPosition : list Position -> Position        (* aggregate *)
}.

Section Model.
Context {ML : Madlib}.

(** A row of the input relation: [(pid INT, position SVEC)]. *)
Record Point := { pid : Z; position : Position }.

(** A row of [TempTable<i>] and of the output points table:
    [(pid BIGINT, position SVEC, cid)]. *)
Record PointRow := { p_pid : Z; p_position : Position; p_cid : Z }.

(** A row of the output centroids table: [(cid INT, position SVEC)]. *)
Record CentroidRow := { cid : Z; c_position : Position }.

(** What the session cannot compute from the tables: the value of the
    floating point expression that sizes the candidate pool, and the outcomes
    of [random()]. *)
Class Chance := {
  (* floor( - log( 1 - pow( 0.999, 1/float(k))) * k) *)
  numCentroids_of : Z -> Z;
  (* the order produced by ORDER BY random() in the statement that seeds centroid i *)
  seed_order : Z -> list Point -> list Point;
  (* random()^(0.2) for the candidate [pid] in the statement that seeds centroid i *)
  seed_random : Z -> Z -> Q;
  (* the order produced by ORDER BY random() when the sample is drawn *)
  sample_order : list Point -> list Point
}.

(** The catalog the validation queries read. *)
Record Relation := { rel_columns : list string; rel_rows : list Point }.

Record Catalog := {
  (* information_schema.columns, and the rows behind schema.table *)
  relations : string -> string -> option Relation;
  (* pg_namespace *)
  namespaces : string -> bool;
  (* pg_backend_pid() *)
  backend_pid : string
}.

(** ** Messages and exceptions *)

(** The calls of [info], in the order of the source. *)
Inductive Msg :=
| MsgParameters
| MsgK (k : Z)
| MsgInputTable (t : string)
| MsgGoodness (g : Z)
| MsgRunId (r : string) (autogenerated : bool)
| MsgOutputSchema (s : string)
| MsgSeeding (k : Z)
| MsgUsingSample (sample_size p_count : Z)
| MsgUsingFull (p_count : Z)
| MsgIteration (i : Z)
| MsgExitStabilized (average : Q)
| MsgExitBelowLimit (limit : Q)
| MsgExitMaxIterations (n : Z)
| MsgExpanding
| MsgWritingOutput
| MsgGoodnessOfFit.

(** The calls of [plpy.error]. *)
Inductive PlpyError :=
| ErrK (k : Z)
| ErrNoSchemaPrefix (t : string)
| ErrNoTable (t : string)
| ErrNoPid (t : string)
| ErrNoPosition (t : string)
| ErrEmptyTable (t : string)
| ErrFewPoints (p_count k : Z)
| ErrGoodness (g : Z)
| ErrOutputSchema (s : string).

Inductive Exception :=
| Plpy (e : PlpyError)       (* plpy.error *)
| PyTypeError                (* None / int, or a format string short of arguments *)
| PyValueError               (* a, b = <list of another length> *)
| PyIndexError               (* list index out of range *)
| SqlError.                  (* a statement on a relation that does not exist *)

(** ** The session state *)

Record Store := {
  output_points : option (list PointRow);           (* None: no such table *)
  output_centroids : option (list CentroidRow);
  TempTable : list (Z * list PointRow);             (* TempTable<i>, by index *)
  ArrayOfCentroids : option (list (option Position));
  log : list Msg;                                   (* what info() has written *)
  loop_i : Z;                                       (* the local i of the main loop *)
  change_pct : list Q                               (* the local change_pct *)
}.

Inductive Outcome (A : Type) :=
| Ret (a : A)
| Raise (e : Exception)
| OutOfFuel.
Arguments Ret {A} a.
Arguments Raise {A} e.
Arguments OutOfFuel {A}.

Definition M (A : Type) : Type := Store -> Outcome A * Store.

Definition ret {A} (a : A) : M A := fun s => (Ret a, s).

Definition bind {A B} (c : M A) (f : A -> M B) : M B :=
  fun s =>
    match c s with
    | (Ret a, s') => f a s'
    | (Raise e, s') => (Raise e, s')
    | (OutOfFuel, s') => (OutOfFuel, s')
    end.

Definition raise {A} (e : Exception) : M A := fun s => (Raise e, s).

Definition out_of_fuel {A} : M A := fun s => (OutOfFuel, s).

Definition gets {A} (f : Store -> A) : M A := fun s => (Ret (f s), s).

Definition modify (f : Store -> Store) : M unit := fun s => (Ret tt, f s).

End Model.

Arguments Ret {A} a.
Arguments Raise {A} e.
Arguments OutOfFuel {A}.

Declare Scope kmeans_scope.
Delimit Scope kmeans_scope with kmeans.
Notation "x <- c ;; k" := (bind c (fun x => k))
  (at level 100, c at next level, right associativity) : kmeans_scope.
Notation "c ;;; k" := (bind c (fun _ => k))
  (at level 100, right associativity) : kmeans_scope.

Section Statements.
Context {ML : Madlib} {CH : Chance}.
Local Open Scope kmeans_scope.

(** ** Store access *)

Definition with_output_points (v : option (list PointRow)) (s : Store) : Store :=
  {| output_points := v; output_centroids := output_centroids s;
     TempTable := TempTable s; ArrayOfCentroids := ArrayOfCentroids s;
     log := log s; loop_i := loop_i s; change_pct := change_pct s |}.

Definition with_output_centroids (v : option (list CentroidRow)) (s : Store) : Store :=
  {| output_points := output_points s; output_centroids := v;
     TempTable := TempTable s; ArrayOfCentroids := ArrayOfCentroids s;
     log := log s; loop_i := loop_i s; change_pct := change_pct s |}.

Definition with_TempTable (v : list (Z * list PointRow)) (s : Store) : Store :=
  {| output_points := output_points s; output_centroids := output_centroids s;
     TempTable := v; ArrayOfCentroids := ArrayOfCentroids s;
     log := log s; loop_i := loop_i s; change_pct := change_pct s |}.

Definition with_ArrayOfCentroids (v : option (list (option Position))) (s : Store) : Store :=
  {| output_points := output_points s; output_centroids := output_centroids s;
     TempTable := TempTable s; ArrayOfCentroids := v;
     log := log s; loop_i := loop_i s; change_pct := change_pct s |}.

Definition with_log (v : list Msg) (s : Store) : Store :=
  {| output_points := output_points s; output_centroids := output_centroids s;
     TempTable := TempTable s; ArrayOfCentroids := ArrayOfCentroids s;
     log := v; loop_i := loop_i s; change_pct := change_pct s |}.

Definition with_loop_i (v : Z) (s : Store) : Store :=
  {| output_points := output_points s; output_centroids := output_centroids s;
     TempTable := TempTable s; ArrayOfCentroids := ArrayOfCentroids s;
     log := log s; loop_i := v; change_pct := change_pct s |}.

Definition with_change_pct (v : list Q) (s : Store) : Store :=
  {| output_points := output_points s; output_centroids := output_centroids s;
     TempTable := TempTable s; ArrayOfCentroids := ArrayOfCentroids s;
     log := log s; loop_i := loop_i s; change_pct := v |}.

(** The relations of the session, without the Python side of the store. *)
Definition tables (s : Store) :=
  (output_points s, output_centroids s, TempTable s, ArrayOfCentroids s).

(** [info(msg)]: messages are appended in the order they are emitted. *)
Definition info (m : Msg) : M unit := modify (fun s => with_log (log s ++ [m]) s).

(** [plpy.error(msg)] raises. *)
Definition plpy_error {A} (e : PlpyError) : M A := raise (Plpy e).

(** Reading a relation that does not exist is an SQL error. *)
Definition required {A} (o : option A) : M A :=
  match o with Some a => ret a | None => raise SqlError end.

Definition temp_lookup (n : Z) (tt : list (Z * list PointRow)) : option (list PointRow) :=
  match find (fun e => fst e =? n) tt with
  | Some e => Some (snd e)
  | None => None
  end.

Definition temp_drop (n : Z) (tt : list (Z * list PointRow)) : list (Z * list PointRow) :=
  filter (fun e => negb (fst e =? n)) tt.

(** DROP TABLE IF EXISTS TempTable<n>; CREATE TEMP TABLE TempTable<n>;
    INSERT INTO TempTable<n> <rows>. *)
Definition create_TempTable (n : Z) (rows : list PointRow) : M unit :=
  modify (fun s => with_TempTable ((n, rows) :: temp_drop n (TempTable s)) s).

(** DROP TABLE TempTable<n>. *)
Definition drop_TempTable (n : Z) : M unit :=
  temps <- gets TempTable ;;
  _ <- required (temp_lookup n temps) ;;
  modify (with_TempTable (temp_drop n temps)).

(** INSERT INTO output_centroids <rows>. *)
Definition insert_centroids (rows : list CentroidRow) : M unit :=
  o <- gets output_centroids ;;
  cs <- required o ;;
  modify (with_output_centroids (Some (cs ++ rows))).

(** INSERT INTO output_points <rows>. *)
Definition insert_points (rows : list PointRow) : M unit :=
  o <- gets output_points ;;
  ps <- required o ;;
  modify (with_output_points (Some (ps ++ rows))).

(** ** Python helpers *)

(** [l[n]], with Python's negative indices and its IndexError. *)
Definition py_index {A} (l : list A) (n : Z) : M A :=
  let len := Z.of_nat (List.length l) in
  let o := if 0 <=? n then nth_error l (Z.to_nat n)
           else if 0 <=? len + n then nth_error l (Z.to_nat (len + n))
           else None in
  match o with Some a => ret a | None => raise PyIndexError end.

(** [s.split(sep)] for a one-character separator. *)
Fixpoint split (sep : ascii) (s : string) : list string :=
  match s with
  | EmptyString => [EmptyString]
  | String c s' =>
      if Ascii.eqb c sep then EmptyString :: split sep s'
      else match split sep s' with
           | h :: t => String c h :: t
           | [] => [String c EmptyString]
           end
  end.

Definition Qltb (a b : Q) : bool := negb (Qle_bool b a).

(** ** The SQL expressions *)

(** [generate_series(a, b)]. *)
Definition generate_series (a b : Z) : list Z :=
  map (fun n => a + Z.of_nat n) (seq 0 (Z.to_nat (b - a + 1))).

(** LIMIT n. *)
Definition limit {A} (n : Z) (l : list A) : list A := firstn (Z.to_nat n) l.

(** SUM over a column of rationals; NULL on no rows. *)
Definition sql_sum (l : list Q) : option Q :=
  match l with
  | [] => None
  | _ => Some (fold_left Qplus l 0%Q)
  end.

(** MIN over a column of rationals; NULL on no rows. *)
Definition sql_min (l : list Q) : option Q :=
  match l with
  | [] => None
  | x :: r => Some (fold_left (fun m y => if Qltb y m then y else m) r x)
  end.

(** ORDER BY distance DESC LIMIT 1, over rows [(pid, distance)]: the first
    row of largest distance in the order the rows are produced. *)
Definition order_desc_limit_1 (l : list (Z * Q)) : option (Z * Q) :=
  match l with
  | [] => None
  | x :: r => Some (fold_left (fun m y => if Qltb (snd m) (snd y) then y else m) r x)
  end.

(** The distinct values of a GROUP BY key. *)
Fixpoint mem (x : Z) (l : list Z) : bool :=
  match l with
  | [] => false
  | y :: r => if x =? y then true else mem x r
  end.

Fixpoint group_keys (l : list Z) : list Z :=
  match l with
  | [] => []
  | x :: r => if mem x r then group_keys r else x :: group_keys r
  end.

(** The array built at the head of every iteration:
    [SELECT array( SELECT position FROM generate_series(1,k) x
                   LEFT OUTER JOIN output_centroids c ON x.x = c.cid
                   ORDER BY x LIMIT k)].
    An index without a centroid row contributes a NULL. *)
Definition centroid_array (k : Z) (cs : list CentroidRow) : list (option Position) :=
  limit k
    (flat_map
       (fun x => match filter (fun c => cid c =? x) cs with
                 | [] => [None]
                 | m => map (fun c => Some (c_position c)) m
                 end)
       (generate_series 1 k)).

(** [SELECT p.pid, p.position, madlib._kmeans_closestID(p.position, arr.arr)
     FROM <rows> p CROSS JOIN ArrayOfCentroids arr]. *)
Definition closest (arr : list (option Position)) (pid0 : Z) (pos : Position) : PointRow :=
  {| p_pid := pid0; p_position := pos; p_cid := _kmeans_closestID pos arr |}.

Definition assign_rows (arr : list (option Position)) (rows : list PointRow) : list PointRow :=
  map (fun p => closest arr (p_pid p) (p_position p)) rows.

Definition assign_points (arr : list (option Position)) (rows : list Point) : list PointRow :=
  map (fun p => closest arr (pid p) (position p)) rows.

(** The rows of a points table that carry centroid id [c]. *)
Definition members (c : Z) (rows : list PointRow) : list PointRow :=
  filter (fun r => p_cid r =? c) rows.

(** [SELECT madlib._kmeans_meanPosition(position) AS position, cid
     FROM TempTable<i> GROUP BY cid]. *)
Definition mean_positions (rows : list PointRow) : list CentroidRow :=
  map (fun c => {| cid := c;
                   c_position := _kmeans_meanPosition (map p_position (members c rows)) |})
      (group_keys (map p_cid rows)).

(** [SELECT count(pid) AS e, cid FROM <rows> GROUP BY cid]. *)
Definition cluster_counts (rows : list PointRow) : list (Z * Z) :=
  map (fun c => (c, Z.of_nat (List.length (members c rows))))
      (group_keys (map p_cid rows)).

(** [SELECT SUM(ABS(t1.e - t2.e))::float FROM <counts of cur> t1
     JOIN <counts of prev> t2 ON t1.cid = t2.cid]. *)
Definition count_changes (cur prev : list PointRow) : list Z :=
  flat_map
    (fun t1 => flat_map
                 (fun t2 => if fst t1 =? fst t2 then [Z.abs (snd t1 - snd t2)] else [])
                 (cluster_counts prev))
    (cluster_counts cur).

Definition changed_sum (cur prev : list PointRow) : option Q :=
  sql_sum (map inject_Z (count_changes cur prev)).

(** [SELECT sum(l2norm(p.position - c.position)) / count( * )
     FROM output_points p, output_centroids c WHERE p.cid = c.cid]. *)
Definition fit_distances (ps : list PointRow) (cs : list CentroidRow) : list Q :=
  flat_map
    (fun p => flat_map
                (fun c => if p_cid p =? cid c
                          then [l2norm_diff (p_position p) (c_position c)] else [])
                cs)
    ps.

Definition goodness_of_fit (ps : list PointRow) (cs : list CentroidRow) : option Q :=
  let d := fit_distances ps cs in
  match sql_sum d with
  | Some s => Some (s / inject_Z (Z.of_nat (List.length d)))%Q
  | None => None
  end.

End Statements.

Section Program.
Context {ML : Madlib} {CH : Chance}.
Local Open Scope kmeans_scope.

(** ** [__kmeans_init] *)

(** A negative LIMIT is rejected by the server. *)
Definition check_limit (n : Z) : M unit :=
  if n <? 0 then raise SqlError else ret tt.

(** Q1 of the seeding statement: the candidate pool cross joined with the
    current centroids, grouped by [pid], each group carrying
    [min(l2norm(p.position - c.position)) * (random()^(0.2))]. *)
Definition candidate_distances (i : Z) (pool : list Point) (cs : list CentroidRow)
  : list (Z * Q) :=
  flat_map
    (fun g =>
       match sql_min (flat_map
                        (fun p => if pid p =? g
                                  then map (fun c => l2norm_diff (position p) (c_position c)) cs
                                  else [])
                        pool) with
       | Some m => [(g, (m * seed_random i g)%Q)]
       | None => []
       end)
    (group_keys (map pid pool)).

(** The rows the statement for centroid [i] inserts: the input rows whose
    [pid] is the one Q1 selected. *)
Definition seed_statement (input : list Point) (k i : Z) (cs : list CentroidRow)
  : list CentroidRow :=
  let pool := limit (numCentroids_of k) (seed_order i input) in
  match order_desc_limit_1 (candidate_distances i pool cs) with
  | Some pc => map (fun pt => {| cid := i; c_position := position pt |})
                   (filter (fun pt => pid pt =? fst pc) input)
  | None => []
  end.

(** [while (i < k): i = i + 1; <seeding statement>]. *)
Fixpoint seed_remaining (fuel : nat) (input : list Point) (k i : Z) : M Z :=
  if i <? k then
    match fuel with
    | O => out_of_fuel
    | S fuel' =>
        let i := i + 1 in
        o <- gets output_centroids ;;
        cs <- required o ;;
        check_limit (numCentroids_of k) ;;;
        insert_centroids (seed_statement input k i cs) ;;;
        seed_remaining fuel' input k i
    end
  else ret i.

(** [__kmeans_init(input_table, k)] as [kmeans_run] calls it ([caller] is
    set, so the value returned is the loop counter).  [input] is the content
    of the input relation. *)
Definition __kmeans_init (input : list Point) (k : Z) : M Z :=
  (* DROP TABLE IF EXISTS; CREATE TABLE, for both output tables *)
  modify (with_output_points (Some [])) ;;;
  modify (with_output_centroids (Some [])) ;;;
  info (MsgSeeding k) ;;;
  (* SELECT 1, position FROM input ORDER BY random() DESC LIMIT 1 *)
  insert_centroids
    (map (fun pt => {| cid := 1; c_position := position pt |})
         (limit 1 (seed_order 1 input))) ;;;
  seed_remaining (Z.to_nat k) input k 1.

(** ** [kmeans_run] *)

(** The adjustable variables. *)
Definition sampling : Z := 1.
Definition sampling_size : Z := 100.
Definition max_sample_size : Z := 10000000.
Definition change_pct_limit : Q := 1 # 1000.
Definition max_iterations : Z := 20.

(** The validation block, up to the row count of the input relation.  Returns
    the rows of the input relation. *)
Definition validate_input (cat : Catalog) (input_table : string) (k : Z)
  : M (list Point) :=
  info MsgParameters ;;;
  (if negb (0 <? k) then plpy_error (ErrK k) else info (MsgK k)) ;;;
  names <- match split "."%char input_table with
           | [_] => plpy_error (ErrNoSchemaPrefix input_table)
           | [a; b] => ret (a, b)
           | _ => raise PyValueError
           end ;;
  rel <- match relations cat (fst names) (snd names) with
         | Some r => ret r
         | None => plpy_error (ErrNoTable input_table)
         end ;;
  (if existsb (String.eqb "pid") (rel_columns rel) then ret tt
   else plpy_error (ErrNoPid input_table)) ;;;
  (if existsb (String.eqb "position") (rel_columns rel) then ret tt
   else plpy_error (ErrNoPosition input_table)) ;;;
  info (MsgInputTable input_table) ;;;
  let p_count := Z.of_nat (List.length (rel_rows rel)) in
  (if p_count =? 0 then plpy_error (ErrEmptyTable input_table)
   else if p_count <=? k then plpy_error (ErrFewPoints p_count k)
   else ret tt) ;;;
  ret (rel_rows rel).

(** The rest of the validation block: [goodness], [run_id], [output_schema]. *)
Definition validate_options (cat : Catalog) (goodness : Z) (run_id output_schema : string)
  : M unit :=
  (if goodness =? 1 then info (MsgGoodness goodness)
   else if goodness =? 0 then info (MsgGoodness goodness)
   else plpy_error (ErrGoodness goodness)) ;;;
  (if String.eqb run_id EmptyString then info (MsgRunId (backend_pid cat) true)
   else info (MsgRunId run_id false)) ;;;
  (if String.eqb output_schema EmptyString then info (MsgOutputSchema "public")
   else if namespaces cat output_schema then info (MsgOutputSchema output_schema)
   else plpy_error (ErrOutputSchema output_schema)).

(** The exit conditions at the foot of the loop body; the value is [done]. *)
Definition exit_conditions (i max_iter : Z) : M bool :=
  cp <- gets change_pct ;;
  stabilized <- (if 3 <? i
                 then a <- py_index cp (i - 4) ;;
                      d <- py_index cp (i - 1) ;;
                      ret (Qltb (a - d) 0)
                 else ret false) ;;
  if stabilized then
    a <- py_index cp (i - 4) ;;
    b <- py_index cp (i - 3) ;;
    c <- py_index cp (i - 2) ;;
    d <- py_index cp (i - 1) ;;
    info (MsgExitStabilized ((a + b + c + d) / 4)) ;;;
    ret true
  else
    d <- py_index cp (i - 1) ;;
    if Qltb d change_pct_limit then
      info (MsgExitBelowLimit change_pct_limit) ;;; ret true
    else if i =? max_iter then
      info (MsgExitMaxIterations max_iter) ;;; ret true
    else ret false.

(** Assign: the array of current centroids is rebuilt from the centroids
    table and TempTable<i> receives each point of TempTable<i-1> with its
    closest centroid.  The value is the pair of TempTable<i> and
    TempTable<i-1>. *)
Definition assign_step (k i : Z) : M (list PointRow * list PointRow) :=
  o <- gets output_centroids ;;
  cs <- required o ;;
  check_limit k ;;;
  let arr := centroid_array k cs in
  modify (with_ArrayOfCentroids (Some arr)) ;;;
  temps <- gets TempTable ;;
  prev <- required (temp_lookup (i - 1) temps) ;;
  let cur := assign_rows arr prev in
  create_TempTable i cur ;;;
  ret (cur, prev).

(** Update: TRUNCATE output_centroids; INSERT the mean position of every
    group of TempTable<i>. *)
Definition update_step (cur : list PointRow) : M unit :=
  o <- gets output_centroids ;;
  _ <- required o ;;
  modify (with_output_centroids (Some (mean_positions cur))).

(** Measure: the number of points that changed the assignment, TempTable<i-1>
    dropped, and the tracking variable extended from the second pass on. *)
Definition measure_step (p_count i : Z) (cur prev : list PointRow) : M unit :=
  let rv := changed_sum cur prev in
  drop_TempTable (i - 1) ;;;
  if 1 <? i then
    match rv with
    | Some sum => modify (fun s => with_change_pct
                                     (change_pct s ++ [(sum / inject_Z p_count)%Q]) s)
    | None => raise PyTypeError
    end
  else ret tt.

(** One pass through the body of the main loop; the value is [done]. *)
Definition iteration (k p_count max_iter : Z) : M bool :=
  i0 <- gets loop_i ;;
  let i := i0 + 1 in
  modify (with_loop_i i) ;;;
  info (MsgIteration i) ;;;
  t <- assign_step k i ;;
  update_step (fst t) ;;;
  measure_step p_count i (fst t) (snd t) ;;;
  exit_conditions i max_iter.

(** [while (done == 0): ...]. *)
Fixpoint main_loop (fuel : nat) (k p_count max_iter : Z) : M unit :=
  match fuel with
  | O => out_of_fuel
  | S fuel' =>
      done <- iteration k p_count max_iter ;;
      if done then ret tt else main_loop fuel' k p_count max_iter
  end.

(** What the returned text reports. *)
Inductive Gfit :=
| NotComputed                 (* 'not computed' *)
| Computed (v : option Q).    (* the value of the query; NULL on no rows *)

Record Summary := { c_count_final : Z; gfit : Gfit }.

(** Prepare either the sample or the full data set as TempTable0; the value
    is [expand]. *)
Definition unassigned (p : Point) : PointRow :=
  {| p_pid := pid p; p_position := position p; p_cid := 0 |}.

Definition sample_size_of (k : Z) : Z :=
  Z.min (sampling_size * numCentroids_of k) max_sample_size.

Definition prepare_working_set (input : list Point) (k : Z) : M bool :=
  let p_count := Z.of_nat (List.length input) in
  let sample_size := sample_size_of k in
  if (sampling =? 1) && (sample_size <? p_count) then
    info (MsgUsingSample sample_size p_count) ;;;
    check_limit sample_size ;;;
    create_TempTable 0 (map unassigned (limit sample_size (sample_order input))) ;;;
    ret true
  else
    info (MsgUsingFull p_count) ;;;
    create_TempTable 0 (map unassigned input) ;;;
    ret false.

(** Expand to all points if executed on a sample, else fill the output table
    from the last TempTable. *)
Definition write_output (expand : bool) (input : list Point) : M unit :=
  i <- gets loop_i ;;
  if expand then
    info MsgExpanding ;;;
    o <- gets ArrayOfCentroids ;;
    arr <- required o ;;
    insert_points (assign_points arr input)
  else
    info MsgWritingOutput ;;;
    temps <- gets TempTable ;;
    rows <- required (temp_lookup i temps) ;;
    insert_points rows.

(** Calculate goodness of fit. *)
Definition goodness_test (goodness : Z) : M Gfit :=
  if goodness =? 1 then
    info MsgGoodnessOfFit ;;;
    op <- gets output_points ;;
    ps <- required op ;;
    oc <- gets output_centroids ;;
    cs <- required oc ;;
    ret (Computed (goodness_of_fit ps cs))
  else ret NotComputed.

(** The part of [kmeans_run] after validation; [input] is the content of the
    input relation and [max_iter] the value of [max_iterations]. *)
Definition cluster (fuel : nat) (max_iter : Z) (input : list Point) (k goodness : Z)
  : M Summary :=
  let p_count := Z.of_nat (List.length input) in
  (* Initialize centroids *)
  c_count <- __kmeans_init input k ;;
  (* info('Requested %d centroids, but %d have been seeded.' % k, c_count):
     the format string is applied to k alone *)
  (if negb (c_count =? k) then raise PyTypeError else ret tt) ;;;
  expand <- prepare_working_set input k ;;
  (* Main Loop *)
  modify (with_loop_i 0) ;;;
  main_loop fuel k p_count max_iter ;;;
  write_output expand input ;;;
  g <- goodness_test goodness ;;
  (* Count final number of centroids *)
  oc <- gets output_centroids ;;
  cs <- required oc ;;
  ret {| c_count_final := Z.of_nat (List.length cs); gfit := g |}.

(** [kmeans_run(input_table, k, goodness, run_id, output_schema)], with the
    iteration bound as a parameter. *)
Definition kmeans_run_with (fuel : nat) (max_iter : Z) (cat : Catalog)
    (input_table : string) (k goodness : Z) (run_id output_schema : string)
  : M Summary :=
  modify (with_change_pct [100%Q]) ;;;
  input <- validate_input cat input_table k ;;
  validate_options cat goodness run_id output_schema ;;;
  cluster fuel max_iter input k goodness.

Definition kmeans_run (fuel : nat) :=
  kmeans_run_with fuel max_iterations.

End Program.

(** ** Quoting and the names of the output tables *)

(** [val.replace(old, new)] for a one-character [old]. *)
Fixpoint replace (old : ascii) (new val : string) : string :=
  match val with
  | EmptyString => EmptyString
  | String c r =>
      if Ascii.eqb c old then (new ++ replace old new r)%string
      else String c (replace old new r)
  end.

(** The double quote and the single quote. *)
Definition dquote : ascii := "034"%char.
Definition squote : ascii := "'"%char.

(** [quote_ident(val)]: [val] between double quotes, every double quote of
    [val] doubled. *)
Definition quote_ident (val : string) : string :=
  (String dquote EmptyString
   ++ replace dquote (String dquote (String dquote EmptyString)) val
   ++ String dquote EmptyString)%string.

(** [quote_literal(val)]: [val] between single quotes, every single quote of
    [val] doubled. *)
Definition quote_literal (val : string) : string :=
  (String squote EmptyString
   ++ replace squote (String squote (String squote EmptyString)) val
   ++ String squote EmptyString)%string.

(** The globals [output_points] and [output_centroids] as [kmeans_run] sets
    them, from the [output_schema] and the [run_id] that validation has
    settled on. *)
Definition output_points_name (output_schema run_id : string) : string :=
  (quote_ident output_schema ++ "." ++ quote_ident ("kmeans_out_points_" ++ run_id))%string.

Definition output_centroids_name (output_schema run_id : string) : string :=
  (quote_ident output_schema ++ "." ++ quote_ident ("kmeans_out_centroids_" ++ run_id))%string.

(** [input_table] as the statements after validation use it:
    [quote_ident(input_schemaname) + '.' + quote_ident(input_tablename)]. *)
Definition requoted (input_table : string) : option string :=
  match split "."%char input_table with
  | [a; b] => Some (quote_ident a ++ "." ++ quote_ident b)%string
  | _ => None
  end.

(** ** The rational line: a concrete vector space *)

(** Modelled from the spec: [l2norm] on SVEC, [madlib._kmeans_closestID] and
    [madlib._kmeans_meanPosition] are defined outside kmeans.py.  The spec has
    the distance as the L2 norm of the difference, the mean as the
    element-wise mean, and the closest centroid as the one of minimum
    distance, ties broken by the lowest centroid id.  Here vectors have one
    rational coordinate; a NULL entry of the centroid array is never the
    closest, and an array without any centroid yields 0. *)
Definition line_l2norm_diff (a b : Qc) : Q := Qabs (a - b)%Qc.

Fixpoint line_closest_from (pos : Qc) (arr : list (option Qc)) (idx : Z)
    (best : option (Z * Q)) : Z :=
  match arr with
  | [] => match best with Some b => fst b | None => 0 end
  | None :: rest => line_closest_from pos rest (idx + 1) best
  | Some c :: rest =>
      let d := line_l2norm_diff pos c in
      match best with
      | Some b =>
          if Qltb d (snd b) then line_closest_from pos rest (idx + 1) (Some (idx, d))
          else line_closest_from pos rest (idx + 1) best
      | None => line_closest_from pos rest (idx + 1) (Some (idx, d))
      end
  end.

Definition line_closestID (pos : Qc) (arr : list (option Qc)) : Z :=
  line_closest_from pos arr 1 None.

Definition line_meanPosition (l : list Qc) : Qc :=
  (fold_left Qcplus l (Q2Qc 0) / Q2Qc (inject_Z (Z.of_nat (List.length l))))%Qc.

Definition Line : Madlib :=
  {| Position := Qc;
     l2norm_diff := line_l2norm_diff;
     _kmeans_closestID := line_closestID;
     _kmeans_meanPosition := line_meanPosition |}.

(** The value of [floor( - log( 1 - pow( 0.999, 1/float(k))) * k)] in double
    precision for k = 1..7; beyond the table a lower bound of it. *)
Definition pool_size (k : Z) : Z :=
  match k with
  | 1 => 6 | 2 => 15 | 3 => 24 | 4 => 33 | 5 => 42 | 6 => 52 | 7 => 61
  | _ => 6 * k
  end.

(** The point [(pid, x)] of the line, x an integer. *)
Definition at_ (n x : Z) : @Point Line :=
  {| pid := n; position := Q2Qc (inject_Z x) : @Position Line |}.

(** A catalog holding one relation, [public.points]. *)
Definition catalog_of (rows : list (@Point Line)) : @Catalog Line :=
  {| relations := fun s t =>
       if (String.eqb s "public" && String.eqb t "points")%bool
       then Some {| rel_columns := ["pid"; "position"]%string; rel_rows := rows |}
       else None;
     namespaces := fun s => String.eqb s "public";
     backend_pid := "4242" |}.

(** A fresh session. *)
Definition fresh : @Store Line :=
  {| output_points := None; output_centroids := None; TempTable := [];
     ArrayOfCentroids := None; log := []; loop_i := 0; change_pct := [] |}.

(** Every ORDER BY random() leaves the rows as they are and every candidate
    draws the same weight. *)
Definition plain : @Chance Line :=
  {| numCentroids_of := pool_size;
     seed_order := fun _ l => l;
     seed_random := fun _ _ => 1 # 2;
     sample_order := fun l => l |}.

(** Three points at one position. *)
Definition same3 : list (@Point Line) := [at_ 1 0; at_ 2 0; at_ 3 0].

(** One point at 0, six at 2, one at 30. *)
Definition swing8 : list (@Point Line) :=
  [at_ 1 0; at_ 2 2; at_ 3 2; at_ 4 2; at_ 5 2; at_ 6 2; at_ 7 2; at_ 8 30].

(** The candidate with pid 2 draws 9/10, every other candidate 1/20. *)
Definition favour2 : @Chance Line :=
  {| numCentroids_of := pool_size;
     seed_order := fun _ l => l;
     seed_random := fun _ p => if p =? 2 then 9 # 10 else 1 # 20;
     sample_order := fun l => l |}.

(** Fourteen points whose change fractions rise again after falling. *)
Definition wave14 : list (@Point Line) :=
  [at_ 1 59; at_ 2 90; at_ 3 80; at_ 4 14; at_ 5 27; at_ 6 51; at_ 7 88;
   at_ 8 59; at_ 9 56; at_ 10 47; at_ 11 46; at_ 12 91; at_ 13 80; at_ 14 42].

(** 2401 points: pid 1 at 2, pids 2..1199 at 4, pid 1200 at 6, pid 1201 at
    12, pids 1202..2399 at 14, pid 2400 at 16 and pid 2401 at 9. *)
Definition crowd : list (@Point Line) :=
  at_ 1 2 :: map (fun n => at_ n 4) (generate_series 2 1199)
  ++ [at_ 1200 6; at_ 1201 12]
  ++ map (fun n => at_ n 14) (generate_series 1202 2399)
  ++ [at_ 2400 16; at_ 2401 9].

(** [rotate n l] moves the last [n] rows of [l] to the front. *)
Definition rotate {A} (n : nat) (l : list A) : list A :=
  skipn (List.length l - n) l ++ firstn (List.length l - n) l.

(** The statement seeding centroid [i] sees the rows rotated by [i - 1]; the
    sample is drawn in table order; all weights are equal. *)
Definition turning : @Chance Line :=
  {| numCentroids_of := pool_size;
     seed_order := fun i l => rotate (Z.to_nat (i - 1)) l;
     seed_random := fun _ _ => 1 # 2;
     sample_order := fun l => l |}.

(** Ten points whose change fraction rises at the fifth pass. *)
Definition steady10 : list (@Point Line) :=
  [at_ 1 26; at_ 2 10; at_ 3 32; at_ 4 29; at_ 5 29; at_ 6 34; at_ 7 38;
   at_ 8 50; at_ 9 2; at_ 10 6].

(** The runs of the examples, through the public entry point, in a fresh
    session.  With less fuel than the loop needs, the store is the one the
    loop has reached after [fuel] passes. *)
Abbreviation run_upto fuel CH rows k goodness :=
  (@kmeans_run_with Line CH fuel max_iterations (catalog_of rows) "public.points"%string
     k goodness "r"%string "public"%string fresh).

Abbreviation run_of CH rows k goodness := (run_upto 20%nat CH rows k goodness).

(** ** The spec's formulas *)

Section SpecFormulas.
Context {ML : Madlib}.

(** The change fraction as the spec words it: the sum over the centroids
    1..k of the absolute difference of their point counts in the two
    assignments, over the number of points of the working set. *)
Definition change_fraction_spec (k : Z) (cur prev : list PointRow) : Q :=
  let total :=
    fold_right Z.add 0
      (map (fun c => Z.abs (Z.of_nat (List.length (members c cur))
                            - Z.of_nat (List.length (members c prev))))
           (generate_series 1 k)) in
  Qdiv (inject_Z total) (inject_Z (Z.of_nat (List.length cur))).

(** The centroid row an output point refers to. *)
Definition centroid_of (cs : list CentroidRow) (p : PointRow) : option CentroidRow :=
  find (fun c => p_cid p =? cid c) cs.

(** The output points whose centroid id has a row in the centroids table. *)
Definition matched (cs : list CentroidRow) (ps : list PointRow) : list PointRow :=
  filter (fun p => match centroid_of cs p with Some _ => true | None => false end) ps.

(** The distance of an output point to the centroid it refers to. *)
Definition distance_to_centroid (cs : list CentroidRow) (p : PointRow) : Q :=
  match centroid_of cs p with
  | Some c => l2norm_diff (p_position p) (c_position c)
  | None => 0
  end.

Definition Qsum (l : list Q) : Q := fold_right Qplus 0%Q l.

(** The fit score as the spec words it: the sum of the distances of the
    output points to their centroids, over the number of output points. *)
Definition fit_spec (ps : list PointRow) (cs : list CentroidRow) : Q :=
  (Qsum (map (distance_to_centroid cs) ps) / inject_Z (Z.of_nat (List.length ps)))%Q.

(** The Update step as the spec words it: a centroid without assigned points
    keeps its row. *)
Definition update_retains (before after : list CentroidRow) (cur : list PointRow) : Prop :=
  forall c, In c before -> members (cid c) cur = [] -> In c after.

(** Expansion as the spec words it: every output point carries the id of the
    centroid closest to it among the final centroids. *)
Definition expansion_consistent (k : Z) (ps : list PointRow) (cs : list CentroidRow)
  : Prop :=
  forall row, In row ps ->
    p_cid row = _kmeans_closestID (p_position row) (centroid_array k cs).

(** The fraction measured in pass [j]: none in the first pass; the tracking
    variable starts with its initial entry, so the fraction of pass [j] is
    entry [j - 1]. *)
Definition measured_in_pass (cp : list Q) (j : Z) : option Q :=
  if 2 <=? j then nth_error cp (Z.to_nat (j - 1)) else None.

(** The stabilisation rule as the spec words it: after pass i > 3, a fraction
    from 4 passes back smaller than the current one stops the loop. *)
Definition stops_four_back (cp : list Q) (i : Z) (done : bool) : Prop :=
  3 < i ->
  forall old cur,
    measured_in_pass cp (i - 4) = Some old -> measured_in_pass cp i = Some cur ->
    (old - cur < 0)%Q -> done = true.

(** The range of the change fractions as the spec words it. *)
Definition fractions_within_one (cp : list Q) : Prop :=
  Forall (fun m => 0 <= m <= 1)%Q (tl cp).


End SpecFormulas.

(** * Vocabulary of the properties *)

Section Vocabulary.
Context {ML : Madlib} {CH : Chance}.

(** The store after the Assign and Update steps of pass [i]. *)
Definition refreshed (k i : Z) (cs : list CentroidRow) (prev : list PointRow) (s : Store)
  : Store :=
  let arr := centroid_array k cs in
  let cur := assign_rows arr prev in
  with_TempTable (temp_drop (i - 1) ((i, cur) :: temp_drop i (TempTable s)))
    (with_output_centroids (Some (mean_positions cur))
       (with_TempTable ((i, cur) :: temp_drop i (TempTable s))
          (with_ArrayOfCentroids (Some arr)
             (with_log (log s ++ [MsgIteration i]) (with_loop_i i s))))).

(** Everything of a store but its log. *)
Definition locals_and_tables (s : Store) :=
  (tables s, loop_i s, change_pct s).

(** [keeps f c]: the computation [c] leaves [f] of the store as it found it,
    whatever its outcome. *)
Definition keeps {T A} (f : Store -> T) (c : M A) : Prop :=
  forall s, f (snd (c s)) = f s.

(** [total c]: the computation [c] does not run out of fuel. *)
Definition total {A} (c : M A) : Prop :=
  forall s, fst (c s) <> OutOfFuel.

Definition Zsum (l : list Z) : Z := fold_right Z.add 0 l.

(** [count(pid)] of the group [c]. *)
Definition group_size (rows : list PointRow) (c : Z) : Z :=
  Z.of_nat (List.length (members c rows)).

(** The points of a table, without their centroid ids. *)
Definition points_of (rows : list PointRow) : list Point :=
  map (fun r => {| pid := p_pid r; position := p_position r |}) rows.

(** The tracking variable [cp] is [cp0] followed by values between 0 and 2. *)
Definition bounded_growth (cp0 cp : list Q) : Prop :=
  exists ms, cp = cp0 ++ ms /\ Forall (fun m => 0 <= m <= 2)%Q ms.

(** The working set of a run on [input] into [k] clusters. *)
Definition sampled (input : list Point) (k : Z) : bool :=
  (sampling =? 1) && (sample_size_of k <? Z.of_nat (List.length input)).

Definition working_set (input : list Point) (k : Z) : list Point :=
  if sampled input k then limit (sample_size_of k) (sample_order input) else input.

(** The messages the validation of [k] and of the input relation can emit. *)
Definition validation_msg (input_table : string) (k : Z) (m : Msg) : Prop :=
  m = MsgParameters \/ m = MsgK k \/ m = MsgInputTable input_table.

(** The state a completed clustering of [input] leaves: the centroid array
    of the last pass, the last TempTable, the centroids and the output
    points, and what the returned text reports. *)
Definition completed (input : list Point) (k goodness : Z) (r : Summary) (s' : Store)
  : Prop :=
  exists cs_prev,
    let arr := centroid_array k cs_prev in
    let last := assign_points arr (working_set input k) in
    ArrayOfCentroids s' = Some arr /\
    temp_lookup (loop_i s') (TempTable s') = Some last /\
    output_centroids s' = Some (mean_positions last) /\
    output_points s' = Some (assign_points arr input) /\
    c_count_final r = Z.of_nat (List.length (mean_positions last)) /\
    gfit r = (if goodness =? 1
              then Computed (goodness_of_fit (assign_points arr input)
                               (mean_positions last))
              else NotComputed).

(** The centroids table after [i] centroids were seeded from [input]. *)
Definition seeded (input : list Point) (i : Z) (cs : list CentroidRow) : Prop :=
  map cid cs = generate_series 1 i /\
  forall c, In c cs -> exists p, In p input /\ c_position c = position p.

End Vocabulary.

(** ** How the server reads a quoted token *)

(** The lexical rule of SQL for a token that opens with the quote character
    [q] (a delimited identifier, or a string constant read without backslash
    escapes): inside the token two adjacent quote characters stand for one,
    and a quote character that is not followed by another one closes the
    token.  [scan_body] reads from behind the opening quote; the value is the
    content of the token and the text after it. *)
Fixpoint scan_body (q : ascii) (s : string) : option (string * string) :=
  match s with
  | EmptyString => None
  | String c s' =>
      if Ascii.eqb c q then
        match s' with
        | String c' s'' =>
            if Ascii.eqb c' q
            then option_map (fun r => (String q (fst r), snd r)) (scan_body q s'')
            else Some (EmptyString, s')
        | EmptyString => Some (EmptyString, EmptyString)
        end
      else option_map (fun r => (String c (fst r), snd r)) (scan_body q s')
  end.

Definition scan_quoted (q : ascii) (s : string) : option (string * string) :=
  match s with
  | String c s' => if Ascii.eqb c q then scan_body q s' else None
  | EmptyString => None
  end.

(** A schema-qualified name: two delimited identifiers with a dot between
    them, and nothing after. *)
Definition read_qualified (s : string) : option (string * string) :=
  match scan_quoted dquote s with
  | Some (a, String c r) =>
      if Ascii.eqb c "."%char then
        match scan_quoted dquote r with
        | Some (b, EmptyString) => Some (a, b)
        | _ => None
        end
      else None
  | _ => None
  end.

(** The text [rest] does not begin with the character [q]. *)
Definition not_opening (q : ascii) (rest : string) : Prop :=
  match rest with
  | String c _ => c <> q
  | EmptyString => True
  end.

(** The number of occurrences of a character. *)
Fixpoint occurrences (c : ascii) (s : string) : nat :=
  match s with
  | EmptyString => 0%nat
  | String d r => if Ascii.eqb d c then S (occurrences c r) else occurrences c r
  end.

(** ** Outcomes, sessions and centroid ids *)

Section FurtherVocabulary.
Context {ML : Madlib} {CH : Chance}.

(** [avoids e c]: the computation [c] does not raise [e], from any store. *)
Definition avoids {A} (e : Exception) (c : M A) : Prop :=
  forall s, fst (c s) <> Raise e.

(** [triple e P c Q]: from a store that satisfies [P], the computation [c]
    does not raise [e], and when it returns [a] in the store [s'] then
    [Q a s'] holds. *)
Definition triple {A} (e : Exception) (P : Store -> Prop) (c : M A)
    (Q : A -> Store -> Prop) : Prop :=
  forall s, P s ->
    match c s with
    | (Ret a, s') => Q a s'
    | (Raise e', _) => e' <> e
    | (OutOfFuel, _) => True
    end.

(** The tracking variable holds its initial entry and one entry for every
    pass counted from the second on. *)
Definition tracked (s : Store) : Prop :=
  0 <= loop_i s /\ Z.of_nat (List.length (change_pct s)) = Z.max 1 (loop_i s).

(** The relations a pass of the main loop reads are there. *)
Definition loop_ready (s : Store) : Prop :=
  output_points s <> None /\ output_centroids s <> None /\
  temp_lookup (loop_i s) (TempTable s) <> None.

(** The weight of the candidate [p] in the statement that seeds centroid
    [i]: [min(l2norm(p.position - c.position)) * (random()^(0.2))] over the
    current centroids [cs]; NULL when there is no centroid. *)
Definition seed_weight (i : Z) (cs : list CentroidRow) (p : Point) : option Q :=
  option_map (fun m => (m * seed_random i (pid p))%Q)
    (sql_min (map (fun c => l2norm_diff (position p) (c_position c)) cs)).

(** The temporary tables of the store [s], seen from a session that held
    the temporary tables [T] when the run began: TempTable0 up to the one
    before the current pass are gone, every other one but the current is as
    it was. *)
Definition swept (T : list (Z * list PointRow)) (s : Store) : Prop :=
  0 <= loop_i s /\
  forall j, j <> loop_i s ->
    temp_lookup j (TempTable s)
    = if (0 <=? j) && (j <? loop_i s) then None else temp_lookup j T.

(** [alike c P Q]: run from two stores related by [P], the computation [c]
    has the same outcome, and when it returns [a] the stores it leaves are
    related by [Q a]. *)
Definition alike {A} (P : Store -> Store -> Prop) (c : M A)
    (Q : A -> Store -> Store -> Prop) : Prop :=
  forall s1 s2, P s1 s2 ->
    fst (c s1) = fst (c s2) /\
    forall a, fst (c s1) = Ret a -> Q a (snd (c s1)) (snd (c s2)).

(** Two sessions that hold the same output tables. *)
Definition same_output (s1 s2 : Store) : Prop :=
  output_points s1 = output_points s2 /\ output_centroids s1 = output_centroids s2.

(** Two sessions at the same point of the main loop: the same output tables,
    the same locals, and the same temporary table of the last pass. *)
Definition same_pass (s1 s2 : Store) : Prop :=
  same_output s1 s2 /\
  loop_i s1 = loop_i s2 /\ change_pct s1 = change_pct s2 /\
  temp_lookup (loop_i s1) (TempTable s1) = temp_lookup (loop_i s2) (TempTable s2).

(** A centroids table that is not empty, with one row per centroid id and
    every id between 1 and k. *)
Definition well_numbered (k : Z) (cs : list CentroidRow) : Prop :=
  cs <> [] /\ NoDup (map cid cs) /\ forall c, In c cs -> 1 <= cid c <= k.

(** Every row of a points table carries a centroid id between 1 and k. *)
Definition cids_within (k : Z) (rows : list PointRow) : Prop :=
  forall r, In r rows -> 1 <= p_cid r <= k.

(** At the head of a pass: nothing written to the output points yet, a well
    numbered centroids table, and a temporary table of the last pass that is
    not empty. *)
Definition numbered_pass (k : Z) (s : Store) : Prop :=
  output_points s = Some [] /\
  (exists cs, output_centroids s = Some cs /\ well_numbered k cs) /\
  exists prev, temp_lookup (loop_i s) (TempTable s) = Some prev /\ prev <> [].

(** After a pass: as at its head, and the centroid array and the assignment
    of the pass name centroid ids between 1 and k only. *)
Definition numbered_result (k : Z) (s : Store) : Prop :=
  numbered_pass k s /\
  (exists arr, ArrayOfCentroids s = Some arr /\
               forall pos, 1 <= _kmeans_closestID pos arr <= k) /\
  exists cur, temp_lookup (loop_i s) (TempTable s) = Some cur /\ cids_within k cur.

(** The sum, over the centroid ids that have points in both assignments, of
    the absolute difference of their point counts. *)
Definition common_change (cur prev : list PointRow) : Z :=
  Zsum (map (fun c => if mem c (group_keys (map p_cid prev))
                      then Z.abs (group_size cur c - group_size prev c)
                      else 0)
            (group_keys (map p_cid cur))).

End FurtherVocabulary.

(** ** States and runs of the examples *)

(** The coordinate of a point of the line. *)
Definition coordinate (x : @Position Line) : Q := this x.

(** The session at the head of the first pass of the run on [same3]. *)
Definition same3_entry : @Store Line := snd (run_upto 0 plain same3 2 1).

(** The session of the run on [wave14] after five passes. *)
Definition wave14_five : @Store Line := snd (run_upto 5 plain wave14 2 0).

(** The session of the run on [steady10] after four passes. *)
Definition steady10_four : @Store Line := snd (run_upto 4 plain steady10 2 0).

(** The sampled run on [crowd]: k = 3, goodness test on. *)
Abbreviation crowd_run := (run_of turning crowd 3 1).

(** The session of the run on [same3] after its first pass. *)
Definition same3_one : @Store Line := snd (run_upto 1 plain same3 2 1).

(** A centroids table without a row for centroid 2. *)
Definition one_and_three : list (@CentroidRow Line) :=
  [{| cid := 1; c_position := Q2Qc (inject_Z 4) : @Position Line |};
   {| cid := 3; c_position := Q2Qc (inject_Z 14) : @Position Line |}].

(** * Properties *)

Section Facts.
Context {ML : Madlib} {CH : Chance}.
Local Open Scope kmeans_scope.

(** ** Grouping *)

Lemma mem_In (x : Z) (l : list Z) : mem x l = true <-> In x l.
Proof.
  induction l as [|y r IH]; simpl.
  - split; [discriminate | tauto].
  - destruct (Z.eqb_spec x y) as [->|Hne].
    + split; auto.
    + rewrite IH. split; [auto | intros [H|H]; [congruence | exact H]].
Qed.

Lemma group_keys_In (x : Z) (l : list Z) : In x (group_keys l) <-> In x l.
Proof.
  induction l as [|y r IH]; simpl; [tauto|].
  destruct (mem y r) eqn:Hm.
  - rewrite IH. apply mem_In in Hm.
    split; [auto | intros [->|H]; assumption].
  - simpl. rewrite IH. tauto.
Qed.

Lemma group_keys_NoDup (l : list Z) : NoDup (group_keys l).
Proof.
  induction l as [|y r IH]; simpl; [constructor|].
  destruct (mem y r) eqn:Hm; [exact IH|].
  constructor; [|exact IH].
  rewrite group_keys_In, <- mem_In. congruence.
Qed.

Lemma members_In (c : Z) (rows : list PointRow) (r : PointRow) :
  In r (members c rows) <-> In r rows /\ p_cid r = c.
Proof.
  unfold members. rewrite filter_In, Z.eqb_eq. tauto.
Qed.

Lemma members_nonempty (c : Z) (rows : list PointRow) :
  members c rows <> [] <-> In c (map p_cid rows).
Proof.
  rewrite in_map_iff. split.
  - destruct (members c rows) as [|r m] eqn:E; [congruence|].
    intros _. assert (H : In r (members c rows)) by (rewrite E; left; reflexivity).
    apply members_In in H. exists r. tauto.
  - intros (r & Hc & Hr) E.
    assert (H : In r (members c rows)) by (apply members_In; auto).
    rewrite E in H. exact H.
Qed.

Lemma mean_positions_cids (rows : list PointRow) :
  map cid (mean_positions rows) = group_keys (map p_cid rows).
Proof.
  unfold mean_positions. rewrite map_map. simpl. apply map_id.
Qed.


Lemma assign_rows_length (arr : list (option Position)) (rows : list PointRow) :
  List.length (assign_rows arr rows) = List.length rows.
Proof. unfold assign_rows. apply length_map. Qed.

(** ** Temporary tables *)

Lemma temp_lookup_drop_other (n m : Z) (tt : list (Z * list PointRow)) :
  n <> m -> temp_lookup n (temp_drop m tt) = temp_lookup n tt.
Proof.
  intros Hne. unfold temp_lookup, temp_drop.
  induction tt as [|e r IH]; simpl; [reflexivity|].
  destruct (Z.eqb_spec (fst e) m) as [Hm|Hm]; simpl.
  - destruct (Z.eqb_spec (fst e) n) as [Hn|Hn]; [congruence | exact IH].
  - destruct (Z.eqb_spec (fst e) n); [reflexivity | exact IH].
Qed.

Lemma temp_lookup_head (n : Z) (rows : list PointRow) (tt : list (Z * list PointRow)) :
  temp_lookup n ((n, rows) :: tt) = Some rows.
Proof. unfold temp_lookup. simpl. rewrite Z.eqb_refl. reflexivity. Qed.

Lemma temp_lookup_tail (n m : Z) (rows : list PointRow) (tt : list (Z * list PointRow)) :
  n <> m -> temp_lookup n ((m, rows) :: tt) = temp_lookup n tt.
Proof.
  intros Hne. unfold temp_lookup. simpl.
  destruct (Z.eqb_spec m n); [congruence | reflexivity].
Qed.

(** ** The shape of one pass *)

Lemma iteration_shape (k p_count max_iter : Z) (s : Store) :
  let i := loop_i s + 1 in
  match output_centroids s, temp_lookup (i - 1) (TempTable s), k <? 0 with
  | Some cs, Some prev, false =>
      let cur := assign_rows (centroid_array k cs) prev in
      let s2 := refreshed k i cs prev s in
      iteration k p_count max_iter s =
        if 1 <? i then
          match changed_sum cur prev with
          | Some sum =>
              exit_conditions i max_iter
                (with_change_pct (change_pct s ++ [(sum / inject_Z p_count)%Q]) s2)
          | None => (Raise PyTypeError, s2)
          end
        else exit_conditions i max_iter s2
  | _, _, _ => fst (iteration k p_count max_iter s) = Raise SqlError
  end.
Proof.
  destruct s as [op oc temps ar lg li cp].
  unfold iteration, assign_step, update_step, measure_step, drop_TempTable,
    create_TempTable, check_limit, info.
  cbv [bind gets modify ret raise required refreshed
       output_centroids TempTable loop_i change_pct log ArrayOfCentroids
       with_loop_i with_log with_ArrayOfCentroids with_TempTable with_output_centroids
       with_change_pct fst snd].
  destruct oc as [cs|]; [|reflexivity].
  destruct (k <? 0) eqn:Hk.
  { destruct (temp_lookup (li + 1 - 1) temps); reflexivity. }
  destruct (temp_lookup (li + 1 - 1) temps) as [prev|] eqn:Hprev; [|reflexivity].
  rewrite temp_lookup_tail by lia.
  rewrite temp_lookup_drop_other by lia.
  rewrite Hprev.
  destruct (1 <? li + 1); [|reflexivity].
  destruct (changed_sum _ _); reflexivity.
Qed.

(** ** The exit conditions *)

Ltac store_cbv :=
  cbv [bind gets modify ret raise required info plpy_error
       output_points output_centroids TempTable loop_i change_pct log ArrayOfCentroids
       with_loop_i with_log with_ArrayOfCentroids with_TempTable with_output_centroids
       with_output_points with_change_pct fst snd locals_and_tables tables].

Ltac split_cases :=
  repeat match goal with
    | |- context [match ?o with Some _ => _ | None => _ end] => destruct o eqn:?
    | |- context [if ?b then _ else _] => destruct b eqn:?
    end.

Lemma py_index_nth {A} (l : list A) (n : Z) (a : A) :
  0 <= n -> nth_error l (Z.to_nat n) = Some a -> py_index l n = ret a.
Proof.
  intros Hn H. unfold py_index.
  destruct (Z.leb_spec 0 n); [|lia]. rewrite H. reflexivity.
Qed.

Lemma exit_conditions_frame (i max_iter : Z) (s : Store) :
  let r := exit_conditions i max_iter s in
  locals_and_tables (snd r) = locals_and_tables s /\
  (exists l, log (snd r) = log s ++ l) /\
  ((exists d, fst r = Ret d) \/ fst r = Raise PyIndexError).
Proof.
  destruct s as [op oc temps ar lg li cp].
  unfold exit_conditions, py_index. store_cbv.
  split_cases; store_cbv;
    (split; [reflexivity
            | split; [first [ exists []; now rewrite app_nil_r | eexists; reflexivity ]
                     | eauto]]).
Qed.

Lemma exit_conditions_at_bound (i : Z) (s : Store) :
  fst (exit_conditions i i s) <> Ret false.
Proof.
  destruct s as [op oc temps ar lg li cp].
  unfold exit_conditions, py_index. store_cbv.
  rewrite Z.eqb_refl.
  split_cases; store_cbv; discriminate.
Qed.

Lemma exit_conditions_first (max_iter : Z) (s : Store) :
  change_pct s = [100%Q] -> max_iter <> 1 ->
  exit_conditions 1 max_iter s = (Ret false, s).
Proof.
  destruct s as [op oc temps ar lg li cp]. simpl. intros -> Hm.
  unfold exit_conditions, py_index. store_cbv.
  destruct (Z.eqb_spec 1 max_iter); [congruence | reflexivity].
Qed.


Lemma exit_conditions_fields (i max_iter : Z) (s : Store) :
  let s' := snd (exit_conditions i max_iter s) in
  output_points s' = output_points s /\ output_centroids s' = output_centroids s /\
  TempTable s' = TempTable s /\ ArrayOfCentroids s' = ArrayOfCentroids s /\
  loop_i s' = loop_i s /\ change_pct s' = change_pct s.
Proof.
  destruct (exit_conditions_frame i max_iter s) as (H & _ & _).
  unfold locals_and_tables, tables in H. injection H as H1 H2 H3 H4 H5 H6.
  cbv zeta. repeat split; assumption.
Qed.

(** ** Facts about one pass *)

(** Whatever the outcome, a pass counts, and the log and the tracking
    variable only grow. *)
Lemma iteration_counts (k p_count max_iter : Z) (s : Store) :
  let r := iteration k p_count max_iter s in
  loop_i (snd r) = loop_i s + 1 /\
  output_points (snd r) = output_points s /\
  (exists l, log (snd r) = log s ++ MsgIteration (loop_i s + 1) :: l) /\
  fst r <> OutOfFuel.
Proof.
  pose proof (iteration_shape k p_count max_iter s) as Hs. cbv zeta in Hs.
  destruct (output_centroids s) as [cs|] eqn:Hcs;
    [destruct (temp_lookup (loop_i s + 1 - 1) (TempTable s)) as [prev|] eqn:Hprev;
     [destruct (k <? 0) eqn:Hk|]|].
  2:{ cbv zeta. rewrite Hs. clear Hs.
      assert (Hfin : forall s2 : Store,
                 loop_i s2 = loop_i s + 1 -> output_points s2 = output_points s ->
                 log s2 = log s ++ [MsgIteration (loop_i s + 1)] ->
                 let r := exit_conditions (loop_i s + 1) max_iter s2 in
                 loop_i (snd r) = loop_i s + 1 /\
                 output_points (snd r) = output_points s /\
                 (exists l, log (snd r) = log s ++ MsgIteration (loop_i s + 1) :: l) /\
                 fst r <> OutOfFuel).
      { intros s2 H1 H2 H3.
        destruct (exit_conditions_frame (loop_i s + 1) max_iter s2) as (_ & (l & Hl) & Ho).
        destruct (exit_conditions_fields (loop_i s + 1) max_iter s2)
          as (Hp & _ & _ & _ & Hi & _).
        cbv zeta. rewrite Hi, Hp, Hl, H1, H2, H3. repeat split.
        - exists l. rewrite <- app_assoc. reflexivity.
        - destruct Ho as [[d Hd]|Hd]; rewrite Hd; discriminate. }
      destruct (1 <? loop_i s + 1).
      - destruct (changed_sum _ _).
        + apply Hfin; reflexivity.
        + cbn [fst snd]. repeat split; try discriminate.
          exists []. reflexivity.
      - apply Hfin; reflexivity. }
  all: clear Hs; destruct s as [op oc temps ar lg li cp];
    cbn [output_centroids TempTable loop_i] in *; subst;
    unfold iteration, assign_step, update_step, measure_step, drop_TempTable,
      create_TempTable, check_limit; store_cbv;
    rewrite ?Hk, ?Hprev; store_cbv; split_cases; store_cbv; try congruence;
    (split; [reflexivity | split; [reflexivity | split; [exists []; reflexivity | discriminate]]]).
Qed.

(** What a pass that passed its SQL statements has done. *)
Lemma iteration_facts (k p_count max_iter : Z) (s : Store) :
  let r := iteration k p_count max_iter s in
  fst r <> Raise SqlError ->
  exists cs prev,
    output_centroids s = Some cs /\
    temp_lookup (loop_i s) (TempTable s) = Some prev /\
    0 <= k /\
    let i := loop_i s + 1 in
    let arr := centroid_array k cs in
    let cur := assign_rows arr prev in
    ArrayOfCentroids (snd r) = Some arr /\
    output_centroids (snd r) = Some (mean_positions cur) /\
    temp_lookup i (TempTable (snd r)) = Some cur /\
    ((1 < i /\ exists sum, changed_sum cur prev = Some sum /\
        change_pct (snd r) = change_pct s ++ [(sum / inject_Z p_count)%Q] /\
        exists s2, change_pct s2 = change_pct (snd r) /\
                   exit_conditions i max_iter s2 = r)
     \/ (1 < i /\ changed_sum cur prev = None /\ change_pct (snd r) = change_pct s /\
         fst r = Raise PyTypeError)
     \/ (i <= 1 /\ change_pct (snd r) = change_pct s /\
         exists s2, change_pct s2 = change_pct s /\ exit_conditions i max_iter s2 = r)).
Proof.
  pose proof (iteration_shape k p_count max_iter s) as Hs. cbv zeta in Hs.
  replace (loop_i s + 1 - 1) with (loop_i s) in Hs by lia.
  cbv zeta. intros Hne.
  destruct (output_centroids s) as [cs|]; [|contradiction].
  destruct (temp_lookup (loop_i s) (TempTable s)) as [prev|];
    [|destruct (k <? 0); contradiction].
  destruct (Z.ltb_spec k 0) as [Hk|Hk]; [contradiction|].
  exists cs, prev. repeat (split; [reflexivity || assumption|]).
  set (i := loop_i s + 1) in *.
  set (cur := assign_rows (centroid_array k cs) prev) in *.
  assert (Hlook : forall tt0 : list (Z * list PointRow),
             temp_lookup i (temp_drop (i - 1) ((i, cur) :: tt0)) = Some cur).
  { intros tt0. rewrite temp_lookup_drop_other by lia. apply temp_lookup_head. }
  assert (Hexit : forall s2 : Store,
             ArrayOfCentroids s2 = Some (centroid_array k cs) ->
             output_centroids s2 = Some (mean_positions cur) ->
             temp_lookup i (TempTable s2) = Some cur ->
             let r := exit_conditions i max_iter s2 in
             ArrayOfCentroids (snd r) = Some (centroid_array k cs) /\
             output_centroids (snd r) = Some (mean_positions cur) /\
             temp_lookup i (TempTable (snd r)) = Some cur /\
             change_pct (snd r) = change_pct s2).
  { intros s2 H1 H2 H3.
    destruct (exit_conditions_fields i max_iter s2) as (_ & Hc & Ht & Ha & _ & Hp).
    cbv zeta. rewrite Hc, Ht, Ha, Hp. auto. }
  rewrite Hs. clear Hs.
  destruct (Z.ltb_spec 1 i) as [Hi|Hi].
  - destruct (changed_sum cur prev) as [sum|].
    + match goal with |- context [exit_conditions i max_iter ?x] => set (s2 := x) end.
      destruct (Hexit s2) as (Ha & Hc & Ht & Hp);
        [reflexivity | reflexivity | apply Hlook |].
      repeat (split; [assumption|]).
      left. split; [assumption|]. exists sum. split; [reflexivity|].
      split; [rewrite Hp; reflexivity|].
      exists s2. split; [symmetry; exact Hp | reflexivity].
    + cbn [fst snd].
      split; [reflexivity|]. split; [reflexivity|]. split; [apply Hlook|].
      right. left. repeat split; assumption || reflexivity.
  - match goal with |- context [exit_conditions i max_iter ?x] => set (s2 := x) end.
    destruct (Hexit s2) as (Ha & Hc & Ht & Hp);
      [reflexivity | reflexivity | apply Hlook |].
    repeat (split; [assumption|]).
    right. right. split; [assumption|]. split; [rewrite Hp; reflexivity|].
    exists s2. split; reflexivity.
Qed.


(** ** Frames: what a computation leaves alone *)

Lemma keeps_bind {T A B} (f : Store -> T) (c : M A) (g : A -> M B) :
  keeps f c -> (forall a, keeps f (g a)) -> keeps f (bind c g).
Proof.
  intros Hc Hg s. unfold bind. specialize (Hc s).
  destruct (c s) as [[a|e|] s1]; cbn [snd] in *; try assumption.
  rewrite Hg. exact Hc.
Qed.

Lemma keeps_ret {T A} (f : Store -> T) (a : A) : keeps f (ret a).
Proof. intros s. reflexivity. Qed.

Lemma keeps_raise {T A} (f : Store -> T) (e : Exception) : keeps f (@raise _ A e).
Proof. intros s. reflexivity. Qed.

Lemma keeps_gets {T A} (f : Store -> T) (g : Store -> A) : keeps f (gets g).
Proof. intros s. reflexivity. Qed.

Lemma keeps_required {T A} (f : Store -> T) (o : option A) : keeps f (required o).
Proof. intros s. destruct o; reflexivity. Qed.

Lemma keeps_modify {T} (f : Store -> T) (g : Store -> Store) :
  (forall s, f (g s) = f s) -> keeps f (modify g).
Proof. intros H s. apply H. Qed.

Lemma keeps_py_index {T A} (f : Store -> T) (l : list A) (n : Z) : keeps f (py_index l n).
Proof. intros s. unfold py_index. split_cases; reflexivity. Qed.

Lemma keeps_check_limit {T} (f : Store -> T) (n : Z) : keeps f (check_limit n).
Proof. intros s. unfold check_limit. split_cases; reflexivity. Qed.

Lemma total_bind {A B} (c : M A) (g : A -> M B) :
  total c -> (forall a, total (g a)) -> total (bind c g).
Proof.
  intros Hc Hg s. unfold bind. specialize (Hc s).
  destruct (c s) as [[a|e|] s1]; cbn [fst] in *;
    [apply Hg | discriminate | congruence].
Qed.

Lemma total_ret {A} (a : A) : total (ret a).
Proof. intros s. discriminate. Qed.

Lemma total_raise {A} (e : Exception) : total (@raise _ A e).
Proof. intros s. discriminate. Qed.

Lemma total_gets {A} (g : Store -> A) : total (gets g).
Proof. intros s. discriminate. Qed.

Lemma total_modify (g : Store -> Store) : total (modify g).
Proof. intros s. discriminate. Qed.

Lemma total_required {A} (o : option A) : total (required o).
Proof. intros s. destruct o; discriminate. Qed.

Lemma total_py_index {A} (l : list A) (n : Z) : total (py_index l n).
Proof. intros s. unfold py_index. split_cases; discriminate. Qed.

Lemma total_check_limit (n : Z) : total (check_limit n).
Proof. intros s. unfold check_limit. split_cases; discriminate. Qed.

(** Steps through a computation built from the primitives above. *)
Ltac frame_step :=
  match goal with
  | |- keeps _ (bind _ _) => apply keeps_bind; [|intros]
  | |- keeps _ (ret _) => apply keeps_ret
  | |- keeps _ (raise _) => apply keeps_raise
  | |- keeps _ (plpy_error _) => apply keeps_raise
  | |- keeps _ (gets _) => apply keeps_gets
  | |- keeps _ (required _) => apply keeps_required
  | |- keeps _ (py_index _ _) => apply keeps_py_index
  | |- keeps _ (check_limit _) => apply keeps_check_limit
  | |- keeps _ (modify _) => apply keeps_modify; intros [? ? ? ? ? ? ?]; reflexivity
  | |- keeps _ (info _) => apply keeps_modify; intros [? ? ? ? ? ? ?]; reflexivity
  | |- keeps _ (match ?x with _ => _ end) => destruct x
  | |- keeps _ (let (_, _) := ?x in _) => destruct x
  | |- total (bind _ _) => apply total_bind; [|intros]
  | |- total (ret _) => apply total_ret
  | |- total (raise _) => apply total_raise
  | |- total (plpy_error _) => apply total_raise
  | |- total (gets _) => apply total_gets
  | |- total (required _) => apply total_required
  | |- total (py_index _ _) => apply total_py_index
  | |- total (check_limit _) => apply total_check_limit
  | |- total (modify _) => apply total_modify
  | |- total (info _) => apply total_modify
  | |- total (match ?x with _ => _ end) => destruct x
  | |- total (let (_, _) := ?x in _) => destruct x
  end.

Ltac frame := repeat frame_step.

Lemma keeps_tables_validate_input (cat : Catalog) (input_table : string) (k : Z) :
  keeps tables (validate_input cat input_table k).
Proof. unfold validate_input. frame. Qed.

Lemma keeps_change_pct_validate_input (cat : Catalog) (input_table : string) (k : Z) :
  keeps change_pct (validate_input cat input_table k).
Proof. unfold validate_input. frame. Qed.

Lemma total_validate_input (cat : Catalog) (input_table : string) (k : Z) :
  total (validate_input cat input_table k).
Proof. unfold validate_input. frame. Qed.

Lemma keeps_tables_validate_options (cat : Catalog) (g : Z) (r o : string) :
  keeps tables (validate_options cat g r o).
Proof. unfold validate_options. frame. Qed.

Lemma keeps_change_pct_validate_options (cat : Catalog) (g : Z) (r o : string) :
  keeps change_pct (validate_options cat g r o).
Proof. unfold validate_options. frame. Qed.

Lemma total_validate_options (cat : Catalog) (g : Z) (r o : string) :
  total (validate_options cat g r o).
Proof. unfold validate_options. frame. Qed.

Lemma total_insert_centroids (rows : list CentroidRow) : total (insert_centroids rows).
Proof. unfold insert_centroids. frame. Qed.

Lemma keeps_change_pct_insert_centroids (rows : list CentroidRow) :
  keeps change_pct (insert_centroids rows).
Proof. unfold insert_centroids. frame. Qed.

Lemma total_insert_points (rows : list PointRow) : total (insert_points rows).
Proof. unfold insert_points. frame. Qed.

Lemma keeps_change_pct_insert_points (rows : list PointRow) :
  keeps change_pct (insert_points rows).
Proof. unfold insert_points. frame. Qed.

Lemma total_iteration (k p_count max_iter : Z) : total (iteration k p_count max_iter).
Proof. intros s. apply iteration_counts. Qed.


(** ** The main loop *)

Lemma main_loop_step (fuel : nat) (k p_count max_iter : Z) (s : Store) :
  main_loop (S fuel) k p_count max_iter s =
    match iteration k p_count max_iter s with
    | (Ret true, s') => (Ret tt, s')
    | (Ret false, s') => main_loop fuel k p_count max_iter s'
    | (Raise e, s') => (Raise e, s')
    | (OutOfFuel, s') => (OutOfFuel, s')
    end.
Proof.
  cbn [main_loop]. unfold bind.
  destruct (iteration k p_count max_iter s) as [[[|]|e|] s']; reflexivity.
Qed.

(** An invariant [I] that holds at the head of every pass, and a property [F]
    of the outcomes that leave the loop. *)
Lemma main_loop_rule (k p_count max_iter : Z)
    (I : Store -> Prop) (F : Outcome unit -> Store -> Prop) :
  (forall s, I s ->
     match iteration k p_count max_iter s with
     | (Ret false, s') => I s'
     | (Ret true, s') => F (Ret tt) s'
     | (Raise e, s') => F (Raise e) s'
     | (OutOfFuel, _) => True
     end) ->
  forall fuel s, I s ->
    match main_loop fuel k p_count max_iter s with
    | (OutOfFuel, s') => I s'
    | (o, s') => F o s'
    end.
Proof.
  intros Hstep fuel. induction fuel as [|fuel IH]; intros s Hs.
  - exact Hs.
  - rewrite main_loop_step. specialize (Hstep s Hs).
    pose proof (total_iteration k p_count max_iter s) as Ht.
    destruct (iteration k p_count max_iter s) as [[[|]|e|] s'];
      cbn [fst] in Ht; try assumption; try congruence.
    apply IH. exact Hstep.
Qed.


Lemma iteration_not_done (k p_count max_iter : Z) (s s' : Store) :
  iteration k p_count max_iter s = (Ret false, s') -> loop_i s + 1 <> max_iter.
Proof.
  intros H Heq.
  pose proof (iteration_facts k p_count max_iter s) as Hf. cbv zeta in Hf.
  rewrite H in Hf. cbn [fst snd] in Hf.
  destruct Hf as (cs & prev & _ & _ & _ & _ & _ & _ & Hc); [discriminate|].
  rewrite Heq in Hc.
  destruct Hc as [(_ & sum & _ & _ & s2 & _ & He)
                 |[(_ & _ & _ & He)|(_ & _ & s2 & _ & He)]];
    try discriminate;
    pose proof (exit_conditions_at_bound max_iter s2) as Hb;
    rewrite He in Hb; apply Hb; reflexivity.
Qed.

Lemma main_loop_fuel (k p_count max_iter : Z) (fuel : nat) (s : Store) :
  loop_i s < max_iter ->
  (Z.to_nat (max_iter - loop_i s) <= fuel)%nat ->
  fst (main_loop fuel k p_count max_iter s) <> OutOfFuel.
Proof.
  revert s. induction fuel as [|fuel IH]; intros s Hlt Hfuel; [lia|].
  rewrite main_loop_step.
  pose proof (iteration_counts k p_count max_iter s) as (Hi & _ & _ & Ht).
  destruct (iteration k p_count max_iter s) as [[[|]|e|] s'] eqn:E;
    cbn [fst snd] in *; try discriminate; try congruence.
  pose proof (iteration_not_done _ _ _ _ _ E).
  apply IH; lia.
Qed.

Lemma main_loop_count (k p_count max_iter : Z) (fuel : nat) (s : Store) :
  loop_i s < max_iter ->
  let r := main_loop fuel k p_count max_iter s in
  loop_i s <= loop_i (snd r) <= max_iter /\
  (fst r <> OutOfFuel -> loop_i s < loop_i (snd r)).
Proof.
  intros Hlt.
  pose proof (main_loop_rule k p_count max_iter
                (fun s1 => loop_i s <= loop_i s1 < max_iter)
                (fun _ s1 => loop_i s < loop_i s1 <= max_iter)) as Hr.
  cbv zeta. cbv beta in Hr.
  specialize (fun H => Hr H fuel s).
  destruct (main_loop fuel k p_count max_iter s) as [o s'].
  cbn [fst snd].
  assert (Hres : match o with OutOfFuel => loop_i s <= loop_i s' < max_iter
                         | _ => loop_i s < loop_i s' <= max_iter end).
  { destruct o; apply Hr; try lia; clear Hr.
    all: intros s1 H1;
      pose proof (iteration_counts k p_count max_iter s1) as (Hi & _ & _ & Ht);
      destruct (iteration k p_count max_iter s1) as [[[|]|e1|] s1'] eqn:E;
      cbn [fst snd] in *; try lia;
      pose proof (iteration_not_done _ _ _ _ _ E); lia. }
  destruct o; split; try lia; intros; try lia; congruence.
Qed.

(** ** Seeding does not run out of fuel *)

Lemma total_seed_remaining (input : list Point) (k : Z) (fuel : nat) (i : Z) :
  (Z.to_nat (k - i) <= fuel)%nat -> total (seed_remaining fuel input k i).
Proof.
  revert i. induction fuel as [|fuel IH]; intros i Hf; cbn [seed_remaining].
  - destruct (Z.ltb_spec i k); [lia | apply total_ret].
  - destruct (Z.ltb_spec i k); [|apply total_ret].
    frame; try apply total_insert_centroids.
    apply IH. lia.
Qed.

Lemma total_kmeans_init (input : list Point) (k : Z) : total (__kmeans_init input k).
Proof.
  unfold __kmeans_init. frame; try apply total_insert_centroids.
  apply total_seed_remaining. lia.
Qed.

Lemma keeps_change_pct_seed_remaining (input : list Point) (k : Z) (fuel : nat) (i : Z) :
  keeps change_pct (seed_remaining fuel input k i).
Proof.
  revert i. induction fuel as [|fuel IH]; intros i; cbn [seed_remaining].
  - destruct (i <? k); [intros s; reflexivity | apply keeps_ret].
  - destruct (i <? k); [|apply keeps_ret].
    frame; try apply keeps_change_pct_insert_centroids. apply IH.
Qed.

Lemma keeps_change_pct_kmeans_init (input : list Point) (k : Z) :
  keeps change_pct (__kmeans_init input k).
Proof.
  unfold __kmeans_init. frame; try apply keeps_change_pct_insert_centroids.
  apply keeps_change_pct_seed_remaining.
Qed.

Lemma total_create_TempTable (n : Z) (rows : list PointRow) : total (create_TempTable n rows).
Proof. unfold create_TempTable. frame. Qed.

(** [bind] at one store. *)
Lemma bind_total_at {A B} (c : M A) (g : A -> M B) (s : Store) :
  fst (c s) <> OutOfFuel -> (forall a, total (g a)) -> fst (bind c g s) <> OutOfFuel.
Proof.
  intros Hc Hg. unfold bind.
  destruct (c s) as [[a|e|] s1]; cbn [fst] in *;
    [apply Hg | discriminate | congruence].
Qed.

Lemma total_cluster (fuel : nat) (max_iter : Z) (input : list Point) (k goodness : Z) :
  1 <= max_iter -> (Z.to_nat max_iter <= fuel)%nat ->
  total (cluster fuel max_iter input k goodness).
Proof.
  intros Hm Hf. unfold cluster.
  apply total_bind; [apply total_kmeans_init|]. intros c_count.
  apply total_bind; [frame|]. intros _.
  apply total_bind;
    [unfold prepare_working_set; frame; apply total_create_TempTable|].
  intros expand.
  intros s. unfold bind at 1. unfold modify at 1.
  apply bind_total_at.
  - apply main_loop_fuel; cbn; lia.
  - intros _. unfold write_output, goodness_test. frame; apply total_insert_points.
Qed.

Lemma total_kmeans_run_with (fuel : nat) (max_iter : Z) (cat : Catalog)
    (input_table : string) (k goodness : Z) (run_id output_schema : string) :
  1 <= max_iter -> (Z.to_nat max_iter <= fuel)%nat ->
  total (kmeans_run_with fuel max_iter cat input_table k goodness run_id output_schema).
Proof.
  intros Hm Hf. unfold kmeans_run_with.
  frame; [apply total_validate_input | apply total_validate_options
         | apply total_cluster; assumption].
Qed.

(** C6. The refinement loop halts for every input, within [max_iterations]
    passes: entered with its counter at 0 and fuel for [max_iter] passes it
    does not run out of fuel and leaves the counter between 1 and [max_iter];
    and [kmeans_run] as a whole, given fuel for 20 passes, does not run out of
    fuel, whatever the catalog, the arguments and the session. *)
Theorem refinement_loop_halts :
  forall (fuel : nat) (max_iter : Z),
    1 <= max_iter -> (Z.to_nat max_iter <= fuel)%nat ->
    (forall (k p_count : Z) (s : Store),
        loop_i s = 0 ->
        let r := main_loop fuel k p_count max_iter s in
        fst r <> OutOfFuel /\ 1 <= loop_i (snd r) <= max_iter) /\
    (forall (cat : Catalog) (input_table : string) (k goodness : Z)
            (run_id output_schema : string) (s : Store),
        fst (kmeans_run_with fuel max_iter cat input_table k goodness
               run_id output_schema s) <> OutOfFuel).
Proof.
  intros fuel max_iter Hm Hf. split.
  - intros k p_count s H0. cbv zeta.
    assert (Hfuel : fst (main_loop fuel k p_count max_iter s) <> OutOfFuel)
      by (apply main_loop_fuel; rewrite ?H0; lia).
    split; [exact Hfuel|].
    destruct (main_loop_count k p_count max_iter fuel s) as (Hb & Hgt); [lia|].
    specialize (Hgt Hfuel). lia.
  - intros. apply total_kmeans_run_with; assumption.
Qed.


(** ** The size of the counted change *)

Lemma Zsum_app (l1 l2 : list Z) : Zsum (l1 ++ l2) = Zsum l1 + Zsum l2.
Proof. induction l1 as [|x l1 IH]; simpl; [reflexivity | rewrite IH; lia]. Qed.

Lemma group_size_nonneg (rows : list PointRow) (c : Z) : 0 <= group_size rows c.
Proof. unfold group_size. lia. Qed.

Lemma indicator_sum (x : Z) (L : list Z) :
  NoDup L -> 0 <= Zsum (map (fun c => if x =? c then 1 else 0) L) <= 1.
Proof.
  induction L as [|c L IH]; simpl; intros Hnd; [lia|].
  inversion Hnd as [|? ? Hnotin Hnd']; subst.
  destruct (Z.eqb_spec x c) as [->|Hne].
  - assert (Hz : Zsum (map (fun c0 => if c =? c0 then 1 else 0) L) = 0).
    { clear IH Hnd Hnd'. induction L as [|d L IH]; simpl; [reflexivity|].
      destruct (Z.eqb_spec c d) as [->|Hd].
      - exfalso. apply Hnotin. left. reflexivity.
      - rewrite IH; [reflexivity|]. intros H. apply Hnotin. right. exact H. }
    rewrite Hz. lia.
  - specialize (IH Hnd'). lia.
Qed.

Lemma group_sizes_sum (rows : list PointRow) (L : list Z) :
  NoDup L ->
  0 <= Zsum (map (group_size rows) L) <= Z.of_nat (List.length rows).
Proof.
  intros Hnd. induction rows as [|r rows IH].
  - clear Hnd. unfold group_size. simpl. induction L; simpl; lia.
  - assert (Hsplit : Zsum (map (group_size (r :: rows)) L)
                     = Zsum (map (fun c => if p_cid r =? c then 1 else 0) L)
                       + Zsum (map (group_size rows) L)).
    { clear IH Hnd. induction L as [|c L IHL]; simpl; [reflexivity|].
      rewrite IHL. unfold group_size, members. simpl.
      destruct (p_cid r =? c); simpl List.length; lia. }
    rewrite Hsplit. pose proof (indicator_sum (p_cid r) L Hnd).
    simpl List.length. lia.
Qed.

Lemma join_on_key (c e1 : Z) (size : Z -> Z) (K : list Z) :
  NoDup K -> 0 <= e1 -> (forall x, 0 <= size x) ->
  0 <= Zsum (flat_map (fun t2 : Z * Z =>
                         if c =? fst t2 then [Z.abs (e1 - snd t2)] else [])
               (map (fun x => (x, size x)) K))
    <= e1 + size c.
Proof.
  intros Hnd He Hs. induction K as [|x K IH]; simpl.
  - specialize (Hs c). lia.
  - inversion Hnd as [|? ? Hnotin Hnd']; subst.
    destruct (Z.eqb_spec c x) as [->|Hne].
    + assert (Hz : flat_map (fun t2 : Z * Z =>
                               if x =? fst t2 then [Z.abs (e1 - snd t2)] else [])
                     (map (fun y => (y, size y)) K) = []).
      { clear IH Hnd Hnd'. induction K as [|d K IHK]; simpl; [reflexivity|].
        destruct (Z.eqb_spec x d) as [->|Hd].
        - exfalso. apply Hnotin. left. reflexivity.
        - apply IHK. intros H. apply Hnotin. right. exact H. }
      rewrite Hz. simpl. specialize (Hs x). lia.
    + apply IH. exact Hnd'.
Qed.

Lemma cluster_counts_shape (rows : list PointRow) :
  cluster_counts rows
  = map (fun c => (c, group_size rows c)) (group_keys (map p_cid rows)).
Proof. reflexivity. Qed.

Lemma count_changes_bound (cur prev : list PointRow) :
  0 <= Zsum (count_changes cur prev)
    <= Z.of_nat (List.length cur) + Z.of_nat (List.length prev).
Proof.
  unfold count_changes. rewrite !cluster_counts_shape.
  pose proof (group_keys_NoDup (map p_cid prev)) as Hp.
  pose proof (group_keys_NoDup (map p_cid cur)) as Hc.
  set (Kp := group_keys (map p_cid prev)) in *.
  pose proof (group_sizes_sum cur _ Hc) as Hcur.
  pose proof (group_sizes_sum prev _ Hc) as Hprev.
  set (Kc := group_keys (map p_cid cur)) in *. clearbody Kc Kp.
  assert (H : 0 <= Zsum (flat_map
                 (fun t1 : Z * Z =>
                    flat_map (fun t2 : Z * Z =>
                                if fst t1 =? fst t2 then [Z.abs (snd t1 - snd t2)] else [])
                      (map (fun c => (c, group_size prev c)) Kp))
                 (map (fun c => (c, group_size cur c)) Kc))
              <= Zsum (map (group_size cur) Kc) + Zsum (map (group_size prev) Kc)).
  { clear Hcur Hprev Hc. induction Kc as [|c Kc IH]; simpl; [lia|].
    rewrite Zsum_app.
    pose proof (join_on_key c (group_size cur c) (group_size prev) Kp Hp
                  (group_size_nonneg cur c) (group_size_nonneg prev)).
    lia. }
  lia.
Qed.

Lemma fold_left_Qplus (l : list Z) (a : Q) :
  (fold_left Qplus (map inject_Z l) a == a + inject_Z (Zsum l))%Q.
Proof.
  revert a. induction l as [|x l IH]; intros a; simpl.
  - unfold Zsum. simpl. ring.
  - rewrite IH. unfold Zsum. simpl. fold (Zsum l). rewrite inject_Z_plus. ring.
Qed.

Lemma changed_sum_value (cur prev : list PointRow) (q : Q) :
  changed_sum cur prev = Some q ->
  (q == inject_Z (Zsum (count_changes cur prev)))%Q.
Proof.
  unfold changed_sum, sql_sum. intros H.
  destruct (count_changes cur prev) as [|z zs]; [discriminate|].
  assert (Hq : q = fold_left Qplus (map inject_Z (z :: zs)) 0%Q)
    by (cbn [map] in *; congruence).
  rewrite Hq, fold_left_Qplus. ring.
Qed.

Lemma fraction_bound (z p : Z) :
  0 <= z <= 2 * p -> (0 <= inject_Z z / inject_Z p <= 2)%Q.
Proof.
  intros Hz. destruct (Z.eq_dec p 0) as [->|Hp].
  - assert (z = 0) by lia. subst. split; vm_compute; discriminate.
  - assert (Hpos : (0 < inject_Z p)%Q).
    { change 0%Q with (inject_Z 0). rewrite <- Zlt_Qlt. lia. }
    split.
    + apply Qle_shift_div_l; [exact Hpos|]. rewrite Qmult_0_l.
      change 0%Q with (inject_Z 0). rewrite <- Zle_Qle. lia.
    + apply Qle_shift_div_r; [exact Hpos|].
      change 2%Q with (inject_Z 2). rewrite <- inject_Z_mult, <- Zle_Qle. lia.
Qed.

Lemma changed_fraction_bound (cur prev : list PointRow) (q : Q) (p_count : Z) :
  changed_sum cur prev = Some q ->
  List.length cur = List.length prev ->
  Z.of_nat (List.length prev) <= p_count ->
  (0 <= q / inject_Z p_count <= 2)%Q.
Proof.
  intros Hq Hlen Hp. apply changed_sum_value in Hq.
  pose proof (count_changes_bound cur prev) as Hb. rewrite Hlen in Hb.
  assert (H := fraction_bound (Zsum (count_changes cur prev)) p_count).
  unfold Qdiv in *. rewrite Hq. apply H. lia.
Qed.


(** ** The working set through the loop *)

Lemma assign_rows_points (arr : list (option Position)) (rows : list PointRow) :
  assign_rows arr rows = assign_points arr (points_of rows).
Proof.
  unfold assign_rows, assign_points, points_of. rewrite map_map. reflexivity.
Qed.

Lemma points_of_assign (arr : list (option Position)) (ws : list Point) :
  points_of (assign_points arr ws) = ws.
Proof.
  unfold points_of, assign_points.
  induction ws as [|[n x] ws IH]; simpl; [reflexivity | f_equal; exact IH].
Qed.

Lemma points_of_unassigned (ws : list Point) : points_of (map unassigned ws) = ws.
Proof.
  unfold points_of.
  induction ws as [|[n x] ws IH]; simpl; [reflexivity | f_equal; exact IH].
Qed.

Lemma points_of_length (rows : list PointRow) :
  List.length (points_of rows) = List.length rows.
Proof. apply length_map. Qed.

Lemma bounded_growth_refl (cp : list Q) : bounded_growth cp cp.
Proof. exists []. split; [symmetry; apply app_nil_r | constructor]. Qed.

Lemma bounded_growth_snoc (cp0 cp : list Q) (m : Q) :
  bounded_growth cp0 cp -> (0 <= m <= 2)%Q -> bounded_growth cp0 (cp ++ [m]).
Proof.
  intros (ms & -> & Hms) Hm. exists (ms ++ [m]). split.
  - symmetry. apply app_assoc.
  - apply Forall_app. split; [exact Hms | constructor; [exact Hm | constructor]].
Qed.

(** A pass stopped by an SQL error has not touched the tracking variable. *)
Lemma iteration_sql_error (k p_count max_iter : Z) (s : Store) :
  let r := iteration k p_count max_iter s in
  fst r = Raise SqlError -> change_pct (snd r) = change_pct s.
Proof.
  pose proof (iteration_shape k p_count max_iter s) as Hs. cbv zeta in Hs.
  destruct (output_centroids s) as [cs|] eqn:Hcs;
    [destruct (temp_lookup (loop_i s + 1 - 1) (TempTable s)) as [prev|] eqn:Hprev;
     [destruct (k <? 0) eqn:Hk|]|].
  2:{ cbv zeta. rewrite Hs. clear Hs.
      assert (Hfin : forall s2 : Store,
                 fst (exit_conditions (loop_i s + 1) max_iter s2) <> Raise SqlError).
      { intros s2.
        destruct (exit_conditions_frame (loop_i s + 1) max_iter s2) as (_ & _ & Ho).
        destruct Ho as [[d Hd]|Hd]; rewrite Hd; discriminate. }
      destruct (1 <? loop_i s + 1).
      - destruct (changed_sum _ _).
        + intros H. exfalso. exact (Hfin _ H).
        + cbn [fst snd]. discriminate.
      - intros H. exfalso. exact (Hfin _ H). }
  all: clear Hs; destruct s as [op oc temps ar lg li cp];
    cbn [output_centroids TempTable loop_i] in *; subst;
    unfold iteration, assign_step, update_step, measure_step, drop_TempTable,
      create_TempTable, check_limit; store_cbv;
    rewrite ?Hk, ?Hprev; store_cbv; split_cases; store_cbv; try congruence;
    reflexivity.
Qed.

(** The tracking variable grows by values between 0 and 2 as long as the
    table the pass reads holds no more rows than [p_count]. *)
Lemma main_loop_bounded_growth (k p_count max_iter : Z) (fuel : nat) (s : Store) :
  (forall rows, temp_lookup (loop_i s) (TempTable s) = Some rows ->
                Z.of_nat (List.length rows) <= p_count) ->
  bounded_growth (change_pct s)
    (change_pct (snd (main_loop fuel k p_count max_iter s))).
Proof.
  intros Hrows.
  pose proof (main_loop_rule k p_count max_iter
    (fun s1 => bounded_growth (change_pct s) (change_pct s1) /\
               forall rows, temp_lookup (loop_i s1) (TempTable s1) = Some rows ->
                            Z.of_nat (List.length rows) <= p_count)
    (fun _ s1 => bounded_growth (change_pct s) (change_pct s1))) as Hr.
  cbv beta in Hr.
  assert (Hstep : forall s1,
    bounded_growth (change_pct s) (change_pct s1) /\
    (forall rows, temp_lookup (loop_i s1) (TempTable s1) = Some rows ->
                  Z.of_nat (List.length rows) <= p_count) ->
    let r := iteration k p_count max_iter s1 in
    bounded_growth (change_pct s) (change_pct (snd r)) /\
    (fst r = Ret false ->
     forall rows, temp_lookup (loop_i (snd r)) (TempTable (snd r)) = Some rows ->
                  Z.of_nat (List.length rows) <= p_count)).
  { intros s1 (Hg & Hl). cbv zeta.
    pose proof (iteration_sql_error k p_count max_iter s1) as Hsql.
    pose proof (iteration_facts k p_count max_iter s1) as Hf.
    pose proof (iteration_counts k p_count max_iter s1) as (Hi & _).
    cbv zeta in Hsql, Hf.
    destruct (iteration k p_count max_iter s1) as [o s1'] eqn:E. cbn [fst snd] in *.
    assert (Hdec : o = Raise SqlError \/ o <> Raise SqlError).
    { destruct o as [d|[]|]; (left; reflexivity) || (right; discriminate). }
    destruct Hdec as [->|Hne].
    - rewrite Hsql by reflexivity. split; [exact Hg | discriminate].
    - destruct (Hf Hne) as (cs & prev & _ & Hprev & _ & _ & _ & Hcur & Hcp).
      specialize (Hl prev Hprev).
      split.
      + destruct Hcp as [(_ & sum & Hsum & -> & _)|[(_ & _ & -> & _)|(_ & -> & _)]];
          try exact Hg.
        apply bounded_growth_snoc; [exact Hg|].
        eapply changed_fraction_bound; [exact Hsum | apply assign_rows_length | exact Hl].
      + intros _ rows Hrows'. rewrite Hi in Hrows'.
        rewrite Hcur in Hrows'. injection Hrows' as <-.
        rewrite assign_rows_length. exact Hl. }
  specialize (fun H => Hr H fuel s).
  destruct (main_loop fuel k p_count max_iter s) as [o s'] eqn:E. cbn [snd].
  assert (Hres : match o with
                 | OutOfFuel => bounded_growth (change_pct s) (change_pct s') /\
                     (forall rows, temp_lookup (loop_i s') (TempTable s') = Some rows ->
                                   Z.of_nat (List.length rows) <= p_count)
                 | _ => bounded_growth (change_pct s) (change_pct s') end).
  { destruct o; apply Hr; try (split; [apply bounded_growth_refl | exact Hrows]);
      intros s1 H1; specialize (Hstep s1 H1); cbv zeta in Hstep;
      destruct (iteration k p_count max_iter s1) as [[[|]|e1|] s1'];
      cbn [fst snd] in Hstep; try tauto; split; tauto. }
  destruct o; tauto.
Qed.


(** ** The tracking variable through a run *)

Lemma bind_snd_keeps {A B T} (f : Store -> T) (c : M A) (g : A -> M B) (s : Store) :
  (forall a, keeps f (g a)) -> f (snd (bind c g s)) = f (snd (c s)).
Proof.
  intros Hg. unfold bind. destruct (c s) as [[a|e|] s1]; cbn [snd]; [apply Hg | | ];
    reflexivity.
Qed.

Lemma bind_after_keeps {A B} (c : M A) (g : A -> M B) (s : Store) (P : list Q -> Prop) :
  keeps change_pct c -> P (change_pct s) ->
  (forall a s1, c s = (Ret a, s1) -> P (change_pct (snd (g a s1)))) ->
  P (change_pct (snd (bind c g s))).
Proof.
  intros Hc Hs Hg. unfold bind. specialize (Hc s).
  destruct (c s) as [[a|e|] s1] eqn:E; cbn [snd] in *;
    [apply (Hg a s1); reflexivity | rewrite Hc; exact Hs | rewrite Hc; exact Hs].
Qed.

Lemma bind_ret_inv {A B} (c : M A) (g : A -> M B) (s s' : Store) (b : B) :
  bind c g s = (Ret b, s') ->
  exists a s1, c s = (Ret a, s1) /\ g a s1 = (Ret b, s').
Proof.
  unfold bind. destruct (c s) as [[a|e|] s1]; intros H; try discriminate.
  exists a, s1. split; [reflexivity | exact H].
Qed.

Lemma keeps_change_pct_create_TempTable (n : Z) (rows : list PointRow) :
  keeps change_pct (create_TempTable n rows).
Proof. unfold create_TempTable. frame. Qed.

Lemma keeps_change_pct_prepare (input : list Point) (k : Z) :
  keeps change_pct (prepare_working_set input k).
Proof.
  unfold prepare_working_set. frame; apply keeps_change_pct_create_TempTable.
Qed.

Lemma keeps_change_pct_write_output (expand : bool) (input : list Point) :
  keeps change_pct (write_output expand input).
Proof. unfold write_output. frame; apply keeps_change_pct_insert_points. Qed.

Lemma keeps_change_pct_goodness_test (goodness : Z) :
  keeps change_pct (goodness_test goodness).
Proof. unfold goodness_test. frame. Qed.

Lemma limit_length {A} (n : Z) (l : list A) :
  0 <= n -> Z.of_nat (List.length (limit n l)) <= n.
Proof.
  intros Hn. unfold limit. rewrite length_firstn. lia.
Qed.

Lemma working_set_length (input : list Point) (k : Z) :
  0 <= sample_size_of k \/ sampled input k = false ->
  Z.of_nat (List.length (working_set input k)) <= Z.of_nat (List.length input).
Proof.
  unfold working_set, sampled. intros H.
  destruct ((sampling =? 1) && (sample_size_of k <? Z.of_nat (List.length input))) eqn:E;
    [|lia].
  destruct H as [H|H]; [|discriminate].
  apply andb_true_iff in E. destruct E as [_ E]. apply Z.ltb_lt in E.
  pose proof (limit_length (sample_size_of k) (sample_order input) H). lia.
Qed.

(** What [prepare_working_set] returns and leaves behind. *)
Lemma prepare_ret (input : list Point) (k : Z) (s s' : Store) (expand : bool) :
  prepare_working_set input k s = (Ret expand, s') ->
  expand = sampled input k /\
  (0 <= sample_size_of k \/ sampled input k = false) /\
  TempTable s' = (0, map unassigned (working_set input k)) :: temp_drop 0 (TempTable s) /\
  output_points s' = output_points s /\
  output_centroids s' = output_centroids s /\
  change_pct s' = change_pct s.
Proof.
  destruct s as [op oc temps ar lg li cp].
  unfold prepare_working_set, working_set, sampled, create_TempTable, check_limit.
  destruct ((sampling =? 1) && (sample_size_of k <? Z.of_nat (List.length input))).
  - store_cbv. destruct (Z.ltb_spec (sample_size_of k) 0) as [Hneg|Hpos]; store_cbv;
      intros E; inversion E; subst; cbn.
    repeat split. left. assumption.
  - store_cbv. intros E; inversion E; subst; cbn. repeat split. right. reflexivity.
Qed.

Lemma cluster_bounded_growth (fuel : nat) (max_iter : Z) (input : list Point)
    (k goodness : Z) (s : Store) :
  bounded_growth (change_pct s)
    (change_pct (snd (cluster fuel max_iter input k goodness s))).
Proof.
  unfold cluster.
  apply bind_after_keeps;
    [apply keeps_change_pct_kmeans_init | apply bounded_growth_refl |].
  intros c_count s1 E1.
  pose proof (keeps_change_pct_kmeans_init input k s) as K1. rewrite E1 in K1.
  cbn [snd] in K1. rewrite <- K1.
  apply bind_after_keeps; [frame | apply bounded_growth_refl |].
  intros [] s2 E2.
  assert (s2 = s1) by (destruct (negb (c_count =? k)); inversion E2; reflexivity).
  subst s2.
  apply bind_after_keeps;
    [apply keeps_change_pct_prepare | apply bounded_growth_refl |].
  intros expand s3 E3.
  apply prepare_ret in E3. destruct E3 as (_ & Hss & Ht & _ & _ & Hcp).
  rewrite <- Hcp.
  unfold bind at 1. unfold modify at 1.
  rewrite bind_snd_keeps.
  2:{ intros _. frame;
        try apply keeps_change_pct_write_output;
        try apply keeps_change_pct_goodness_test. }
  change (change_pct s3) with (change_pct (with_loop_i 0 s3)).
  apply main_loop_bounded_growth.
  intros rows. unfold with_loop_i. cbn [loop_i TempTable].
  rewrite Ht, temp_lookup_head. intros H. injection H as <-.
  rewrite length_map. apply working_set_length. exact Hss.
Qed.

(** C7 (amended). Every change fraction a run computes lies between 0 and 2:
    whatever the outcome of [kmeans_run], its tracking variable ends as the
    initial 100.0 followed by values in the closed interval from 0 to 2. *)
Theorem change_fractions_within_two :
  forall (fuel : nat) (max_iter : Z) (cat : Catalog) (input_table : string)
         (k goodness : Z) (run_id output_schema : string) (s : Store),
    exists ms,
      change_pct (snd (kmeans_run_with fuel max_iter cat input_table k goodness
                         run_id output_schema s)) = 100%Q :: ms /\
      Forall (fun m => 0 <= m <= 2)%Q ms.
Proof.
  intros. unfold kmeans_run_with.
  unfold bind at 1. unfold modify at 1.
  set (s0 := with_change_pct [100%Q] s).
  change (100%Q :: ?ms) with ([100%Q] ++ ms).
  change [100%Q] with (change_pct s0).
  apply (bind_after_keeps _ _ s0 (bounded_growth (change_pct s0)));
    [apply keeps_change_pct_validate_input | apply bounded_growth_refl |].
  intros input s1 E1.
  pose proof (keeps_change_pct_validate_input cat input_table k s0) as K1.
  rewrite E1 in K1. cbn [snd] in K1. rewrite <- K1.
  apply bind_after_keeps;
    [apply keeps_change_pct_validate_options | apply bounded_growth_refl |].
  intros [] s2 E2.
  pose proof (keeps_change_pct_validate_options cat goodness run_id output_schema s1) as K2.
  rewrite E2 in K2. cbn [snd] in K2. rewrite <- K2.
  apply cluster_bounded_growth.
Qed.


(** ** Validation *)

Lemma validate_input_rejects (cat : Catalog) (input_table : string) (k : Z) (s : Store) :
  k <= 0 \/
  (exists a b rel,
      split "."%char input_table = [a; b] /\
      relations cat a b = Some rel /\
      Z.of_nat (List.length (rel_rows rel)) <= k) ->
  let r := validate_input cat input_table k s in
  exists e l,
    fst r = Raise (Plpy e) /\
    (k <= 0 -> e = ErrK k) /\
    log (snd r) = log s ++ l /\
    Forall (validation_msg input_table k) l.
Proof.
  intros H. destruct s as [op oc temps ar lg li cp].
  unfold validate_input, validation_msg. store_cbv.
  destruct (Z.ltb_spec 0 k) as [Hk|Hk]; cbn [negb].
  - destruct H as [H|(a & b & rel & Hsplit & Hrel & Hlen)]; [lia|].
    rewrite Hsplit. store_cbv. rewrite Hrel.
    destruct (existsb (String.eqb "pid") (rel_columns rel));
      [destruct (existsb (String.eqb "position") (rel_columns rel));
       [destruct (Z.eqb_spec (Z.of_nat (List.length (rel_rows rel))) 0);
        [|destruct (Z.leb_spec (Z.of_nat (List.length (rel_rows rel))) k); [|lia]]|]|];
      store_cbv; eexists; eexists;
      (split; [reflexivity | split; [intros; lia | split; [
         first [ rewrite <- !app_assoc; reflexivity | reflexivity ] |]]]);
      repeat (first [apply Forall_nil | apply Forall_cons]); auto.
  - exists (ErrK k), [MsgParameters]. split; [reflexivity|]. split; [reflexivity|].
    split; [reflexivity|]. repeat (first [apply Forall_nil | apply Forall_cons]); auto.
Qed.

Lemma kmeans_run_with_unfold (fuel : nat) (max_iter : Z) (cat : Catalog)
    (input_table : string) (k goodness : Z) (run_id output_schema : string) (s : Store) :
  kmeans_run_with fuel max_iter cat input_table k goodness run_id output_schema s
  = bind (validate_input cat input_table k)
      (fun input =>
         bind (validate_options cat goodness run_id output_schema)
           (fun _ => cluster fuel max_iter input k goodness))
      (with_change_pct [100%Q] s).
Proof. reflexivity. Qed.

(** C8. Parameter validation is fail-fast: a call with k not positive, or
    with an input relation that is empty or holds no more than k points,
    raises a [plpy.error] of the validation block ([ErrK] when k is not
    positive); the relations of the session are as they were, and nothing
    was logged but validation messages, so seeding has not begun. *)
Theorem validation_fails_fast :
  forall (fuel : nat) (max_iter : Z) (cat : Catalog) (input_table : string)
         (k goodness : Z) (run_id output_schema : string) (s : Store),
    (k <= 0 \/
     exists a b rel,
       split "."%char input_table = [a; b] /\
       relations cat a b = Some rel /\
       Z.of_nat (List.length (rel_rows rel)) <= k) ->
    let r := kmeans_run_with fuel max_iter cat input_table k goodness
               run_id output_schema s in
    exists e l,
      fst r = Raise (Plpy e) /\
      (k <= 0 -> e = ErrK k) /\
      tables (snd r) = tables s /\
      log (snd r) = log s ++ l /\
      Forall (validation_msg input_table k) l.
Proof.
  intros fuel max_iter cat input_table k goodness run_id output_schema s H.
  rewrite kmeans_run_with_unfold.
  set (s0 := with_change_pct [100%Q] s).
  pose proof (validate_input_rejects cat input_table k s0 H) as (e & l & He & Hk & Hl & Hf).
  pose proof (keeps_tables_validate_input cat input_table k s0) as Ht.
  unfold bind at 1.
  destruct (validate_input cat input_table k s0) as [o s1]. cbn [fst snd] in *.
  subst o. cbv zeta. cbn [fst snd].
  exists e, l.
  split; [reflexivity|]. split; [exact Hk|]. split; [exact Ht|].
  split; [exact Hl | exact Hf].
Qed.


(** ** What a completed run has done *)

Lemma main_loop_grows (k p_count max_iter : Z) (fuel : nat) (s : Store) :
  let r := main_loop fuel k p_count max_iter s in
  loop_i s <= loop_i (snd r) /\ exists l, log (snd r) = log s ++ l.
Proof.
  pose proof (main_loop_rule k p_count max_iter
    (fun s1 => loop_i s <= loop_i s1 /\ exists l, log s1 = log s ++ l)
    (fun _ s1 => loop_i s <= loop_i s1 /\ exists l, log s1 = log s ++ l)) as Hr.
  cbv beta in Hr. cbv zeta.
  specialize (fun H => Hr H fuel s).
  destruct (main_loop fuel k p_count max_iter s) as [o s']. cbn [snd].
  assert (Hres : match o with
                 | OutOfFuel | _ => loop_i s <= loop_i s' /\ exists l, log s' = log s ++ l
                 end).
  { destruct o; apply Hr;
      try (split; [lia | exists []; symmetry; apply app_nil_r]);
      intros s1 (H1 & l1 & Hl1);
      pose proof (iteration_counts k p_count max_iter s1) as (Hi & _ & (l2 & Hl2) & _);
      destruct (iteration k p_count max_iter s1) as [[[|]|e1|] s1'];
      cbn [fst snd] in *; try exact I;
      (split; [lia | rewrite Hl2, Hl1, <- app_assoc; eexists; reflexivity]). }
  destruct o; exact Hres.
Qed.

Lemma main_loop_done (k p_count max_iter : Z) (fuel : nat) (s s' : Store)
    (ws : list Point) :
  (exists rows, temp_lookup (loop_i s) (TempTable s) = Some rows /\ points_of rows = ws) ->
  main_loop fuel k p_count max_iter s = (Ret tt, s') ->
  exists cs_prev,
    let arr := centroid_array k cs_prev in
    0 <= k /\
    ArrayOfCentroids s' = Some arr /\
    temp_lookup (loop_i s') (TempTable s') = Some (assign_points arr ws) /\
    output_centroids s' = Some (mean_positions (assign_points arr ws)) /\
    output_points s' = output_points s.
Proof.
  intros Hinv Hrun.
  pose proof (main_loop_rule k p_count max_iter
    (fun s1 => (exists rows, temp_lookup (loop_i s1) (TempTable s1) = Some rows /\
                             points_of rows = ws) /\
               output_points s1 = output_points s)
    (fun o s1 => o = Ret tt ->
       exists cs_prev,
         0 <= k /\
         ArrayOfCentroids s1 = Some (centroid_array k cs_prev) /\
         temp_lookup (loop_i s1) (TempTable s1)
           = Some (assign_points (centroid_array k cs_prev) ws) /\
         output_centroids s1
           = Some (mean_positions (assign_points (centroid_array k cs_prev) ws)) /\
         output_points s1 = output_points s)) as Hr.
  cbv beta in Hr.
  specialize (fun H => Hr H fuel s (conj Hinv eq_refl)).
  rewrite Hrun in Hr. apply Hr; [|reflexivity]. clear Hr Hrun Hinv.
  intros s1 ((rows & Hrows & Hws) & Hop).
  pose proof (iteration_facts k p_count max_iter s1) as Hf.
  pose proof (iteration_counts k p_count max_iter s1) as (Hi & Hop' & _ & _).
  cbv zeta in Hf.
  destruct (iteration k p_count max_iter s1) as [o s1'] eqn:E. cbn [fst snd] in *.
  assert (Hgood : forall d, o = Ret d ->
            exists cs_prev,
              0 <= k /\
              ArrayOfCentroids s1' = Some (centroid_array k cs_prev) /\
              temp_lookup (loop_i s1') (TempTable s1')
                = Some (assign_points (centroid_array k cs_prev) ws) /\
              output_centroids s1'
                = Some (mean_positions (assign_points (centroid_array k cs_prev) ws)) /\
              output_points s1' = output_points s).
  { intros d ->.
    destruct Hf as (cs & prev & _ & Hprev & Hk & Ha & Hc & Ht & _); [discriminate|].
    rewrite Hrows in Hprev. injection Hprev as <-.
    rewrite assign_rows_points, Hws in *.
    exists cs. rewrite Hi. repeat split; try assumption. congruence. }
  destruct o as [[|]|e|].
  - intros _. apply (Hgood true). reflexivity.
  - destruct (Hgood false eq_refl) as (cs & _ & _ & Ht & _ & Hp).
    split; [|exact Hp]. eexists. split; [exact Ht | apply points_of_assign].
  - discriminate.
  - exact I.
Qed.

Lemma main_loop_two_passes (k p_count max_iter : Z) (fuel : nat) (s s' : Store) :
  loop_i s = 0 -> change_pct s = [100%Q] -> max_iter <> 1 ->
  main_loop fuel k p_count max_iter s = (Ret tt, s') ->
  2 <= loop_i s' /\ exists l1 l2, log s' = log s ++ l1 ++ MsgIteration 2 :: l2.
Proof.
  intros H0 Hcp Hm Hrun.
  destruct fuel as [|fuel]; [discriminate|].
  rewrite main_loop_step in Hrun.
  pose proof (iteration_facts k p_count max_iter s) as Hf.
  pose proof (iteration_counts k p_count max_iter s) as (Hi & _ & (l1 & Hl1) & _).
  cbv zeta in Hf. rewrite H0 in *.
  destruct (iteration k p_count max_iter s) as [o s1] eqn:E. cbn [fst snd] in *.
  assert (Ho : o = Ret false).
  { destruct o as [d|e|]; try discriminate.
    destruct Hf as (cs & prev & _ & _ & _ & _ & _ & _ & Hc); [discriminate|].
    destruct Hc as [(Hlt & _)|[(Hlt & _)|(_ & _ & s2 & Hs2 & He)]]; try lia.
    rewrite exit_conditions_first in He by congruence.
    congruence. }
  subst o.
  destruct fuel as [|fuel]; [discriminate|].
  rewrite main_loop_step in Hrun.
  pose proof (iteration_counts k p_count max_iter s1) as (Hi2 & _ & (l2 & Hl2) & _).
  rewrite Hi in Hl2. change (0 + 1 + 1) with 2 in Hl2.
  destruct (iteration k p_count max_iter s1) as [[[|]|e|] s2] eqn:E2;
    cbn [fst snd] in *; try discriminate.
  - injection Hrun as <-. split; [lia|].
    exists (MsgIteration (0 + 1) :: l1), l2. rewrite Hl2, Hl1, <- app_assoc. reflexivity.
  - pose proof (main_loop_grows k p_count max_iter fuel s2) as (Hg & l3 & Hl3).
    cbv zeta in *. rewrite Hrun in *. cbn [snd] in *. split; [lia|].
    exists (MsgIteration (0 + 1) :: l1), (l2 ++ l3).
    rewrite Hl3, Hl2, Hl1, <- !app_assoc. reflexivity.
Qed.

Lemma write_output_ret (expand : bool) (input : list Point) (s s' : Store) :
  write_output expand input s = (Ret tt, s') ->
  exists ps rows,
    output_points s = Some ps /\
    (if expand
     then exists arr, ArrayOfCentroids s = Some arr /\ rows = assign_points arr input
     else temp_lookup (loop_i s) (TempTable s) = Some rows) /\
    output_points s' = Some (ps ++ rows) /\
    output_centroids s' = output_centroids s /\
    TempTable s' = TempTable s /\
    ArrayOfCentroids s' = ArrayOfCentroids s /\
    loop_i s' = loop_i s /\
    log s' = log s ++ [if expand then MsgExpanding else MsgWritingOutput].
Proof.
  destruct s as [op oc temps ar lg li cp].
  unfold write_output, insert_points. store_cbv.
  destruct expand; split_cases; store_cbv; intros E; inversion E; subst;
    eexists; eexists; cbn; repeat split; eauto.
Qed.

Lemma goodness_test_ret (goodness : Z) (s s' : Store) (g : Gfit) :
  goodness_test goodness s = (Ret g, s') ->
  locals_and_tables s' = locals_and_tables s /\
  ((goodness = 1 /\ log s' = log s ++ [MsgGoodnessOfFit] /\
    exists ps cs, output_points s = Some ps /\ output_centroids s = Some cs /\
                  g = Computed (goodness_of_fit ps cs))
   \/ (goodness <> 1 /\ log s' = log s /\ g = NotComputed)).
Proof.
  destruct s as [op oc temps ar lg li cp].
  unfold goodness_test. store_cbv.
  destruct (Z.eqb_spec goodness 1); split_cases; store_cbv;
    intros E; inversion E; subst; (split; [reflexivity|]).
  - left. repeat split. eauto.
  - right. repeat split. assumption.
Qed.


Lemma keeps_output_points_insert_centroids (rows : list CentroidRow) :
  keeps output_points (insert_centroids rows).
Proof. unfold insert_centroids. frame. Qed.

Lemma keeps_output_points_seed_remaining (input : list Point) (k : Z) (fuel : nat) (i : Z) :
  keeps output_points (seed_remaining fuel input k i).
Proof.
  revert i. induction fuel as [|fuel IH]; intros i; cbn [seed_remaining].
  - destruct (i <? k); [intros s; reflexivity | apply keeps_ret].
  - destruct (i <? k); [|apply keeps_ret].
    frame; try apply keeps_output_points_insert_centroids. apply IH.
Qed.

Lemma kmeans_init_output_points (input : list Point) (k : Z) (s : Store) :
  output_points (snd (__kmeans_init input k s)) = Some [].
Proof.
  unfold __kmeans_init. unfold bind at 1. unfold modify at 1.
  match goal with |- output_points (snd (?c ?s0)) = _ =>
    assert (K : keeps output_points c) end.
  { frame; try apply keeps_output_points_insert_centroids.
    apply keeps_output_points_seed_remaining. }
  rewrite K. reflexivity.
Qed.

Lemma kmeans_init_log (input : list Point) (k : Z) (s : Store) :
  exists l, log (snd (__kmeans_init input k s)) = log s ++ l.
Proof.
  assert (Hins : forall rows s0, log (snd (insert_centroids rows s0)) = log s0).
  { intros rows s0.
    assert (K : keeps log (insert_centroids rows)) by (unfold insert_centroids; frame).
    apply K. }
  assert (Hseed : forall fuel i s0, log (snd (seed_remaining fuel input k i s0)) = log s0).
  { assert (K : forall fuel i, keeps log (seed_remaining fuel input k i)).
    { induction fuel as [|fuel IH]; intros i; cbn [seed_remaining].
      - destruct (i <? k); [intros s0; reflexivity | apply keeps_ret].
      - destruct (i <? k); [|apply keeps_ret].
        frame; try (intros s0; apply Hins). apply IH. }
    intros fuel i s0. apply K. }
  unfold __kmeans_init. unfold bind at 1. unfold modify at 1.
  unfold bind at 1. unfold modify at 1.
  unfold bind at 1. unfold info at 1. unfold modify at 1. cbv beta iota.
  rewrite bind_snd_keeps by (intros; intros s0; apply Hseed).
  rewrite Hins. destruct s. cbn. eexists. reflexivity.
Qed.

Lemma validate_input_ret (cat : Catalog) (input_table : string) (k : Z)
    (s s' : Store) (rows : list Point) :
  validate_input cat input_table k s = (Ret rows, s') ->
  0 < k < Z.of_nat (List.length rows) /\
  exists a b rel,
    split "."%char input_table = [a; b] /\
    relations cat a b = Some rel /\
    rows = rel_rows rel.
Proof.
  destruct s as [op oc temps ar lg li cp].
  unfold validate_input. store_cbv.
  destruct (Z.ltb_spec 0 k) as [Hk|Hk]; cbn [negb]; [|discriminate].
  destruct (split "."%char input_table) as [|a [|b [|c l]]]; store_cbv; try discriminate.
  destruct (relations cat a b) as [rel|] eqn:Hrel; [|discriminate].
  destruct (existsb (String.eqb "pid") (rel_columns rel)); [|discriminate].
  destruct (existsb (String.eqb "position") (rel_columns rel)); [|discriminate].
  destruct (Z.eqb_spec (Z.of_nat (List.length (rel_rows rel))) 0); [discriminate|].
  destruct (Z.leb_spec (Z.of_nat (List.length (rel_rows rel))) k); [discriminate|].
  intros E. inversion E; subst. split; [lia|]. eauto 6.
Qed.

Lemma cluster_ret (fuel : nat) (max_iter : Z) (input : list Point) (k goodness : Z)
    (s s' : Store) (r : Summary) :
  cluster fuel max_iter input k goodness s = (Ret r, s') ->
  completed input k goodness r s' /\
  (change_pct s = [100%Q] -> max_iter <> 1 ->
   2 <= loop_i s' /\ exists l1 l2, log s' = log s ++ l1 ++ MsgIteration 2 :: l2).
Proof.
  unfold cluster. intros H.
  apply bind_ret_inv in H. destruct H as (c_count & s1 & E1 & H).
  apply bind_ret_inv in H. destruct H as ([] & s1' & Echeck & H).
  assert (s1' = s1) by (destruct (negb (c_count =? k)); inversion Echeck; reflexivity).
  subst s1'. clear Echeck.
  apply bind_ret_inv in H. destruct H as (expand & s3 & E3 & H).
  apply bind_ret_inv in H. destruct H as ([] & s4 & E4 & H).
  injection E4 as <-.
  apply bind_ret_inv in H. destruct H as ([] & s5 & E5 & H).
  apply bind_ret_inv in H. destruct H as ([] & s6 & E6 & H).
  apply bind_ret_inv in H. destruct H as (g & s7 & E7 & H).
  apply bind_ret_inv in H. destruct H as (oc & s8 & E8 & H).
  injection E8 as <- <-.
  apply bind_ret_inv in H. destruct H as (cs & s9 & E9 & H).
  injection H as <- <-.
  pose proof (kmeans_init_output_points input k s) as Hop1. rewrite E1 in Hop1.
  cbn [snd] in Hop1.
  pose proof (keeps_change_pct_kmeans_init input k s) as Hcp1. rewrite E1 in Hcp1.
  cbn [snd] in Hcp1.
  pose proof (kmeans_init_log input k s) as (l1 & Hl1). rewrite E1 in Hl1.
  cbn [snd] in Hl1.
  pose proof E3 as E3'.
  apply prepare_ret in E3. destruct E3 as (Hexp & _ & Ht3 & Hop3 & _ & Hcp3).
  assert (Hl3 : exists l, log s3 = log s1 ++ l).
  { clear - E3'. destruct s1. unfold prepare_working_set, create_TempTable, check_limit in E3'.
    revert E3'. store_cbv. split_cases; store_cbv; intros E; inversion E; subst;
      cbn; eexists; reflexivity. }
  destruct Hl3 as (l3 & Hl3).
  assert (Hinv : exists rows,
             temp_lookup (loop_i (with_loop_i 0 s3)) (TempTable (with_loop_i 0 s3))
               = Some rows /\ points_of rows = working_set input k).
  { exists (map unassigned (working_set input k)). split.
    - unfold with_loop_i. cbn [loop_i TempTable]. rewrite Ht3. apply temp_lookup_head.
    - apply points_of_unassigned. }
  pose proof (main_loop_done _ _ _ _ _ _ _ Hinv E5)
    as (cs_prev & _ & Ha5 & Ht5 & Hc5 & Hop5).
  cbv zeta in *.
  apply write_output_ret in E6.
  destruct E6 as (ps & rows & Hps & Hrows & Hop6 & Hc6 & Ht6 & Ha6 & Hi6 & Hl6).
  assert (Hps' : ps = []).
  { rewrite Hop5 in Hps. unfold with_loop_i in Hps. cbn [output_points] in Hps. congruence. }
  subst ps. cbn [app] in Hop6.
  assert (Hout : rows = assign_points (centroid_array k cs_prev) input).
  { rewrite Hexp in Hrows. unfold working_set in Ht5.
    destruct (sampled input k).
    - destruct Hrows as (arr & Harr & ->). congruence.
    - congruence. }
  subst rows.
  apply goodness_test_ret in E7. destruct E7 as (Hsame & Hg).
  unfold locals_and_tables, tables in Hsame.
  injection Hsame as Hp7 Hc7 Ht7 Ha7 Hi7 Hcp7.
  assert (Hcs : cs = mean_positions
                       (assign_points (centroid_array k cs_prev) (working_set input k))).
  { destruct (output_centroids s7) as [c|] eqn:Ec; [|discriminate].
    injection E9 as <- _. congruence. }
  assert (s9 = s7) by (destruct (output_centroids s7); inversion E9; reflexivity).
  subst s9 cs.
  split.
  - exists cs_prev. cbv zeta.
    split; [congruence|]. split; [congruence|]. split; [congruence|].
    split; [congruence|]. split; [reflexivity|]. cbn [gfit].
    destruct Hg as [(-> & _ & ps & cs & Hps7 & Hcs7 & ->)|(Hne & _ & ->)].
    + cbn. congruence.
    + destruct (Z.eqb_spec goodness 1); [contradiction | reflexivity].
  - intros Hcp Hm.
    assert (Hl7 : exists l, log s7 = log s6 ++ l).
    { destruct Hg as [(_ & -> & _)|(_ & -> & _)];
        [eexists; reflexivity | exists []; symmetry; apply app_nil_r]. }
    destruct Hl7 as (l7 & Hl7).
    destruct (main_loop_two_passes k (Z.of_nat (List.length input)) max_iter fuel
                (with_loop_i 0 s3) s5) as (H2 & la & lb & Hlog);
      [reflexivity | cbn; congruence | exact Hm | exact E5 |].
    split; [lia|].
    unfold with_loop_i in Hlog. cbn [log] in Hlog.
    exists (l1 ++ l3 ++ la), (lb ++ [if expand then MsgExpanding else MsgWritingOutput] ++ l7).
    rewrite Hl7, Hl6, Hlog, Hl3, Hl1, <- ?app_assoc. cbn [app].
    rewrite <- ?app_assoc. reflexivity.
Qed.


Lemma kmeans_run_with_ret (fuel : nat) (max_iter : Z) (cat : Catalog)
    (input_table : string) (k goodness : Z) (run_id output_schema : string)
    (s s' : Store) (r : Summary) :
  kmeans_run_with fuel max_iter cat input_table k goodness run_id output_schema s
    = (Ret r, s') ->
  exists a b rel,
    split "."%char input_table = [a; b] /\
    relations cat a b = Some rel /\
    0 < k < Z.of_nat (List.length (rel_rows rel)) /\
    completed (rel_rows rel) k goodness r s' /\
    (max_iter <> 1 -> 2 <= loop_i s' /\ In (MsgIteration 2) (log s')).
Proof.
  rewrite kmeans_run_with_unfold. intros H.
  apply bind_ret_inv in H. destruct H as (input & s1 & E1 & H).
  apply bind_ret_inv in H. destruct H as ([] & s2 & E2 & H).
  pose proof (keeps_change_pct_validate_input cat input_table k
                (with_change_pct [100%Q] s)) as K1.
  rewrite E1 in K1. cbn [snd] in K1.
  unfold with_change_pct in K1. cbn [change_pct] in K1.
  pose proof (keeps_change_pct_validate_options cat goodness run_id output_schema s1) as K2.
  rewrite E2 in K2. cbn [snd] in K2.
  apply validate_input_ret in E1. destruct E1 as (Hk & a & b & rel & Hsplit & Hrel & ->).
  apply cluster_ret in H. destruct H as (Hdone & Htwo).
  exists a, b, rel. repeat (split; [assumption|]).
  intros Hm. destruct Htwo as (H2 & l1 & l2 & Hlog); [congruence | exact Hm |].
  split; [exact H2|]. rewrite Hlog.
  apply in_or_app. right. apply in_or_app. right. left. reflexivity.
Qed.

(** C10. With [max_iterations] at least 2 the loop runs at least two passes:
    the first pass, entered with the tracking variable at its initial
    [100.0], never sets [done], and a run that returns has counted at least
    two passes and logged the second. *)
Theorem second_pass_always_runs :
  forall (fuel : nat) (max_iter : Z),
    2 <= max_iter ->
    (forall (k p_count : Z) (s s1 : Store) (done : bool),
        loop_i s = 0 -> change_pct s = [100%Q] ->
        iteration k p_count max_iter s = (Ret done, s1) -> done = false) /\
    (forall (cat : Catalog) (input_table : string) (k goodness : Z)
            (run_id output_schema : string) (s s' : Store) (r : Summary),
        kmeans_run_with fuel max_iter cat input_table k goodness run_id output_schema s
          = (Ret r, s') ->
        2 <= loop_i s' /\ In (MsgIteration 2) (log s')).
Proof.
  intros fuel max_iter Hm. split.
  - intros k p_count s s1 done H0 Hcp E.
    pose proof (iteration_facts k p_count max_iter s) as Hf. cbv zeta in Hf.
    rewrite E, H0 in Hf. cbn [fst snd] in Hf.
    destruct Hf as (cs & prev & _ & _ & _ & _ & _ & _ & Hc); [discriminate|].
    destruct Hc as [(Hlt & _)|[(Hlt & _)|(_ & _ & s2 & Hs2 & He)]]; try lia.
    rewrite exit_conditions_first in He by (congruence || lia).
    congruence.
  - intros cat input_table k goodness run_id output_schema s s' r E.
    apply kmeans_run_with_ret in E.
    destruct E as (a & b & rel & _ & _ & _ & _ & H). apply H. lia.
Qed.

(** C4 (amended). A run that returns has written, for every point of the
    full population, the centroid id that [_kmeans_closestID] gives it
    against the centroid array of the last pass (the array built from the
    centroids as they stood before the last Update), which is the array the
    last Assign step used on the working set; the centroids table holds the
    means computed from that last assignment. *)
Theorem expansion_uses_last_array :
  forall (fuel : nat) (max_iter : Z) (cat : Catalog) (input_table : string)
         (k goodness : Z) (run_id output_schema : string) (s s' : Store) (r : Summary),
    kmeans_run_with fuel max_iter cat input_table k goodness run_id output_schema s
      = (Ret r, s') ->
    exists a b rel arr,
      split "."%char input_table = [a; b] /\
      relations cat a b = Some rel /\
      ArrayOfCentroids s' = Some arr /\
      temp_lookup (loop_i s') (TempTable s')
        = Some (assign_points arr (working_set (rel_rows rel) k)) /\
      output_points s' = Some (assign_points arr (rel_rows rel)) /\
      output_centroids s'
        = Some (mean_positions (assign_points arr (working_set (rel_rows rel) k))) /\
      (forall p, In p (rel_rows rel) ->
                 In {| p_pid := pid p; p_position := position p;
                       p_cid := _kmeans_closestID (position p) arr |}
                    (assign_points arr (rel_rows rel))).
Proof.
  intros fuel max_iter cat input_table k goodness run_id output_schema s s' r E.
  apply kmeans_run_with_ret in E.
  destruct E as (a & b & rel & Hsplit & Hrel & _ & (cs & Ha & Ht & Hc & Hp & _) & _).
  exists a, b, rel, (centroid_array k cs).
  repeat (split; [assumption|]).
  intros p Hin. unfold assign_points.
  apply (in_map (fun q => closest (centroid_array k cs) (pid q) (position q))) in Hin.
  exact Hin.
Qed.

(** C1 (amended). The Update step rebuilds the centroids table from the
    current assignment alone: after a pass that got past its SQL statements,
    the table holds a row for a centroid id exactly when some point of the
    current assignment carries that id.  A centroid without assigned points
    has no row. *)
Theorem update_keeps_assigned_centroids_only :
  forall (k p_count max_iter : Z) (s : Store),
    fst (iteration k p_count max_iter s) <> Raise SqlError ->
    let s' := snd (iteration k p_count max_iter s) in
    exists cur cs,
      temp_lookup (loop_i s') (TempTable s') = Some cur /\
      output_centroids s' = Some cs /\
      forall c, In c (map cid cs) <-> members c cur <> [].
Proof.
  intros k p_count max_iter s Hne.
  pose proof (iteration_facts k p_count max_iter s Hne)
    as (cs & prev & _ & _ & _ & _ & Hc & Ht & _).
  pose proof (iteration_counts k p_count max_iter s) as (Hi & _).
  cbv zeta. rewrite Hi.
  eexists. eexists. split; [exact Ht|]. split; [exact Hc|].
  intros c. rewrite mean_positions_cids, group_keys_In. symmetry.
  apply members_nonempty.
Qed.


(** ** The goodness of fit *)

Lemma join_by_cid (cs : list CentroidRow) (x : Z) (f : CentroidRow -> Q) :
  NoDup (map cid cs) ->
  flat_map (fun c => if x =? cid c then [f c] else []) cs
  = match find (fun c => x =? cid c) cs with
    | Some c => [f c]
    | None => []
    end.
Proof.
  induction cs as [|c cs IH]; simpl; intros Hnd; [reflexivity|].
  inversion Hnd as [|? ? Hnotin Hnd']; subst.
  destruct (Z.eqb_spec x (cid c)) as [->|Hne].
  - assert (Hz : flat_map (fun c0 => if cid c =? cid c0 then [f c0] else []) cs = []).
    { clear IH Hnd Hnd'. induction cs as [|d cs IH]; simpl; [reflexivity|].
      destruct (Z.eqb_spec (cid c) (cid d)) as [He|He].
      - exfalso. apply Hnotin. left. symmetry. exact He.
      - apply IH. intros H. apply Hnotin. right. exact H. }
    rewrite Hz. reflexivity.
  - apply IH. exact Hnd'.
Qed.

Lemma fit_distances_matched (ps : list PointRow) (cs : list CentroidRow) :
  NoDup (map cid cs) ->
  fit_distances ps cs = map (distance_to_centroid cs) (matched cs ps).
Proof.
  intros Hnd. unfold fit_distances, matched.
  induction ps as [|p ps IH]; simpl; [reflexivity|].
  rewrite IH, join_by_cid by exact Hnd.
  unfold distance_to_centroid at 2. unfold centroid_of.
  destruct (find (fun c => p_cid p =? cid c) cs) as [c|] eqn:E; simpl.
  - unfold distance_to_centroid, centroid_of. rewrite E. reflexivity.
  - reflexivity.
Qed.

Lemma fold_left_Qsum (l : list Q) (a : Q) : (fold_left Qplus l a == a + Qsum l)%Q.
Proof.
  revert a. induction l as [|x l IH]; intros a; simpl; [ring|].
  rewrite IH. ring.
Qed.

Lemma Qsum_nonneg (l : list Q) : Forall (fun x => 0 <= x)%Q l -> (0 <= Qsum l)%Q.
Proof.
  induction 1 as [|x l Hx Hl IH]; simpl; [apply Qle_refl|].
  change 0%Q with (0 + 0)%Q at 1. apply Qplus_le_compat; assumption.
Qed.

Lemma Qsum_zero (l : list Q) :
  Forall (fun x => 0 <= x)%Q l ->
  (Qsum l == 0)%Q <-> Forall (fun x => x == 0)%Q l.
Proof.
  induction 1 as [|x l Hx Hl IH]; simpl.
  - split; [constructor | reflexivity].
  - pose proof (Qsum_nonneg l Hl) as Hs. split.
    + intros H.
      assert (Hx0 : (x == 0)%Q).
      { apply Qle_antisym; [|exact Hx].
        rewrite <- H. rewrite <- (Qplus_0_r x) at 1.
        apply Qplus_le_compat; [apply Qle_refl | exact Hs]. }
      constructor; [exact Hx0|]. apply IH. rewrite Hx0 in H.
      rewrite Qplus_0_l in H. exact H.
    + intros H. inversion H as [|? ? Hx0 Hl0]; subst.
      rewrite Hx0, Qplus_0_l. apply IH. exact Hl0.
Qed.

Lemma goodness_of_fit_value (ps : list PointRow) (cs : list CentroidRow) :
  NoDup (map cid cs) ->
  let m := matched cs ps in
  (m = [] -> goodness_of_fit ps cs = None) /\
  (m <> [] ->
   exists v, goodness_of_fit ps cs = Some v /\
     (v == Qsum (map (distance_to_centroid cs) m)
           / inject_Z (Z.of_nat (List.length m)))%Q).
Proof.
  intros Hnd m. unfold goodness_of_fit.
  rewrite (fit_distances_matched ps cs Hnd). fold m.
  destruct m as [|p m'] eqn:E.
  - split; [reflexivity | congruence].
  - split; [discriminate|]. intros _.
    unfold sql_sum. cbn [map]. eexists. split; [reflexivity|].
    change (distance_to_centroid cs p :: map (distance_to_centroid cs) m')
      with (map (distance_to_centroid cs) (p :: m')).
    rewrite length_map.
    rewrite fold_left_Qsum. rewrite Qplus_0_l. reflexivity.
Qed.

Lemma matched_In (cs : list CentroidRow) (ps : list PointRow) (p : PointRow) :
  In p (matched cs ps) <-> In p ps /\ exists c, centroid_of cs p = Some c.
Proof.
  unfold matched. rewrite filter_In.
  destruct (centroid_of cs p) as [c|]; split; intros (H1 & H2); split; eauto;
    try discriminate.
  destruct H2 as (c & H2). discriminate.
Qed.

Lemma filter_all {A} (f : A -> bool) (l : list A) :
  (forall x, In x l -> f x = true) -> filter f l = l.
Proof.
  induction l as [|x l IH]; intros H; [reflexivity|].
  cbn [filter]. rewrite (H x) by (left; reflexivity). f_equal.
  apply IH. intros y Hy. apply H. right. exact Hy.
Qed.

Lemma matched_all (rows : list PointRow) :
  matched (mean_positions rows) rows = rows.
Proof.
  unfold matched.
  assert (H : forall p, In p rows ->
            (match centroid_of (mean_positions rows) p with
             | Some _ => true | None => false end) = true).
  { intros p Hp. unfold centroid_of.
    destruct (find (fun c => p_cid p =? cid c) (mean_positions rows)) eqn:E;
      [reflexivity|].
    exfalso.
    assert (Hin : In (p_cid p) (map cid (mean_positions rows))).
    { rewrite mean_positions_cids, group_keys_In. apply in_map. exact Hp. }
    apply in_map_iff in Hin. destruct Hin as (c & Hc & Hcin).
    pose proof (find_none _ _ E c Hcin) as Hn. cbv beta in Hn.
    rewrite Hc, Z.eqb_refl in Hn. discriminate. }
  apply filter_all. exact H.
Qed.

Section FitProperties.
(** [l2norm] of a difference is a norm: never negative, and zero only on equal
    vectors. *)
Hypothesis l2norm_nonneg : forall a b : Position, (0 <= l2norm_diff a b)%Q.
Hypothesis l2norm_zero : forall a b : Position, (l2norm_diff a b == 0)%Q <-> a = b.

Lemma distances_nonneg (cs : list CentroidRow) (m : list PointRow) :
  Forall (fun x => 0 <= x)%Q (map (distance_to_centroid cs) m).
Proof.
  apply Forall_forall. intros x Hx. apply in_map_iff in Hx.
  destruct Hx as (p & <- & _). unfold distance_to_centroid.
  destruct (centroid_of cs p); [apply l2norm_nonneg | apply Qle_refl].
Qed.

Lemma fit_value_properties (cs : list CentroidRow) (m : list PointRow) (v : Q) :
  m <> [] ->
  (forall p, In p m -> exists c, centroid_of cs p = Some c) ->
  (v == Qsum (map (distance_to_centroid cs) m) / inject_Z (Z.of_nat (List.length m)))%Q ->
  (0 <= v)%Q /\
  ((v == 0)%Q <->
   forall p, In p m ->
     exists c, centroid_of cs p = Some c /\ p_position p = c_position c).
Proof.
  intros Hne Hall Hv.
  assert (Hn : (0 < inject_Z (Z.of_nat (List.length m)))%Q).
  { change 0%Q with (inject_Z 0). rewrite <- Zlt_Qlt. destruct m; [congruence|].
    simpl List.length. lia. }
  pose proof (distances_nonneg cs m) as Hd.
  pose proof (Qsum_nonneg _ Hd) as Hs.
  split.
  - rewrite Hv. apply Qle_shift_div_l; [exact Hn|]. rewrite Qmult_0_l. exact Hs.
  - rewrite Hv. split.
    + intros H0.
      assert (Hsum : (Qsum (map (distance_to_centroid cs) m) == 0)%Q).
      { apply Qle_antisym; [|exact Hs].
        apply (Qmult_le_r _ _ (/ inject_Z (Z.of_nat (List.length m)))).
        - apply Qinv_lt_0_compat. exact Hn.
        - rewrite Qmult_0_l. unfold Qdiv in H0. rewrite H0. apply Qle_refl. }
      apply (Qsum_zero _ Hd) in Hsum. rewrite Forall_forall in Hsum.
      intros p Hp. destruct (Hall p Hp) as (c & Hc). exists c. split; [exact Hc|].
      apply l2norm_zero.
      specialize (Hsum (distance_to_centroid cs p) (in_map _ _ _ Hp)).
      unfold distance_to_centroid in Hsum. rewrite Hc in Hsum. exact Hsum.
    + intros H.
      assert (Hsum : (Qsum (map (distance_to_centroid cs) m) == 0)%Q).
      { apply (Qsum_zero _ Hd). apply Forall_forall. intros x Hx.
        apply in_map_iff in Hx. destruct Hx as (p & <- & Hp).
        destruct (H p Hp) as (c & Hc & Heq). unfold distance_to_centroid.
        rewrite Hc. apply l2norm_zero. exact Heq. }
      unfold Qdiv. rewrite Hsum. apply Qmult_0_l.
Qed.

(** C9 (amended). With the goodness flag at 1 the fit score of a run that
    returns is the sum, over the output points whose centroid id has a row in
    the final centroids table, of the distance between the point and that
    centroid, divided by the number of those points; it is never negative and
    it is 0 exactly when each of those points sits on its centroid.  Output
    points whose centroid id has no row are left out of the sum and of the
    count; without sampling there are none.  With the flag off nothing is
    computed. *)
Theorem fit_score_over_matched_points :
  forall (fuel : nat) (max_iter : Z) (cat : Catalog) (input_table : string)
         (k goodness : Z) (run_id output_schema : string) (s s' : Store) (r : Summary),
    kmeans_run_with fuel max_iter cat input_table k goodness run_id output_schema s
      = (Ret r, s') ->
    exists a b rel ps cs,
      split "."%char input_table = [a; b] /\
      relations cat a b = Some rel /\
      output_points s' = Some ps /\ output_centroids s' = Some cs /\
      let m := matched cs ps in
      (goodness <> 1 -> gfit r = NotComputed) /\
      (goodness = 1 -> m = [] -> gfit r = Computed None) /\
      (goodness = 1 -> m <> [] ->
       exists v,
         gfit r = Computed (Some v) /\
         (v == Qsum (map (distance_to_centroid cs) m)
               / inject_Z (Z.of_nat (List.length m)))%Q /\
         (0 <= v)%Q /\
         ((v == 0)%Q <->
          forall p, In p m ->
            exists c, centroid_of cs p = Some c /\ p_position p = c_position c)) /\
      (sampled (rel_rows rel) k = false -> m = ps).
Proof.
  intros fuel max_iter cat input_table k goodness run_id output_schema s s' r E.
  apply kmeans_run_with_ret in E.
  destruct E as (a & b & rel & Hsplit & Hrel & _ & (cs0 & Ha & Ht & Hc & Hp & _ & Hg) & _).
  cbv zeta in *.
  set (arr := centroid_array k cs0) in *.
  set (cs := mean_positions (assign_points arr (working_set (rel_rows rel) k))) in *.
  set (ps := assign_points arr (rel_rows rel)) in *.
  exists a, b, rel, ps, cs. repeat (split; [assumption|]).
  assert (Hnd : NoDup (map cid cs)).
  { unfold cs. rewrite mean_positions_cids. apply group_keys_NoDup. }
  pose proof (goodness_of_fit_value ps cs Hnd) as (Hnone & Hsome). cbv zeta in *.
  split; [|split; [|split]].
  - intros Hne. rewrite Hg. destruct (Z.eqb_spec goodness 1); [contradiction|reflexivity].
  - intros -> Hm. rewrite Hg. cbn. rewrite (Hnone Hm). reflexivity.
  - intros -> Hm. destruct (Hsome Hm) as (v & Hv & Hval).
    exists v. rewrite Hg. cbn. rewrite Hv. split; [reflexivity|]. split; [exact Hval|].
    apply fit_value_properties; [exact Hm | | exact Hval].
    intros p Hin. apply matched_In in Hin. tauto.
  - intros Hs. unfold cs, ps, working_set. rewrite Hs. apply matched_all.
Qed.

End FitProperties.


(** ** The stabilisation rule *)

Lemma Qltb_lt (a b : Q) : Qltb a b = true <-> (a < b)%Q.
Proof.
  unfold Qltb. rewrite negb_true_iff. split.
  - intros H. apply Qnot_le_lt. intros Hle. apply Qle_bool_iff in Hle. congruence.
  - intros H. destruct (Qle_bool b a) eqn:E; [|reflexivity].
    apply Qle_bool_iff in E. exfalso. exact (Qlt_not_le _ _ H E).
Qed.

Lemma exit_conditions_stabilized (i max_iter : Z) (s : Store) (a b c d : Q) :
  3 < i ->
  nth_error (change_pct s) (Z.to_nat (i - 4)) = Some a ->
  nth_error (change_pct s) (Z.to_nat (i - 3)) = Some b ->
  nth_error (change_pct s) (Z.to_nat (i - 2)) = Some c ->
  nth_error (change_pct s) (Z.to_nat (i - 1)) = Some d ->
  (a - d < 0)%Q ->
  exit_conditions i max_iter s
  = (Ret true, with_log (log s ++ [MsgExitStabilized ((a + b + c + d) / 4)]) s).
Proof.
  intros Hi Ha Hb Hc Hd Hlt.
  unfold exit_conditions. unfold bind at 1. unfold gets at 1. cbv beta iota.
  destruct (Z.ltb_spec 3 i) as [_|]; [|lia].
  rewrite (py_index_nth _ (i - 4) a), (py_index_nth _ (i - 3) b),
    (py_index_nth _ (i - 2) c), (py_index_nth _ (i - 1) d) by (assumption || lia).
  apply Qltb_lt in Hlt.
  unfold bind, ret, info, modify. rewrite Hlt. reflexivity.
Qed.

(** C5 (amended). After a pass i > 3, if the entry of the tracking variable
    three passes back ([change_pct[i-4]]: the fraction measured in pass i-3,
    or the initial 100.0 when i = 4) minus the current entry
    ([change_pct[i-1]]) is negative, the pass sets [done], the loop returns,
    and the message reports the average of the last four entries. *)
Theorem stabilized_exit :
  forall (k p_count max_iter : Z) (s s1 : Store) (done : bool) (a b c d : Q),
    iteration k p_count max_iter s = (Ret done, s1) ->
    3 < loop_i s1 ->
    nth_error (change_pct s1) (Z.to_nat (loop_i s1 - 4)) = Some a ->
    nth_error (change_pct s1) (Z.to_nat (loop_i s1 - 3)) = Some b ->
    nth_error (change_pct s1) (Z.to_nat (loop_i s1 - 2)) = Some c ->
    nth_error (change_pct s1) (Z.to_nat (loop_i s1 - 1)) = Some d ->
    (a - d < 0)%Q ->
    done = true /\
    (exists l, log s1 = l ++ [MsgExitStabilized ((a + b + c + d) / 4)]) /\
    (forall fuel, main_loop (S fuel) k p_count max_iter s = (Ret tt, s1)).
Proof.
  intros k p_count max_iter s s1 done a b c d E Hi Ha Hb Hc Hd Hlt.
  pose proof (iteration_facts k p_count max_iter s) as Hf.
  pose proof (iteration_counts k p_count max_iter s) as (Hcount & _).
  cbv zeta in Hf. rewrite E in Hf, Hcount. cbn [fst snd] in Hf, Hcount.
  destruct Hf as (cs & prev & _ & _ & _ & _ & _ & _ & Hcase); [discriminate|].
  assert (Hexit : exists s2, change_pct s2 = change_pct s1 /\
                             exit_conditions (loop_i s1) max_iter s2 = (Ret done, s1)).
  { rewrite Hcount.
    destruct Hcase as [(_ & sum & _ & _ & s2 & H2 & He)
                      |[(_ & _ & _ & He)|(_ & Hcp & s2 & H2 & He)]].
    - exists s2. split; assumption.
    - discriminate.
    - exists s2. split; [congruence | assumption]. }
  destruct Hexit as (s2 & Hcp & He).
  rewrite <- Hcp in Ha, Hb, Hc, Hd.
  rewrite (exit_conditions_stabilized _ _ _ a b c d) in He by assumption.
  injection He as <- <-.
  split; [reflexivity|]. split.
  - eexists. unfold with_log. cbn [log]. reflexivity.
  - intros fuel. rewrite main_loop_step, E. reflexivity.
Qed.

(** ** Seeding *)

Lemma generate_series_snoc (i : Z) :
  0 <= i -> generate_series 1 (i + 1) = generate_series 1 i ++ [i + 1].
Proof.
  intros Hi. unfold generate_series.
  replace (Z.to_nat (i + 1 - 1 + 1)) with (S (Z.to_nat (i - 1 + 1))) by lia.
  rewrite seq_S, map_app. cbn [map]. f_equal. f_equal. lia.
Qed.

Lemma order_desc_limit_1_In (l : list (Z * Q)) :
  l <> [] -> exists pc, order_desc_limit_1 l = Some pc /\ In pc l.
Proof.
  destruct l as [|x r]; [congruence|]. intros _. unfold order_desc_limit_1.
  eexists. split; [reflexivity|].
  assert (H : forall (r : list (Z * Q)) x0,
             In (fold_left (fun m y => if Qltb (snd m) (snd y) then y else m) r x0)
                (x0 :: r)).
  { clear. induction r as [|y r IH]; intros x0; cbn [fold_left].
    - left. reflexivity.
    - specialize (IH (if Qltb (snd x0) (snd y) then y else x0)).
      destruct (Qltb (snd x0) (snd y)); destruct IH as [<-|IH]; simpl; auto. }
  apply H.
Qed.

Lemma filter_unique_pid (input : list Point) (g : Z) :
  NoDup (map pid input) -> In g (map pid input) ->
  exists pt, In pt input /\ filter (fun pt => pid pt =? g) input = [pt].
Proof.
  induction input as [|p input IH]; simpl; intros Hnd Hin; [contradiction|].
  inversion Hnd as [|? ? Hnotin Hnd']; subst.
  destruct (Z.eqb_spec (pid p) g) as [He|He].
  - exists p. split; [left; reflexivity|]. f_equal.
    assert (Hnone : forall q, In q input -> (pid q =? g) = false).
    { intros q Hq. apply Z.eqb_neq. intros Hqg. apply Hnotin.
      rewrite He, <- Hqg. apply in_map. exact Hq. }
    clear - Hnone. induction input as [|q input IH]; [reflexivity|].
    cbn [filter]. rewrite (Hnone q) by (left; reflexivity).
    apply IH. intros q' Hq'. apply Hnone. right. exact Hq'.
  - destruct Hin as [Hin|Hin]; [contradiction|].
    destruct (IH Hnd' Hin) as (pt & Hpt & Hf). exists pt. split; [right|]; assumption.
Qed.

Lemma candidate_distances_keys (i : Z) (pool : list Point) (cs : list CentroidRow) :
  pool <> [] -> cs <> [] ->
  candidate_distances i pool cs <> [] /\
  forall pc, In pc (candidate_distances i pool cs) -> In (fst pc) (map pid pool).
Proof.
  intros Hpool Hcs. unfold candidate_distances.
  set (dist := fun g : Z =>
         flat_map (fun p => if pid p =? g
                            then map (fun c => l2norm_diff (position p) (c_position c)) cs
                            else []) pool).
  assert (Hd : forall g, In g (map pid pool) -> dist g <> []).
  { intros g Hg. apply in_map_iff in Hg. destruct Hg as (p & Hp & Hin).
    unfold dist. intros Hnil.
    assert (Hall : forall q, In q pool ->
               (if pid q =? g
                then map (fun c => l2norm_diff (position q) (c_position c)) cs
                else []) = []).
    { intros q Hq. destruct (flat_map _ pool) eqn:E in Hnil; [|discriminate].
      clear Hnil. revert E. clear - Hq. induction pool as [|a pool IH]; [contradiction|].
      cbn [flat_map]. intros E. apply app_eq_nil in E. destruct E as (E1 & E2).
      destruct Hq as [<-|Hq]; [exact E1 | exact (IH Hq E2)]. }
    specialize (Hall p Hin). rewrite Hp, Z.eqb_refl in Hall.
    destruct cs; [congruence | discriminate]. }
  split.
  - destruct pool as [|p pool]; [congruence|].
    assert (Hin : In (pid p) (group_keys (map pid (p :: pool))))
      by (apply group_keys_In; left; reflexivity).
    intros Hnil.
    assert (Hg : forall g, In g (group_keys (map pid (p :: pool))) ->
               match sql_min (dist g) with
               | Some m => [(g, (m * seed_random i g)%Q)]
               | None => []
               end = []).
    { intros g Hgin. revert Hnil Hgin. generalize (group_keys (map pid (p :: pool))).
      induction l as [|a l IH]; [intros _ []|].
      cbn [flat_map]. intros E. apply app_eq_nil in E. destruct E as (E1 & E2).
      intros [<-|Hgin]; [exact E1 | exact (IH E2 Hgin)]. }
    specialize (Hg _ Hin). specialize (Hd (pid p) (or_introl eq_refl)).
    unfold sql_min in Hg. destruct (dist (pid p)); [congruence | discriminate].
  - intros pc Hpc. apply in_flat_map in Hpc. destruct Hpc as (g & Hg & Hpc).
    apply (proj1 (group_keys_In _ _)) in Hg.
    match type of Hpc with
    | context [match ?x with Some _ => _ | None => _ end] => destruct x
    end; [|contradiction].
    destruct Hpc as [<-|[]]. exact Hg.
Qed.

Lemma limit_In {A} (n : Z) (l : list A) (x : A) : In x (limit n l) -> In x l.
Proof.
  unfold limit. intros H. rewrite <- (firstn_skipn (Z.to_nat n) l).
  apply in_or_app. left. exact H.
Qed.

Lemma seed_statement_one (input : list Point) (k i : Z) (cs : list CentroidRow) :
  0 < numCentroids_of k ->
  Permutation (seed_order i input) input ->
  input <> [] -> NoDup (map pid input) -> cs <> [] ->
  exists pt, In pt input /\
             seed_statement input k i cs = [{| cid := i; c_position := position pt |}].
Proof.
  intros Hn Hperm Hne Hnd Hcs. unfold seed_statement.
  set (pool := limit (numCentroids_of k) (seed_order i input)).
  assert (Hpool : pool <> []).
  { unfold pool, limit. destruct (seed_order i input) as [|x l] eqn:E.
    - apply Permutation_nil in Hperm. congruence.
    - destruct (Z.to_nat (numCentroids_of k)) eqn:En; [lia | discriminate]. }
  destruct (candidate_distances_keys i pool cs Hpool Hcs) as (Hcand & Hkeys).
  destruct (order_desc_limit_1_In _ Hcand) as (pc & -> & Hpc).
  assert (Hin : In (fst pc) (map pid input)).
  { specialize (Hkeys pc Hpc). apply in_map_iff in Hkeys.
    destruct Hkeys as (p & Hp & Hpin). rewrite <- Hp. apply in_map.
    apply (Permutation_in _ Hperm). exact (limit_In _ _ _ Hpin). }
  destruct (filter_unique_pid input (fst pc) Hnd Hin) as (pt & Hpt & ->).
  exists pt. split; [exact Hpt | reflexivity].
Qed.


Lemma seeded_snoc (input : list Point) (i : Z) (cs : list CentroidRow) (pt : Point) :
  0 <= i -> seeded input i cs -> In pt input ->
  seeded input (i + 1) (cs ++ [{| cid := i + 1; c_position := position pt |}]).
Proof.
  intros Hi (Hids & Hpos) Hpt. split.
  - rewrite map_app, Hids, generate_series_snoc by exact Hi. reflexivity.
  - intros c Hc. apply in_app_or in Hc. destruct Hc as [Hc|[<-|[]]].
    + apply Hpos. exact Hc.
    + exists pt. split; [exact Hpt | reflexivity].
Qed.

Lemma seed_remaining_spec (input : list Point) (k : Z) :
  0 < numCentroids_of k ->
  (forall i, Permutation (seed_order i input) input) ->
  input <> [] -> NoDup (map pid input) ->
  forall (fuel : nat) (i : Z) (s : Store) (cs : list CentroidRow),
    1 <= i <= k -> (Z.to_nat (k - i) <= fuel)%nat ->
    output_centroids s = Some cs -> seeded input i cs ->
    exists s' cs',
      seed_remaining fuel input k i s = (Ret k, s') /\
      output_centroids s' = Some cs' /\ seeded input k cs'.
Proof.
  intros Hn Hperm Hne Hnd.
  induction fuel as [|fuel IH]; intros i s cs Hi Hfuel Hcs Hseeded.
  - assert (i = k) by lia. subst i. cbn [seed_remaining].
    rewrite Z.ltb_irrefl. exists s, cs. repeat split; try assumption; apply Hseeded.
  - cbn [seed_remaining]. destruct (Z.ltb_spec i k) as [Hlt|Hge].
    + assert (Hcs' : cs <> []).
      { destruct Hseeded as (Hids & _). intros ->. cbn in Hids.
        unfold generate_series in Hids.
        replace (Z.to_nat (i - 1 + 1)) with (S (Z.to_nat (i - 1))) in Hids by lia.
        discriminate. }
      destruct (seed_statement_one input k (i + 1) cs Hn (Hperm (i + 1)) Hne Hnd Hcs')
        as (pt & Hpt & Hstmt).
      destruct s as [op oc temps ar lg li cp]. cbn [output_centroids] in Hcs. subst oc.
      unfold insert_centroids, check_limit. store_cbv.
      destruct (Z.ltb_spec (numCentroids_of k) 0) as [Hneg|_]; [lia|].
      store_cbv. rewrite Hstmt.
      apply (IH (i + 1) _ (cs ++ [{| cid := i + 1; c_position := position pt |}]));
        [lia | lia | reflexivity |].
      apply seeded_snoc; [lia | exact Hseeded | exact Hpt].
    + assert (i = k) by lia. subst i.
      exists s, cs. repeat split; try assumption; apply Hseeded.
Qed.


(** ** The rest of the validation block *)

Lemma split_length (sep : ascii) (s : string) :
  List.length (split sep s) = S (occurrences sep s).
Proof.
  induction s as [|c s IH]; cbn [split occurrences]; [reflexivity|].
  destruct (Ascii.eqb c sep); cbn [List.length]; [now rewrite IH|].
  destruct (split sep s) as [|h t]; [discriminate IH | exact IH].
Qed.

(** X6. [input_table] must hold exactly one dot.  For a positive k, a name
    without a dot is refused with the schema prefix error of the validation
    block, and a name with two or more dots makes the unpacking of
    [input_table.split('.')] fail with a ValueError; in both cases no
    relation of the session has been touched. *)
Theorem input_table_needs_exactly_one_dot :
  forall (fuel : nat) (max_iter : Z) (cat : Catalog) (input_table : string)
         (k goodness : Z) (run_id output_schema : string) (s : Store),
    0 < k -> occurrences "."%char input_table <> 1%nat ->
    let r := kmeans_run_with fuel max_iter cat input_table k goodness
               run_id output_schema s in
    fst r = Raise (if (occurrences "."%char input_table =? 0)%nat
                   then Plpy (ErrNoSchemaPrefix input_table)
                   else PyValueError) /\
    tables (snd r) = tables s.
Proof.
  intros fuel max_iter cat input_table k goodness run_id output_schema s Hk Hdots.
  cbv zeta. rewrite kmeans_run_with_unfold.
  pose proof (split_length "."%char input_table) as Hlen.
  destruct s as [op oc temps ar lg li cp].
  unfold validate_input. store_cbv.
  destruct (Z.ltb_spec 0 k) as [_|]; [|lia]. cbn [negb].
  destruct (split "."%char input_table) as [|a [|b [|c l]]]; cbn [List.length] in Hlen.
  - discriminate Hlen.
  - injection Hlen as Hlen. rewrite <- Hlen. split; reflexivity.
  - injection Hlen as Hlen. congruence.
  - injection Hlen as Hlen. rewrite <- Hlen. split; reflexivity.
Qed.



(** ** What a run never raises *)

Lemma avoids_bind {A B} (e : Exception) (c : M A) (g : A -> M B) :
  avoids e c -> (forall a, avoids e (g a)) -> avoids e (bind c g).
Proof.
  intros Hc Hg s. unfold bind. specialize (Hc s).
  destruct (c s) as [[a|e'|] s1]; cbn [fst] in *;
    [apply Hg | intros H; apply Hc; congruence | discriminate].
Qed.

Lemma avoids_ret {A} (e : Exception) (a : A) : avoids e (ret a).
Proof. intros s. discriminate. Qed.

Lemma avoids_raise {A} (e e' : Exception) : e' <> e -> avoids e (@raise _ A e').
Proof. intros H s. cbn. congruence. Qed.

Lemma avoids_gets {A} (e : Exception) (g : Store -> A) : avoids e (gets g).
Proof. intros s. discriminate. Qed.

Lemma avoids_modify (e : Exception) (g : Store -> Store) : avoids e (modify g).
Proof. intros s. discriminate. Qed.

Lemma avoids_required {A} (e : Exception) (o : option A) :
  SqlError <> e -> avoids e (required o).
Proof. intros H s. destruct o; cbn; congruence. Qed.

Lemma avoids_check_limit (e : Exception) (n : Z) :
  SqlError <> e -> avoids e (check_limit n).
Proof. intros H s. unfold check_limit. destruct (n <? 0); cbn; congruence. Qed.

Ltac avoid_step :=
  match goal with
  | |- avoids _ (bind _ _) => apply avoids_bind; [|intros]
  | |- avoids _ (ret _) => apply avoids_ret
  | |- avoids _ (raise _) => apply avoids_raise; discriminate
  | |- avoids _ (plpy_error _) => apply avoids_raise; discriminate
  | |- avoids _ (gets _) => apply avoids_gets
  | |- avoids _ (modify _) => apply avoids_modify
  | |- avoids _ (info _) => apply avoids_modify
  | |- avoids _ (required _) => apply avoids_required; discriminate
  | |- avoids _ (check_limit _) => apply avoids_check_limit; discriminate
  | |- avoids _ (match ?x with _ => _ end) => destruct x
  | |- avoids _ (let (_, _) := ?x in _) => destruct x
  end.

Ltac avoid := repeat avoid_step.

Lemma avoids_validate_input (e : Exception) (cat : Catalog) (input_table : string) (k : Z) :
  (forall x, e <> Plpy x) -> e <> PyValueError ->
  avoids e (validate_input cat input_table k).
Proof.
  intros Hp Hv. unfold validate_input.
  repeat first [ avoid_step
               | apply avoids_raise; first [ intros <-; eapply Hp; reflexivity
                                           | congruence ] ].
Qed.

Lemma avoids_validate_options (e : Exception) (cat : Catalog) (g : Z) (r o : string) :
  (forall x, e <> Plpy x) -> avoids e (validate_options cat g r o).
Proof.
  intros Hp. unfold validate_options.
  repeat first [ avoid_step
               | apply avoids_raise; intros <-; eapply Hp; reflexivity ].
Qed.

Lemma avoids_index_insert_centroids (rows : list CentroidRow) :
  avoids PyIndexError (insert_centroids rows).
Proof. unfold insert_centroids. avoid. Qed.

Lemma avoids_index_seed_remaining (fuel : nat) (input : list Point) (k i : Z) :
  avoids PyIndexError (seed_remaining fuel input k i).
Proof.
  revert i. induction fuel as [|fuel IH]; intros i; cbn [seed_remaining];
    destruct (i <? k); try apply avoids_ret.
  - intros s. discriminate.
  - avoid; [apply avoids_index_insert_centroids | apply IH].
Qed.

Lemma avoids_index_kmeans_init (input : list Point) (k : Z) :
  avoids PyIndexError (__kmeans_init input k).
Proof.
  unfold __kmeans_init.
  avoid; [apply avoids_index_insert_centroids | apply avoids_index_seed_remaining].
Qed.

Lemma avoids_index_prepare (input : list Point) (k : Z) :
  avoids PyIndexError (prepare_working_set input k).
Proof. unfold prepare_working_set, create_TempTable. avoid. Qed.

Lemma avoids_index_write_output (expand : bool) (input : list Point) :
  avoids PyIndexError (write_output expand input).
Proof. unfold write_output, insert_points. avoid. Qed.

Lemma avoids_index_goodness_test (goodness : Z) :
  avoids PyIndexError (goodness_test goodness).
Proof. unfold goodness_test. avoid. Qed.

(** Composition of triples. *)
Lemma triple_bind {A B} (e : Exception) (P : Store -> Prop) (c : M A)
    (R : A -> Store -> Prop) (g : A -> M B) (Q : B -> Store -> Prop) :
  triple e P c R -> (forall a, triple e (R a) (g a) Q) -> triple e P (bind c g) Q.
Proof.
  intros Hc Hg s Hs. unfold bind. specialize (Hc s Hs).
  destruct (c s) as [[a|e'|] s1]; [apply (Hg a s1 Hc) | exact Hc | exact I].
Qed.

Lemma triple_avoids {A} (e : Exception) (P : Store -> Prop) (c : M A) :
  avoids e c -> triple e P c (fun _ _ => True).
Proof.
  intros Hc s _. specialize (Hc s).
  destruct (c s) as [[a|e'|] s1]; cbn [fst] in Hc; [exact I | congruence | exact I].
Qed.

Lemma triple_keeps {A T} (e : Exception) (f : Store -> T) (v : T) (c : M A) :
  keeps f c -> avoids e c ->
  triple e (fun s => f s = v) c (fun _ s => f s = v).
Proof.
  intros Hk Hc s Hs. specialize (Hc s). specialize (Hk s).
  destruct (c s) as [[a|e'|] s1]; cbn [fst snd] in *; [congruence | congruence | exact I].
Qed.

Lemma triple_weaken {A} (e : Exception) (P P' : Store -> Prop) (c : M A)
    (Q Q' : A -> Store -> Prop) :
  triple e P' c Q' -> (forall s, P s -> P' s) -> (forall a s, Q' a s -> Q a s) ->
  triple e P c Q.
Proof.
  intros Hc HP HQ s Hs. specialize (Hc s (HP s Hs)).
  destruct (c s) as [[a|e'|] s1]; [apply HQ; exact Hc | exact Hc | exact I].
Qed.

Lemma triple_apply {A} (e : Exception) (P : Store -> Prop) (c : M A)
    (Q : A -> Store -> Prop) (s : Store) :
  triple e P c Q -> P s -> fst (c s) <> Raise e.
Proof.
  intros Hc Hs. specialize (Hc s Hs).
  destruct (c s) as [[a|e'|] s1]; cbn [fst]; [discriminate | congruence | discriminate].
Qed.

(** The indices of the exit conditions are in range when the tracking
    variable has one entry per pass. *)
Lemma exit_conditions_in_range (i max_iter : Z) (s : Store) :
  1 <= i -> Z.of_nat (List.length (change_pct s)) = i ->
  fst (exit_conditions i max_iter s) <> Raise PyIndexError.
Proof.
  intros Hi Hlen.
  assert (Hnth : forall n, 0 <= n < i -> exists a, py_index (change_pct s) n = ret a).
  { intros n Hn.
    destruct (nth_error (change_pct s) (Z.to_nat n)) as [a|] eqn:E.
    - exists a. apply py_index_nth; [lia | exact E].
    - apply nth_error_None in E. lia. }
  destruct (Hnth (i - 1)) as (d & Hd); [lia|].
  unfold exit_conditions. unfold bind at 1. unfold gets at 1. cbv beta iota.
  destruct (Z.ltb_spec 3 i) as [H3|H3].
  - destruct (Hnth (i - 4)) as (a & Ha); [lia|].
    destruct (Hnth (i - 3)) as (b & Hb); [lia|].
    destruct (Hnth (i - 2)) as (c & Hc); [lia|].
    rewrite Ha, Hb, Hc, Hd. unfold bind, ret, info, modify.
    destruct (Qltb (a - d) 0); cbn [fst]; [discriminate|].
    destruct (Qltb d change_pct_limit); cbn [fst]; [discriminate|].
    destruct (i =? max_iter); cbn [fst]; discriminate.
  - rewrite Hd. unfold bind, ret, info, modify.
    destruct (Qltb d change_pct_limit); cbn [fst]; [discriminate|].
    destruct (i =? max_iter); cbn [fst]; discriminate.
Qed.

Lemma iteration_tracked (k p_count max_iter : Z) (s : Store) :
  tracked s ->
  match iteration k p_count max_iter s with
  | (Ret _, s') => tracked s'
  | (Raise e, _) => e <> PyIndexError
  | (OutOfFuel, _) => True
  end.
Proof.
  intros [H0 Hlen].
  pose proof (iteration_facts k p_count max_iter s) as Hf. cbv zeta in Hf.
  pose proof (iteration_counts k p_count max_iter s) as (Hi & _ & _ & _).
  destruct (iteration k p_count max_iter s) as [o s1] eqn:E. cbn [fst snd] in *.
  assert (Hcase : (exists d, o = Ret d) \/ o = Raise PyIndexError ->
                  tracked s1 /\ o <> Raise PyIndexError).
  { intros Ho.
    destruct Hf as (cs & prev & _ & _ & _ & _ & _ & _ & Hc).
    { destruct Ho as [[d ->]| ->]; discriminate. }
    destruct Hc as [(H1 & sum & _ & Hcp & s2 & Hs2 & He)
                   |[(_ & _ & _ & Ht)|(H1 & Hcp & s2 & Hs2 & He)]].
    - assert (Hl : Z.of_nat (List.length (change_pct s1)) = loop_i s + 1).
      { rewrite Hcp, length_app. cbn [List.length]. lia. }
      split; [split; [lia | lia]|].
      pose proof (exit_conditions_in_range (loop_i s + 1) max_iter s2) as Hr.
      rewrite He in Hr. cbn [fst] in Hr. apply Hr; [lia | congruence].
    - destruct Ho as [[d ->]| ->]; discriminate.
    - assert (Hl : Z.of_nat (List.length (change_pct s1)) = loop_i s + 1)
        by (rewrite Hcp; lia).
      split; [split; [lia | lia]|].
      pose proof (exit_conditions_in_range (loop_i s + 1) max_iter s2) as Hr.
      rewrite He in Hr. cbn [fst] in Hr. apply Hr; [lia | congruence]. }
  destruct o as [d|e|]; [apply Hcase; eauto | | exact I].
  intros ->. apply Hcase; [right; reflexivity | reflexivity].
Qed.

Lemma main_loop_tracked (k p_count max_iter : Z) (fuel : nat) :
  triple PyIndexError tracked (main_loop fuel k p_count max_iter) (fun _ _ => True).
Proof.
  intros s Hs.
  pose proof (main_loop_rule k p_count max_iter tracked
                (fun o _ => o <> Raise PyIndexError)) as Hr.
  cbv beta in Hr. specialize (fun H => Hr H fuel s Hs).
  destruct (main_loop fuel k p_count max_iter s) as [[[]|e|] s'];
    [exact I | | exact I].
  intros ->. apply Hr; [|reflexivity].
  intros s1 H1. pose proof (iteration_tracked k p_count max_iter s1 H1) as Ht.
  destruct (iteration k p_count max_iter s1) as [[[|]|e|] s1'];
    [discriminate | exact Ht | congruence | exact I].
Qed.

Lemma cluster_avoids_index (fuel : nat) (max_iter : Z) (input : list Point)
    (k goodness : Z) :
  triple PyIndexError (fun s => change_pct s = [100%Q])
    (cluster fuel max_iter input k goodness) (fun _ _ => True).
Proof.
  unfold cluster.
  eapply triple_bind;
    [apply triple_keeps; [apply keeps_change_pct_kmeans_init
                         | apply avoids_index_kmeans_init]|].
  intros c_count. cbv beta.
  eapply triple_bind; [apply triple_keeps; [frame | avoid]|].
  intros ?. cbv beta.
  eapply triple_bind;
    [apply triple_keeps; [apply keeps_change_pct_prepare | apply avoids_index_prepare]|].
  intros expand. cbv beta.
  apply triple_bind with (R := fun _ s => tracked s).
  { intros s Hs. cbn. unfold tracked. destruct s as [op oc temps ar lg li cp].
    cbn in *. subst cp. cbn. lia. }
  intros ?.
  eapply triple_bind; [apply main_loop_tracked|].
  intros ?. cbv beta. apply triple_avoids.
  avoid; [apply avoids_index_write_output | apply avoids_index_goodness_test].
Qed.

(** X8. A run never dies of an index out of range: whatever the catalog, the
    arguments, the iteration bound, the random draws and the state of the
    session, the entries [change_pct[i-4]] to [change_pct[i-1]] that the exit
    conditions read exist when they are read. *)
Theorem exit_conditions_never_out_of_range :
  forall (fuel : nat) (max_iter : Z) (cat : Catalog) (input_table : string)
         (k goodness : Z) (run_id output_schema : string) (s : Store),
    fst (kmeans_run_with fuel max_iter cat input_table k goodness
           run_id output_schema s) <> Raise PyIndexError.
Proof.
  intros fuel max_iter cat input_table k goodness run_id output_schema s.
  rewrite kmeans_run_with_unfold.
  apply (triple_apply PyIndexError (fun s => change_pct s = [100%Q]) _ (fun _ _ => True));
    [|destruct s; reflexivity].
  eapply triple_bind;
    [apply triple_keeps; [apply keeps_change_pct_validate_input
                         | apply avoids_validate_input; discriminate]|].
  intros input. cbv beta.
  eapply triple_bind;
    [apply triple_keeps; [apply keeps_change_pct_validate_options
                         | apply avoids_validate_options; discriminate]|].
  intros ?. cbv beta. apply cluster_avoids_index.
Qed.

(** ** Every relation is created before it is read *)

Lemma temp_lookup_drop_same (n : Z) (tt : list (Z * list PointRow)) :
  temp_lookup n (temp_drop n tt) = None.
Proof.
  unfold temp_lookup, temp_drop.
  induction tt as [|e r IH]; cbn [filter find]; [reflexivity|].
  destruct (Z.eqb_spec (fst e) n) as [Hn|Hn]; cbn [negb find]; [exact IH|].
  destruct (Z.eqb_spec (fst e) n); [contradiction | exact IH].
Qed.

Lemma sample_size_nonneg (k : Z) : 0 <= numCentroids_of k -> 0 <= sample_size_of k.
Proof. unfold sample_size_of, sampling_size, max_sample_size. lia. Qed.

Lemma seed_remaining_ready (fuel : nat) (input : list Point) (k i : Z) :
  0 <= numCentroids_of k ->
  triple SqlError (fun s => output_centroids s <> None)
    (seed_remaining fuel input k i) (fun _ s => output_centroids s <> None).
Proof.
  intros Hn. revert i. induction fuel as [|fuel IH]; intros i s Hs;
    cbn [seed_remaining]; destruct (i <? k); try exact Hs; [exact I|].
  destruct s as [op oc temps ar lg li cp]. cbn [output_centroids] in Hs.
  destruct oc as [cs|]; [|contradiction].
  unfold check_limit, insert_centroids.
  destruct (Z.ltb_spec (numCentroids_of k) 0) as [|_]; [lia|].
  store_cbv. apply IH. discriminate.
Qed.

Lemma kmeans_init_ready (input : list Point) (k : Z) :
  0 <= numCentroids_of k ->
  triple SqlError (fun _ => True) (__kmeans_init input k)
    (fun _ s => output_points s <> None /\ output_centroids s <> None).
Proof.
  intros Hn s _.
  pose proof (kmeans_init_output_points input k s) as Hop.
  assert (Hc : match __kmeans_init input k s with
               | (Ret _, s') => output_centroids s' <> None
               | (Raise e', _) => e' <> SqlError
               | (OutOfFuel, _) => True
               end).
  { destruct s as [op oc temps ar lg li cp].
    unfold __kmeans_init, insert_centroids. store_cbv.
    apply (seed_remaining_ready _ input k 1 Hn). discriminate. }
  destruct (__kmeans_init input k s) as [[c|e|] s']; cbn [snd] in Hop;
    [|exact Hc | exact I].
  split; [congruence | exact Hc].
Qed.

Lemma prepare_ready (input : list Point) (k : Z) :
  0 <= numCentroids_of k ->
  triple SqlError (fun s => output_points s <> None /\ output_centroids s <> None)
    (prepare_working_set input k)
    (fun _ s => output_points s <> None /\ output_centroids s <> None /\
                temp_lookup 0 (TempTable s) <> None).
Proof.
  intros Hn s [Hp Hc]. apply sample_size_nonneg in Hn.
  destruct s as [op oc temps ar lg li cp]. cbn [output_points output_centroids] in *.
  unfold prepare_working_set, create_TempTable, check_limit.
  destruct (Z.ltb_spec (sample_size_of k) 0) as [|_]; [lia|].
  destruct ((sampling =? 1) && _)%bool; store_cbv;
    rewrite temp_lookup_head; repeat split; (assumption || discriminate).
Qed.

Lemma iteration_ready (k p_count max_iter : Z) (s : Store) :
  0 <= k -> loop_ready s ->
  match iteration k p_count max_iter s with
  | (Ret _, s') => loop_ready s' /\ ArrayOfCentroids s' <> None
  | (Raise e, _) => e <> SqlError
  | (OutOfFuel, _) => True
  end.
Proof.
  intros Hk (Hp & Hc & Ht).
  pose proof (iteration_shape k p_count max_iter s) as Hs. cbv zeta in Hs.
  replace (loop_i s + 1 - 1) with (loop_i s) in Hs by lia.
  destruct (output_centroids s) as [cs|]; [|contradiction].
  destruct (temp_lookup (loop_i s) (TempTable s)) as [prev|]; [|contradiction].
  destruct (Z.ltb_spec k 0) as [|_]; [lia|].
  set (i := loop_i s + 1) in *.
  set (cur := assign_rows (centroid_array k cs) prev) in *.
  assert (Hexit : forall s2 : Store,
             output_points s2 = output_points s ->
             output_centroids s2 = Some (mean_positions cur) ->
             TempTable s2 = temp_drop (i - 1) ((i, cur) :: temp_drop i (TempTable s)) ->
             ArrayOfCentroids s2 = Some (centroid_array k cs) ->
             loop_i s2 = i ->
             match exit_conditions i max_iter s2 with
             | (Ret _, s') => loop_ready s' /\ ArrayOfCentroids s' <> None
             | (Raise e, _) => e <> SqlError
             | (OutOfFuel, _) => True
             end).
  { intros s2 H1 H2 H3 H4 H5.
    destruct (exit_conditions_frame i max_iter s2) as (_ & _ & Ho).
    destruct (exit_conditions_fields i max_iter s2) as (F1 & F2 & F3 & F4 & F5 & _).
    destruct (exit_conditions i max_iter s2) as [[d|e|] s']; cbn [fst snd] in *.
    - unfold loop_ready. rewrite F1, F2, F3, F4, F5, H1, H2, H3, H4, H5.
      rewrite temp_lookup_drop_other by lia. rewrite temp_lookup_head.
      repeat split; (assumption || discriminate).
    - destruct Ho as [[d Hd]|Hd]; [discriminate Hd|].
      injection Hd as ->. discriminate.
    - exact I. }
  rewrite Hs. clear Hs.
  destruct (1 <? i).
  - destruct (changed_sum cur prev); [|discriminate].
    apply Hexit; reflexivity.
  - apply Hexit; reflexivity.
Qed.

Lemma main_loop_ready (k p_count max_iter : Z) (fuel : nat) :
  0 <= k ->
  triple SqlError loop_ready (main_loop fuel k p_count max_iter)
    (fun _ s => loop_ready s /\ ArrayOfCentroids s <> None).
Proof.
  intros Hk s Hs.
  pose proof (main_loop_rule k p_count max_iter loop_ready
                (fun o s' => match o with
                             | Ret _ => loop_ready s' /\ ArrayOfCentroids s' <> None
                             | Raise e => e <> SqlError
                             | OutOfFuel => True
                             end)) as Hr.
  cbv beta in Hr. specialize (fun H => Hr H fuel s Hs).
  assert (Hstep : forall s1, loop_ready s1 ->
             match iteration k p_count max_iter s1 with
             | (Ret false, s') => loop_ready s'
             | (Ret true, s') => loop_ready s' /\ ArrayOfCentroids s' <> None
             | (Raise e, _) => e <> SqlError
             | (OutOfFuel, _) => True
             end).
  { intros s1 H1. pose proof (iteration_ready k p_count max_iter s1 Hk H1) as Hi.
    destruct (iteration k p_count max_iter s1) as [[[|]|e|] s1'];
      [exact Hi | apply Hi | exact Hi | exact I]. }
  specialize (Hr Hstep).
  destruct (main_loop fuel k p_count max_iter s) as [[[]|e|] s'];
    [exact Hr | exact Hr | exact I].
Qed.

Lemma write_output_ready (expand : bool) (input : list Point) :
  triple SqlError (fun s => loop_ready s /\ ArrayOfCentroids s <> None)
    (write_output expand input)
    (fun _ s => output_points s <> None /\ output_centroids s <> None).
Proof.
  intros s [(Hp & Hc & Ht) Ha].
  destruct s as [op oc temps ar lg li cp].
  cbn [output_points output_centroids TempTable loop_i ArrayOfCentroids] in *.
  unfold write_output, insert_points.
  destruct op as [ps|]; [|contradiction].
  destruct ar as [arr|]; [|contradiction].
  destruct expand; store_cbv.
  - split; (assumption || discriminate).
  - destruct (temp_lookup li temps) as [rows|]; [|contradiction].
    split; (assumption || discriminate).
Qed.

Lemma goodness_test_ready (goodness : Z) :
  triple SqlError (fun s => output_points s <> None /\ output_centroids s <> None)
    (goodness_test goodness) (fun _ s => output_centroids s <> None).
Proof.
  intros s [Hp Hc].
  destruct s as [op oc temps ar lg li cp]. cbn [output_points output_centroids] in *.
  unfold goodness_test. store_cbv.
  destruct op as [ps|]; [|contradiction].
  destruct oc as [cs|]; [|contradiction].
  destruct (goodness =? 1); store_cbv; discriminate.
Qed.

Lemma cluster_ready (fuel : nat) (max_iter : Z) (input : list Point) (k goodness : Z) :
  0 <= k -> 0 <= numCentroids_of k ->
  triple SqlError (fun _ => True) (cluster fuel max_iter input k goodness)
    (fun _ _ => True).
Proof.
  intros Hk Hn. unfold cluster.
  eapply triple_bind; [apply kmeans_init_ready; exact Hn|].
  intros c_count. cbv beta.
  apply triple_bind
    with (R := fun _ s => output_points s <> None /\ output_centroids s <> None).
  { intros s Hs. destruct (negb (c_count =? k)); cbn; [discriminate | exact Hs]. }
  intros ?.
  eapply triple_bind; [apply prepare_ready; exact Hn|].
  intros expand. cbv beta.
  apply triple_bind with (R := fun _ s => loop_ready s).
  { intros s Hs. destruct s as [op oc temps ar lg li cp]. exact Hs. }
  intros ?.
  eapply triple_bind; [apply main_loop_ready; exact Hk|].
  intros ?. cbv beta.
  eapply triple_bind; [apply write_output_ready|].
  intros ?. cbv beta.
  eapply triple_bind; [apply goodness_test_ready|].
  intros g. cbv beta.
  intros s Hs. destruct s as [op oc temps ar lg li cp]. cbn [output_centroids] in Hs.
  destruct oc as [cs|]; [|contradiction]. store_cbv. exact I.
Qed.

(** X9. Every relation a run reads has been created by the run before: with
    a candidate pool size that is not negative (so that every LIMIT is
    accepted), no statement of [kmeans_run] fails on a missing relation,
    whatever relations the session holds or lacks when the call is made. *)
Theorem relations_exist_when_read :
  forall (fuel : nat) (max_iter : Z) (cat : Catalog) (input_table : string)
         (k goodness : Z) (run_id output_schema : string) (s : Store),
    0 <= numCentroids_of k ->
    fst (kmeans_run_with fuel max_iter cat input_table k goodness
           run_id output_schema s) <> Raise SqlError.
Proof.
  intros fuel max_iter cat input_table k goodness run_id output_schema s Hn.
  rewrite kmeans_run_with_unfold.
  apply (triple_apply SqlError (fun _ => True) _ (fun _ _ => True)); [|exact I].
  apply triple_bind with (R := fun _ _ => 0 <= k).
  { intros s0 _.
    pose proof (avoids_validate_input SqlError cat input_table k) as Ha.
    specialize (Ha ltac:(discriminate) ltac:(discriminate) s0).
    destruct (validate_input cat input_table k s0) as [[rows|e|] s1] eqn:E;
      cbn [fst] in Ha; [|congruence | exact I].
    apply validate_input_ret in E. lia. }
  intros input.
  apply triple_bind with (R := fun _ _ => 0 <= k).
  { intros s0 Hk.
    pose proof (avoids_validate_options SqlError cat goodness run_id output_schema) as Ha.
    specialize (Ha ltac:(discriminate) s0).
    destruct (validate_options cat goodness run_id output_schema s0) as [[[]|e|] s1];
      cbn [fst] in Ha; [exact Hk | congruence | exact I]. }
  intros ?.
  intros s0 Hk. apply (cluster_ready fuel max_iter input k goodness Hk Hn s0 I).
Qed.

(** ** Leaving the loop on a small change *)



(** ** Clusters that keep their sizes *)





(** ** The array of centroids *)

Lemma filter_absent (cs : list CentroidRow) (x : Z) :
  ~ In x (map cid cs) -> filter (fun c => cid c =? x) cs = [].
Proof.
  induction cs as [|c cs IH]; cbn [map In filter]; [reflexivity|].
  intros H. destruct (Z.eqb_spec (cid c) x) as [He|_]; [tauto|].
  apply IH. tauto.
Qed.

Lemma filter_find_unique (cs : list CentroidRow) (x : Z) :
  NoDup (map cid cs) ->
  filter (fun c => cid c =? x) cs
  = match find (fun c => cid c =? x) cs with Some c => [c] | None => [] end.
Proof.
  induction cs as [|c cs IH]; cbn [map filter find]; [reflexivity|].
  intros Hnd. inversion Hnd as [|? ? Hnotin Hnd']; subst.
  destruct (Z.eqb_spec (cid c) x) as [He|_]; [|exact (IH Hnd')].
  rewrite filter_absent by congruence. reflexivity.
Qed.

Lemma flat_map_singletons {A B} (f : A -> list B) (g : A -> B) (l : list A) :
  (forall x, f x = [g x]) -> flat_map f l = map g l.
Proof.
  intros H. induction l as [|x l IH]; cbn [flat_map map]; [reflexivity|].
  rewrite H, IH. reflexivity.
Qed.

Lemma generate_series_length (a b : Z) :
  List.length (generate_series a b) = Z.to_nat (b - a + 1).
Proof. unfold generate_series. rewrite length_map, length_seq. reflexivity. Qed.

Lemma generate_series_nth (a b : Z) (n : nat) :
  (n < Z.to_nat (b - a + 1))%nat ->
  nth_error (generate_series a b) n = Some (a + Z.of_nat n).
Proof.
  intros Hn. unfold generate_series. rewrite nth_error_map.
  assert (Hseq : forall len start, (n < len)%nat ->
                   nth_error (seq start len) n = Some (start + n)%nat).
  { clear. revert n. induction n as [|n IH]; intros len start Hlt;
      (destruct len as [|len]; [lia|]); cbn [seq nth_error].
    - f_equal. lia.
    - rewrite IH by lia. f_equal. lia. }
  rewrite Hseq by exact Hn. reflexivity.
Qed.

Lemma centroid_array_map (k : Z) (cs : list CentroidRow) :
  NoDup (map cid cs) ->
  centroid_array k cs
  = map (fun x => option_map c_position (find (fun c => cid c =? x) cs))
        (generate_series 1 k).
Proof.
  intros Hnd. unfold centroid_array, limit.
  rewrite (flat_map_singletons _
             (fun x => option_map c_position (find (fun c => cid c =? x) cs))).
  - apply firstn_all2. rewrite length_map, generate_series_length. lia.
  - intros x. rewrite (filter_find_unique cs x Hnd).
    destruct (find (fun c => cid c =? x) cs); reflexivity.
Qed.

(** X12. When the centroids table holds at most one row per centroid id, the
    array built at the head of a pass has exactly k entries, and its entry x
    (counted from 1) is the position of the centroid with id x, or NULL when
    the table has no row for x: the index that [_kmeans_closestID] returns is
    a centroid id. *)
Theorem centroid_array_is_indexed_by_cid :
  forall (k : Z) (cs : list CentroidRow),
    NoDup (map cid cs) ->
    List.length (centroid_array k cs) = Z.to_nat k /\
    forall x, 1 <= x <= k ->
      nth_error (centroid_array k cs) (Z.to_nat (x - 1))
      = Some (option_map c_position (find (fun c => cid c =? x) cs)).
Proof.
  intros k cs Hnd. rewrite (centroid_array_map k cs Hnd). split.
  - rewrite length_map, generate_series_length. f_equal. lia.
  - intros x Hx. rewrite nth_error_map, generate_series_nth by lia.
    cbn [option_map].
    replace (1 + Z.of_nat (Z.to_nat (x - 1))) with x by lia. reflexivity.
Qed.

(** ** The working set *)

Lemma NoDup_firstn {A} (n : nat) (l : list A) : NoDup l -> NoDup (firstn n l).
Proof.
  intros H. rewrite <- (firstn_skipn n l) in H. exact (NoDup_app_remove_r _ _ H).
Qed.


(** ** The candidate that seeds a centroid *)

Lemma group_keys_NoDup_id (l : list Z) : NoDup l -> group_keys l = l.
Proof.
  induction 1 as [|x l Hx _ IH]; cbn [group_keys]; [reflexivity|].
  destruct (mem x l) eqn:Hm; [apply mem_In in Hm; contradiction|].
  rewrite IH. reflexivity.
Qed.

Lemma flat_map_unique_pid {B} (f : Point -> list B) (pool : list Point) (p : Point) :
  NoDup (map pid pool) -> In p pool ->
  flat_map (fun q => if pid q =? pid p then f q else []) pool = f p.
Proof.
  induction pool as [|q pool IH]; cbn [map In flat_map]; [contradiction|].
  intros Hnd Hin. inversion Hnd as [|? ? Hnotin Hnd']; subst.
  assert (Hrest : forall l : list Point,
             ~ In (pid p) (map pid l) ->
             flat_map (fun q => if pid q =? pid p then f q else []) l = []).
  { induction l as [|a l IHl]; cbn [map In flat_map]; [reflexivity|].
    intros H. destruct (Z.eqb_spec (pid a) (pid p)); [tauto|].
    apply IHl. tauto. }
  destruct Hin as [->|Hin].
  - rewrite Z.eqb_refl, (Hrest pool Hnotin). apply app_nil_r.
  - destruct (Z.eqb_spec (pid q) (pid p)) as [He|_].
    + exfalso. apply Hnotin. rewrite He. apply in_map. exact Hin.
    + apply IH; assumption.
Qed.

Lemma candidate_distances_weights (i : Z) (pool : list Point) (cs : list CentroidRow) :
  NoDup (map pid pool) ->
  (forall p w, In p pool -> seed_weight i cs p = Some w ->
               In (pid p, w) (candidate_distances i pool cs)) /\
  (forall pc, In pc (candidate_distances i pool cs) ->
              exists p, In p pool /\ fst pc = pid p /\ seed_weight i cs p = Some (snd pc)).
Proof.
  intros Hnd. unfold candidate_distances. rewrite (group_keys_NoDup_id _ Hnd).
  split.
  - intros p w Hp Hw. apply in_flat_map. exists (pid p).
    split; [apply in_map; exact Hp|].
    rewrite (flat_map_unique_pid _ pool p Hnd Hp).
    unfold seed_weight in Hw.
    destruct (sql_min _) as [m|]; cbn [option_map] in Hw; [|discriminate].
    injection Hw as <-. left. reflexivity.
  - intros pc Hpc. apply in_flat_map in Hpc. destruct Hpc as (g & Hg & Hpc).
    apply in_map_iff in Hg. destruct Hg as (p & <- & Hp).
    rewrite (flat_map_unique_pid _ pool p Hnd Hp) in Hpc.
    exists p. split; [exact Hp|]. unfold seed_weight.
    destruct (sql_min _) as [m|]; [|contradiction].
    destruct Hpc as [<-|[]]. split; reflexivity.
Qed.

Lemma order_desc_limit_1_max (l : list (Z * Q)) (pc : Z * Q) :
  order_desc_limit_1 l = Some pc ->
  forall y, In y l -> (snd y <= snd pc)%Q.
Proof.
  destruct l as [|x r]; [discriminate|]. unfold order_desc_limit_1.
  intros H. injection H as <-.
  assert (Hfold : forall (r : list (Z * Q)) x0,
             let res := fold_left (fun m y => if Qltb (snd m) (snd y) then y else m) r x0 in
             (snd x0 <= snd res)%Q /\ forall y, In y r -> (snd y <= snd res)%Q).
  { clear. induction r as [|y r IH]; intros x0; cbn [fold_left]; cbv zeta.
    - split; [apply Qle_refl | contradiction].
    - specialize (IH (if Qltb (snd x0) (snd y) then y else x0)). cbv zeta in IH.
      destruct IH as (Hm & Hall).
      destruct (Qltb (snd x0) (snd y)) eqn:E.
      + apply Qltb_lt in E. split.
        * apply Qle_trans with (snd y); [apply Qlt_le_weak; exact E | exact Hm].
        * intros z [<-|Hz]; [exact Hm | apply Hall; exact Hz].
      + assert (Hle : (snd y <= snd x0)%Q).
        { apply Qnot_lt_le. intros Hlt. apply Qltb_lt in Hlt. congruence. }
        split; [exact Hm|].
        intros z [<-|Hz]; [apply Qle_trans with (snd x0); assumption | apply Hall; exact Hz]. }
  destruct (Hfold r x) as (H1 & H2).
  intros y [<-|Hy]; [exact H1 | exact (H2 y Hy)].
Qed.

(** X14. The statement that seeds centroid i, for a population of unique
    pids seen in a random order, takes its point from the candidate pool
    (the first [numCentroids] rows of that order), and the point it takes
    has the largest weight of the pool: no candidate has a larger product of
    its distance to the nearest current centroid and its random factor. *)
Theorem seeding_takes_the_heaviest_candidate :
  forall (input : list Point) (k i : Z) (cs : list CentroidRow),
    0 < numCentroids_of k ->
    Permutation (seed_order i input) input ->
    input <> [] -> NoDup (map pid input) -> cs <> [] ->
    exists pt w,
      In pt (limit (numCentroids_of k) (seed_order i input)) /\
      seed_statement input k i cs = [{| cid := i; c_position := position pt |}] /\
      seed_weight i cs pt = Some w /\
      forall p w', In p (limit (numCentroids_of k) (seed_order i input)) ->
                   seed_weight i cs p = Some w' -> (w' <= w)%Q.
Proof.
  intros input k i cs Hn Hperm Hne Hnd Hcs. unfold seed_statement.
  set (pool := limit (numCentroids_of k) (seed_order i input)).
  assert (Hpool : pool <> []).
  { unfold pool, limit. destruct (seed_order i input) as [|x l] eqn:E.
    - apply Permutation_nil in Hperm. congruence.
    - destruct (Z.to_nat (numCentroids_of k)) eqn:En; [lia | discriminate]. }
  assert (Hsub : forall p, In p pool -> In p input).
  { intros p Hp. apply (Permutation_in _ Hperm). exact (limit_In _ _ _ Hp). }
  assert (Hndp : NoDup (map pid pool)).
  { unfold pool, limit. rewrite <- firstn_map. apply NoDup_firstn.
    apply (Permutation_NoDup (l := map pid input)); [|exact Hnd].
    apply Permutation_map. symmetry. exact Hperm. }
  destruct (candidate_distances_keys i pool cs Hpool Hcs) as (Hcand & _).
  destruct (candidate_distances_weights i pool cs Hndp) as (Hw1 & Hw2).
  destruct (order_desc_limit_1_In _ Hcand) as (pc & Hsel & Hpc).
  rewrite Hsel.
  destruct (Hw2 pc Hpc) as (pt & Hpt & Hfst & Hwt).
  assert (Hin : In (fst pc) (map pid input))
    by (rewrite Hfst; apply in_map; apply Hsub; exact Hpt).
  destruct (filter_unique_pid input (fst pc) Hnd Hin) as (pt' & Hpt' & Hf).
  assert (Heq : pt' = pt).
  { assert (Hmem : In pt (filter (fun q => pid q =? fst pc) input)).
    { apply filter_In. split; [apply Hsub; exact Hpt | apply Z.eqb_eq; congruence]. }
    rewrite Hf in Hmem. destruct Hmem as [H|[]]. exact H. }
  subst pt'. exists pt, (snd pc).
  split; [exact Hpt|]. split; [rewrite Hf; reflexivity|]. split; [exact Hwt|].
  intros p w' Hp Hw'.
  exact (order_desc_limit_1_max _ _ Hsel (pid p, w') (Hw1 p w' Hp Hw')).
Qed.

(** ** The temporary tables a run leaves behind *)

Lemma keeps_TempTable_seed_remaining (input : list Point) (k : Z) (fuel : nat) (i : Z) :
  keeps TempTable (seed_remaining fuel input k i).
Proof.
  revert i. induction fuel as [|fuel IH]; intros i; cbn [seed_remaining];
    destruct (i <? k); try apply keeps_ret.
  - intros s. reflexivity.
  - unfold insert_centroids. frame. apply IH.
Qed.

Lemma keeps_TempTable_kmeans_init (input : list Point) (k : Z) :
  keeps TempTable (__kmeans_init input k).
Proof.
  unfold __kmeans_init, insert_centroids. frame. apply keeps_TempTable_seed_remaining.
Qed.

Lemma iteration_temps (k p_count max_iter : Z) (s s1 : Store) (done : bool) :
  iteration k p_count max_iter s = (Ret done, s1) ->
  loop_i s1 = loop_i s + 1 /\
  exists cur,
    TempTable s1
    = temp_drop (loop_i s) ((loop_i s + 1, cur) :: temp_drop (loop_i s + 1) (TempTable s)).
Proof.
  intros E.
  pose proof (iteration_counts k p_count max_iter s) as (Hi & _).
  rewrite E in Hi. cbn [snd] in Hi. split; [exact Hi|].
  pose proof (iteration_shape k p_count max_iter s) as Hs. cbv zeta in Hs.
  replace (loop_i s + 1 - 1) with (loop_i s) in Hs by lia.
  destruct (output_centroids s) as [cs|];
    [|rewrite E in Hs; discriminate Hs].
  destruct (temp_lookup (loop_i s) (TempTable s)) as [prev|];
    [|destruct (k <? 0); rewrite E in Hs; discriminate Hs].
  destruct (k <? 0); [rewrite E in Hs; discriminate Hs|].
  exists (assign_rows (centroid_array k cs) prev).
  rewrite E in Hs.
  assert (Hexit : forall s2 : Store,
             (Ret done, s1) = exit_conditions (loop_i s + 1) max_iter s2 ->
             TempTable s1 = TempTable s2).
  { intros s2 He.
    destruct (exit_conditions_fields (loop_i s + 1) max_iter s2) as (_ & _ & Ht & _).
    rewrite <- He in Ht. exact Ht. }
  assert (Hdrop : forall cp : list Q,
             TempTable (with_change_pct cp (refreshed k (loop_i s + 1) cs prev s))
             = temp_drop (loop_i s)
                 ((loop_i s + 1, assign_rows (centroid_array k cs) prev)
                  :: temp_drop (loop_i s + 1) (TempTable s))).
  { intros cp. unfold refreshed, with_change_pct, with_TempTable. cbn [TempTable].
    replace (loop_i s + 1 - 1) with (loop_i s) by lia. reflexivity. }
  destruct (1 <? loop_i s + 1).
  - destruct (changed_sum _ _); [|discriminate Hs].
    rewrite (Hexit _ Hs). apply Hdrop.
  - rewrite (Hexit _ Hs). apply (Hdrop (change_pct s)).
Qed.

Lemma iteration_swept (T : list (Z * list PointRow)) (k p_count max_iter : Z)
    (s s1 : Store) (done : bool) :
  swept T s -> iteration k p_count max_iter s = (Ret done, s1) -> swept T s1.
Proof.
  intros (H0 & Hs) E. apply iteration_temps in E. destruct E as (Hi & cur & Ht).
  split; [lia|]. intros j Hj. rewrite Ht, Hi in *.
  destruct (Z.eq_dec j (loop_i s)) as [->|Hne].
  - rewrite temp_lookup_drop_same.
    destruct (Z.leb_spec 0 (loop_i s)); [|lia].
    destruct (Z.ltb_spec (loop_i s) (loop_i s + 1)); [reflexivity | lia].
  - rewrite temp_lookup_drop_other, temp_lookup_tail, temp_lookup_drop_other by lia.
    rewrite (Hs j Hne).
    destruct (Z.leb_spec 0 j); cbn [andb]; [|reflexivity].
    destruct (Z.ltb_spec j (loop_i s)); destruct (Z.ltb_spec j (loop_i s + 1));
      (reflexivity || lia).
Qed.

Lemma main_loop_swept (T : list (Z * list PointRow)) (k p_count max_iter : Z)
    (fuel : nat) (s s' : Store) :
  swept T s -> main_loop fuel k p_count max_iter s = (Ret tt, s') -> swept T s'.
Proof.
  intros Hs E.
  pose proof (main_loop_rule k p_count max_iter (swept T)
                (fun o s1 => match o with Ret _ => swept T s1 | _ => True end)) as Hr.
  cbv beta in Hr. specialize (fun H => Hr H fuel s Hs). rewrite E in Hr.
  apply Hr. intros s1 H1.
  destruct (iteration k p_count max_iter s1) as [[[|]|e|] s1'] eqn:Ei;
    try exact I; exact (iteration_swept T _ _ _ _ _ _ H1 Ei).
Qed.

(** X15. A run that returns has dropped every temporary table it made but
    the last: TempTable0 up to the table before the last pass are gone, the
    table of the last pass and ArrayOfCentroids stay in the session, and a
    temporary table of any other index that the session held before the call
    is as it was. *)
Theorem temporary_tables_left_behind :
  forall (fuel : nat) (max_iter : Z) (cat : Catalog) (input_table : string)
         (k goodness : Z) (run_id output_schema : string) (s s' : Store) (r : Summary),
    kmeans_run_with fuel max_iter cat input_table k goodness run_id output_schema s
      = (Ret r, s') ->
    (forall j, j <> loop_i s' ->
       temp_lookup j (TempTable s')
       = if (0 <=? j) && (j <? loop_i s') then None else temp_lookup j (TempTable s)) /\
    temp_lookup (loop_i s') (TempTable s') <> None /\
    ArrayOfCentroids s' <> None.
Proof.
  intros fuel max_iter cat input_table k goodness run_id output_schema s s' r E.
  pose proof (kmeans_run_with_ret _ _ _ _ _ _ _ _ _ _ _ E)
    as (a & b & rel & _ & _ & _ & (cs_prev & Ha & Hl & _) & _).
  cbv zeta in Ha, Hl.
  split; [|split; [rewrite Hl; discriminate | rewrite Ha; discriminate]].
  rewrite kmeans_run_with_unfold in E.
  apply bind_ret_inv in E. destruct E as (input & s1 & E1 & E).
  apply bind_ret_inv in E. destruct E as ([] & s2 & E2 & E).
  pose proof (keeps_tables_validate_input cat input_table k
                (with_change_pct [100%Q] s)) as K1.
  rewrite E1 in K1. cbn [snd] in K1.
  pose proof (keeps_tables_validate_options cat goodness run_id output_schema s1) as K2.
  rewrite E2 in K2. cbn [snd] in K2.
  assert (HT2 : TempTable s2 = TempTable s).
  { unfold tables in K1, K2. destruct s. cbn in *. congruence. }
  clear K1 K2 E1 E2. unfold cluster in E.
  apply bind_ret_inv in E. destruct E as (c_count & s3 & E3 & E).
  apply bind_ret_inv in E. destruct E as ([] & s3' & Echeck & E).
  assert (s3' = s3) by (destruct (negb (c_count =? k)); inversion Echeck; reflexivity).
  subst s3'. clear Echeck.
  apply bind_ret_inv in E. destruct E as (expand & s4 & E4 & E).
  apply bind_ret_inv in E. destruct E as ([] & s5 & E5 & E).
  injection E5 as <-.
  apply bind_ret_inv in E. destruct E as ([] & s6 & E6 & E).
  apply bind_ret_inv in E. destruct E as ([] & s7 & E7 & E).
  apply bind_ret_inv in E. destruct E as (g & s8 & E8 & E).
  apply bind_ret_inv in E. destruct E as (oc & s9 & E9 & E).
  injection E9 as <- <-.
  apply bind_ret_inv in E. destruct E as (cs & s10 & E10 & E).
  injection E as _ Es.
  assert (s10 = s8) by (destruct (output_centroids s8); inversion E10; reflexivity).
  subst s10 s'. clear E10.
  pose proof (keeps_TempTable_kmeans_init input k s2) as HT3.
  rewrite E3 in HT3. cbn [snd] in HT3.
  apply prepare_ret in E4. destruct E4 as (_ & _ & HT4 & _).
  assert (Hswept : swept (TempTable s) (with_loop_i 0 s4)).
  { unfold swept, with_loop_i. cbn [loop_i TempTable]. split; [lia|].
    intros j Hj. rewrite HT4, temp_lookup_tail, temp_lookup_drop_other by lia.
    rewrite HT3, HT2.
    destruct (Z.leb_spec 0 j); cbn [andb]; [|reflexivity].
    destruct (Z.ltb_spec j 0); [lia | reflexivity]. }
  apply (main_loop_swept _ _ _ _ _ _ _ Hswept) in E6.
  apply write_output_ret in E7.
  destruct E7 as (ps & rows & _ & _ & _ & _ & HT7 & _ & Hi7 & _).
  apply goodness_test_ret in E8. destruct E8 as (Hsame & _).
  unfold locals_and_tables, tables in Hsame.
  injection Hsame as _ _ HT8 _ Hi8 _.
  destruct E6 as (_ & Hsw). intros j Hj.
  assert (Hi : loop_i s8 = loop_i s6) by congruence.
  assert (HT : TempTable s8 = TempTable s6) by congruence.
  rewrite HT. rewrite Hi in Hj |- *. apply Hsw. exact Hj.
Qed.

(** ** A run does not depend on what the session held *)

Lemma alike_bind {A B} (P : Store -> Store -> Prop) (c : M A)
    (R : A -> Store -> Store -> Prop) (g : A -> M B) (Q : B -> Store -> Store -> Prop) :
  alike P c R -> (forall a, alike (R a) (g a) Q) -> alike P (bind c g) Q.
Proof.
  intros Hc Hg s1 s2 Hs. unfold bind. destruct (Hc s1 s2 Hs) as (Ho & Hr).
  destruct (c s1) as [[a1|e1|] t1]; destruct (c s2) as [[a2|e2|] t2];
    cbn [fst snd] in *; try discriminate Ho.
  - injection Ho as <-. apply (Hg a1). apply Hr. reflexivity.
  - split; [congruence | discriminate].
  - split; [reflexivity | discriminate].
Qed.

Lemma alike_pure {A} (P : Store -> Store -> Prop) (c : M A) :
  (forall s1 s2, fst (c s1) = fst (c s2)) ->
  (forall s1 s2, P s1 s2 -> P (snd (c s1)) (snd (c s2))) ->
  alike P c (fun _ => P).
Proof. intros Ho Hp s1 s2 Hs. split; [apply Ho | intros a _; apply Hp; exact Hs]. Qed.

Lemma alike_validate_input (cat : Catalog) (input_table : string) (k : Z) :
  alike (fun s1 s2 => change_pct s1 = change_pct s2)
    (validate_input cat input_table k)
    (fun _ s1 s2 => change_pct s1 = change_pct s2).
Proof.
  apply alike_pure.
  - intros [op1 oc1 t1 a1 lg1 li1 cp1] [op2 oc2 t2 a2 lg2 li2 cp2].
    unfold validate_input. store_cbv.
    destruct (negb (0 <? k)); store_cbv; [reflexivity|].
    destruct (split "."%char input_table) as [|a [|b [|c l]]]; store_cbv;
      try reflexivity.
    destruct (relations cat a b) as [rel|]; store_cbv; [|reflexivity].
    split_cases; reflexivity.
  - intros s1 s2 H.
    rewrite !(keeps_change_pct_validate_input cat input_table k). exact H.
Qed.

Lemma alike_validate_options (cat : Catalog) (g : Z) (r o : string) :
  alike (fun s1 s2 => change_pct s1 = change_pct s2)
    (validate_options cat g r o)
    (fun _ s1 s2 => change_pct s1 = change_pct s2).
Proof.
  apply alike_pure.
  - intros [op1 oc1 t1 a1 lg1 li1 cp1] [op2 oc2 t2 a2 lg2 li2 cp2].
    unfold validate_options. store_cbv. split_cases; reflexivity.
  - intros s1 s2 H.
    rewrite !(keeps_change_pct_validate_options cat g r o). exact H.
Qed.

Lemma alike_seed_remaining (fuel : nat) (input : list Point) (k i : Z) :
  alike (fun s1 s2 => same_output s1 s2 /\ change_pct s1 = change_pct s2)
    (seed_remaining fuel input k i)
    (fun _ s1 s2 => same_output s1 s2 /\ change_pct s1 = change_pct s2).
Proof.
  revert i. induction fuel as [|fuel IH]; intros i s1 s2 Hs;
    cbn [seed_remaining]; destruct (i <? k);
    try (split; [reflexivity | intros a _; exact Hs]).
  destruct s1 as [op1 oc1 t1 a1 lg1 li1 cp1]; destruct s2 as [op2 oc2 t2 a2 lg2 li2 cp2].
  destruct Hs as ((Hp & Hc) & Hcp). cbn in Hp, Hc, Hcp. subst op2 oc2 cp2.
  unfold insert_centroids, check_limit. store_cbv.
  destruct oc1 as [cs|]; [|split; [reflexivity | discriminate]].
  destruct (numCentroids_of k <? 0); [split; [reflexivity | discriminate]|].
  store_cbv. apply IH. repeat split.
Qed.

Lemma alike_kmeans_init (input : list Point) (k : Z) :
  alike (fun s1 s2 => change_pct s1 = change_pct s2)
    (__kmeans_init input k)
    (fun _ s1 s2 => same_output s1 s2 /\ change_pct s1 = change_pct s2).
Proof.
  intros [op1 oc1 t1 a1 lg1 li1 cp1] [op2 oc2 t2 a2 lg2 li2 cp2] Hcp.
  cbn in Hcp. subst cp2.
  unfold __kmeans_init, insert_centroids. store_cbv.
  apply alike_seed_remaining. repeat split.
Qed.

Lemma alike_prepare (input : list Point) (k : Z) :
  alike (fun s1 s2 => same_output s1 s2 /\ change_pct s1 = change_pct s2)
    (prepare_working_set input k)
    (fun _ s1 s2 => same_output s1 s2 /\ change_pct s1 = change_pct s2 /\
                    temp_lookup 0 (TempTable s1) = temp_lookup 0 (TempTable s2)).
Proof.
  intros [op1 oc1 t1 a1 lg1 li1 cp1] [op2 oc2 t2 a2 lg2 li2 cp2] ((Hp & Hc) & Hcp).
  cbn in Hp, Hc, Hcp. subst op2 oc2 cp2.
  unfold prepare_working_set, create_TempTable, check_limit.
  destruct ((sampling =? 1) && _)%bool; store_cbv.
  - destruct (sample_size_of k <? 0); store_cbv;
      (split; [reflexivity|]); intros a Ha; [discriminate Ha|].
    rewrite !temp_lookup_head. repeat split.
  - split; [reflexivity|]. intros a _. rewrite !temp_lookup_head. repeat split.
Qed.

Lemma alike_exit_conditions (i max_iter : Z) (s1 s2 : Store) :
  change_pct s1 = change_pct s2 ->
  fst (exit_conditions i max_iter s1) = fst (exit_conditions i max_iter s2).
Proof.
  destruct s1 as [op1 oc1 t1 a1 lg1 li1 cp1]; destruct s2 as [op2 oc2 t2 a2 lg2 li2 cp2].
  cbn [change_pct]. intros ->.
  unfold exit_conditions, py_index. store_cbv. split_cases; reflexivity.
Qed.

Lemma alike_iteration (k p_count max_iter : Z) :
  alike same_pass (iteration k p_count max_iter)
    (fun _ s1 s2 => same_pass s1 s2 /\ ArrayOfCentroids s1 = ArrayOfCentroids s2).
Proof.
  intros s1 s2 ((Hp & Hc) & Hi & Hcp & Ht).
  pose proof (iteration_shape k p_count max_iter s1) as H1.
  pose proof (iteration_shape k p_count max_iter s2) as H2.
  cbv zeta in H1, H2.
  replace (loop_i s1 + 1 - 1) with (loop_i s1) in H1 by lia.
  replace (loop_i s2 + 1 - 1) with (loop_i s2) in H2 by lia.
  rewrite <- Hc, <- Ht, <- Hi, <- Hcp in H2.
  destruct (output_centroids s1) as [cs|];
    [|rewrite H1, H2; split; [reflexivity | discriminate]].
  destruct (temp_lookup (loop_i s1) (TempTable s1)) as [prev|];
    [|destruct (k <? 0); rewrite H1, H2; split; (reflexivity || discriminate)].
  destruct (k <? 0); [rewrite H1, H2; split; (reflexivity || discriminate)|].
  set (i := loop_i s1 + 1) in *.
  set (cur := assign_rows (centroid_array k cs) prev) in *.
  assert (Hexit : forall x1 x2 : Store,
             output_points x1 = output_points s1 -> output_points x2 = output_points s2 ->
             output_centroids x1 = Some (mean_positions cur) ->
             output_centroids x2 = Some (mean_positions cur) ->
             loop_i x1 = i -> loop_i x2 = i ->
             change_pct x1 = change_pct x2 ->
             temp_lookup i (TempTable x1) = Some cur ->
             temp_lookup i (TempTable x2) = Some cur ->
             ArrayOfCentroids x1 = Some (centroid_array k cs) ->
             ArrayOfCentroids x2 = Some (centroid_array k cs) ->
             fst (exit_conditions i max_iter x1) = fst (exit_conditions i max_iter x2) /\
             forall a, fst (exit_conditions i max_iter x1) = Ret a ->
               same_pass (snd (exit_conditions i max_iter x1))
                         (snd (exit_conditions i max_iter x2)) /\
               ArrayOfCentroids (snd (exit_conditions i max_iter x1))
               = ArrayOfCentroids (snd (exit_conditions i max_iter x2))).
  { intros x1 x2 P1 P2 C1 C2 I1 I2 CP T1 T2 A1 A2.
    split; [apply alike_exit_conditions; exact CP|]. intros a _.
    destruct (exit_conditions_fields i max_iter x1) as (F1 & F2 & F3 & F4 & F5 & F6).
    destruct (exit_conditions_fields i max_iter x2) as (G1 & G2 & G3 & G4 & G5 & G6).
    unfold same_pass, same_output.
    rewrite F1, F2, F3, F4, F5, F6, G1, G2, G3, G4, G5, G6.
    rewrite P1, P2, C1, C2, I1, I2, T1, T2, A1, A2.
    repeat split; assumption. }
  assert (Hlook : forall (x : Store) (cp : list Q),
             temp_lookup i (TempTable (with_change_pct cp (refreshed k i cs prev x)))
             = Some cur).
  { intros x cp. unfold refreshed, with_change_pct, with_TempTable. cbn [TempTable].
    rewrite temp_lookup_drop_other by lia. apply temp_lookup_head. }
  rewrite H1, H2. clear H1 H2.
  destruct (1 <? i).
  - destruct (changed_sum cur prev) as [sum|]; [|split; [reflexivity | discriminate]].
    apply Hexit; try reflexivity; try apply Hlook.
  - apply Hexit; try reflexivity; try assumption.
    + apply (Hlook s1 (change_pct s1)).
    + apply (Hlook s2 (change_pct s1)).
Qed.

Lemma alike_main_loop (k p_count max_iter : Z) (fuel : nat) :
  alike same_pass (main_loop fuel k p_count max_iter)
    (fun _ s1 s2 => same_pass s1 s2 /\ ArrayOfCentroids s1 = ArrayOfCentroids s2).
Proof.
  induction fuel as [|fuel IH]; intros s1 s2 Hs.
  - split; [reflexivity | discriminate].
  - rewrite !main_loop_step.
    destruct (alike_iteration k p_count max_iter s1 s2 Hs) as (Ho & Hr).
    destruct (iteration k p_count max_iter s1) as [[d1|e1|] t1];
      destruct (iteration k p_count max_iter s2) as [[d2|e2|] t2];
      cbn [fst snd] in *; try discriminate Ho.
    + injection Ho as <-. specialize (Hr d1 eq_refl).
      destruct d1; [split; [reflexivity | intros a _; exact Hr]|].
      apply IH. apply Hr.
    + split; [congruence | discriminate].
    + split; [reflexivity | discriminate].
Qed.

Lemma alike_write_output (expand : bool) (input : list Point) :
  alike (fun s1 s2 => same_pass s1 s2 /\ ArrayOfCentroids s1 = ArrayOfCentroids s2)
    (write_output expand input) (fun _ => same_output).
Proof.
  intros [op1 oc1 t1 a1 lg1 li1 cp1] [op2 oc2 t2 a2 lg2 li2 cp2]
    (((Hp & Hc) & Hi & Hcp & Ht) & Ha).
  cbn in Hp, Hc, Hi, Hcp, Ht, Ha. subst op2 oc2 li2 cp2 a2.
  unfold write_output, insert_points. destruct expand; store_cbv.
  - destruct a1 as [arr|]; [|split; [reflexivity | discriminate]].
    destruct op1 as [ps|]; split; try reflexivity; try discriminate.
    intros a _. split; reflexivity.
  - rewrite <- Ht. destruct (temp_lookup li1 t1) as [rows|];
      [|split; [reflexivity | discriminate]].
    destruct op1 as [ps|]; split; try reflexivity; try discriminate.
    intros a _. split; reflexivity.
Qed.

Lemma alike_goodness_test (goodness : Z) :
  alike same_output (goodness_test goodness) (fun _ => same_output).
Proof.
  intros [op1 oc1 t1 a1 lg1 li1 cp1] [op2 oc2 t2 a2 lg2 li2 cp2] (Hp & Hc).
  cbn in Hp, Hc. subst op2 oc2.
  unfold goodness_test. destruct (goodness =? 1); store_cbv.
  - destruct op1 as [ps|]; [|split; [reflexivity | discriminate]].
    destruct oc1 as [cs|]; split; try reflexivity; try discriminate.
    intros a _. split; reflexivity.
  - split; [reflexivity|]. intros a _. split; reflexivity.
Qed.

Lemma alike_cluster (fuel : nat) (max_iter : Z) (input : list Point) (k goodness : Z) :
  alike (fun s1 s2 => change_pct s1 = change_pct s2)
    (cluster fuel max_iter input k goodness) (fun _ => same_output).
Proof.
  unfold cluster.
  eapply alike_bind; [apply alike_kmeans_init|]. intros c_count. cbv beta.
  apply alike_bind
    with (R := fun _ s1 s2 => same_output s1 s2 /\ change_pct s1 = change_pct s2).
  { intros s1 s2 Hs. destruct (negb (c_count =? k)); cbn;
      (split; [reflexivity|]); [discriminate | intros res _; exact Hs]. }
  intros [].
  eapply alike_bind; [apply alike_prepare|]. intros expand. cbv beta.
  apply alike_bind with (R := fun _ => same_pass).
  { intros [op1 oc1 t1 ar1 lg1 li1 cp1] [op2 oc2 t2 ar2 lg2 li2 cp2] (Ho & Hcp & Ht).
    split; [reflexivity|]. intros res _. cbn in *. unfold same_pass. cbn. auto. }
  intros [].
  eapply alike_bind; [apply alike_main_loop|]. intros []. cbv beta.
  eapply alike_bind; [apply alike_write_output|]. intros []. cbv beta.
  eapply alike_bind; [apply alike_goodness_test|]. intros g. cbv beta.
  intros [op1 oc1 t1 ar1 lg1 li1 cp1] [op2 oc2 t2 ar2 lg2 li2 cp2] (Hp & Hc).
  cbn in Hp, Hc. subst op2 oc2. store_cbv.
  destruct oc1 as [cs|]; split; try reflexivity; try discriminate.
  intros res _. split; reflexivity.
Qed.

(** X16. What a call of [kmeans_run] returns or raises, and the output
    tables it leaves when it returns, do not depend on the session it is
    made in: with the same catalog, arguments and random draws, two calls
    from any two states of the session (with or without output tables of an
    earlier run of the same id, temporary tables or an ArrayOfCentroids left
    behind) have the same outcome and write the same output points and
    centroids. *)
Theorem run_does_not_depend_on_the_session :
  forall (fuel : nat) (max_iter : Z) (cat : Catalog) (input_table : string)
         (k goodness : Z) (run_id output_schema : string) (s1 s2 : Store),
    let r1 := kmeans_run_with fuel max_iter cat input_table k goodness
                run_id output_schema s1 in
    let r2 := kmeans_run_with fuel max_iter cat input_table k goodness
                run_id output_schema s2 in
    fst r1 = fst r2 /\
    forall res, fst r1 = Ret res ->
      output_points (snd r1) = output_points (snd r2) /\
      output_centroids (snd r1) = output_centroids (snd r2).
Proof.
  intros fuel max_iter cat input_table k goodness run_id output_schema s1 s2.
  cbv zeta. rewrite !kmeans_run_with_unfold.
  assert (H : alike (fun t1 t2 => change_pct t1 = change_pct t2)
                (bind (validate_input cat input_table k)
                   (fun input =>
                      bind (validate_options cat goodness run_id output_schema)
                        (fun _ => cluster fuel max_iter input k goodness)))
                (fun _ => same_output)).
  { eapply alike_bind; [apply alike_validate_input|]. intros input. cbv beta.
    eapply alike_bind; [apply alike_validate_options|]. intros []. cbv beta.
    apply alike_cluster. }
  apply (H (with_change_pct [100%Q] s1) (with_change_pct [100%Q] s2)).
  reflexivity.
Qed.

(** ** The fraction a pass records *)

Lemma join_one_key (c e : Z) (size : Z -> Z) (K : list Z) :
  NoDup K ->
  flat_map (fun t2 : Z * Z => if c =? fst t2 then [Z.abs (e - snd t2)] else [])
    (map (fun x => (x, size x)) K)
  = if mem c K then [Z.abs (e - size c)] else [].
Proof.
  induction 1 as [|x K Hx _ IH]; cbn [map flat_map mem fst snd]; [reflexivity|].
  rewrite IH. destruct (Z.eqb_spec c x) as [->|_]; [|reflexivity].
  destruct (mem x K) eqn:Hm; [apply mem_In in Hm; contradiction | reflexivity].
Qed.

Lemma Zsum_flat_map {A} (f : A -> list Z) (l : list A) :
  Zsum (flat_map f l) = Zsum (map (fun x => Zsum (f x)) l).
Proof.
  induction l as [|x l IH]; cbn [flat_map map]; [reflexivity|].
  rewrite Zsum_app, IH. reflexivity.
Qed.

Lemma count_changes_sum (cur prev : list PointRow) :
  Zsum (count_changes cur prev) = common_change cur prev.
Proof.
  unfold count_changes, common_change.
  rewrite Zsum_flat_map, !cluster_counts_shape, map_map. cbn [fst snd].
  f_equal. apply map_ext. intros c.
  rewrite (join_one_key c (group_size cur c) (group_size prev)
             _ (group_keys_NoDup (map p_cid prev))).
  destruct (mem c (group_keys (map p_cid prev))); cbn; lia.
Qed.

(** X17. The first pass records no fraction.  Every later pass that returns
    appends one entry to the tracking variable: the sum, over the centroid
    ids that have points both in the assignment of this pass and in the one
    before, of the absolute difference of their point counts, divided by
    [p_count], the number of rows of the input relation. *)
Theorem recorded_fraction_formula :
  forall (k p_count max_iter : Z) (s s1 : Store) (done : bool),
    iteration k p_count max_iter s = (Ret done, s1) ->
    (loop_i s <= 0 -> change_pct s1 = change_pct s) /\
    (1 <= loop_i s ->
     exists prev cur q,
       temp_lookup (loop_i s) (TempTable s) = Some prev /\
       temp_lookup (loop_i s1) (TempTable s1) = Some cur /\
       change_pct s1 = change_pct s ++ [q] /\
       (q == inject_Z (common_change cur prev) / inject_Z p_count)%Q).
Proof.
  intros k p_count max_iter s s1 done E.
  pose proof (iteration_facts k p_count max_iter s) as Hf.
  pose proof (iteration_counts k p_count max_iter s) as (Hi & _).
  cbv zeta in Hf. rewrite E in Hf, Hi. cbn [fst snd] in Hf, Hi.
  destruct Hf as (cs & prev & _ & Hprev & _ & _ & _ & Hcur & Hcase); [discriminate|].
  destruct Hcase as [(H1 & sum & Hsum & Hcp & _)
                    |[(_ & _ & _ & He)|(H1 & Hcp & _)]].
  - split; [intros; lia|]. intros _.
    exists prev, (assign_rows (centroid_array k cs) prev), (sum / inject_Z p_count)%Q.
    split; [exact Hprev|]. split; [rewrite Hi; exact Hcur|]. split; [exact Hcp|].
    rewrite (changed_sum_value _ _ _ Hsum), count_changes_sum. reflexivity.
  - discriminate He.
  - split; [intros _; exact Hcp | intros; lia].
Qed.

(** ** Centroid ids between 1 and k *)

Lemma well_numbered_k (k : Z) (cs : list CentroidRow) : well_numbered k cs -> 1 <= k.
Proof.
  intros (Hne & _ & Hr). destruct cs as [|c cs]; [congruence|].
  specialize (Hr c (or_introl eq_refl)). lia.
Qed.

Lemma array_has_centroid (k : Z) (cs : list CentroidRow) :
  well_numbered k cs -> exists c, In (Some c) (centroid_array k cs).
Proof.
  intros (Hne & Hnd & Hr). destruct cs as [|c0 cs']; [congruence|].
  pose proof (Hr c0 (or_introl eq_refl)) as Hc0.
  rewrite (centroid_array_map k (c0 :: cs') Hnd).
  destruct (find (fun c => cid c =? cid c0) (c0 :: cs')) as [c|] eqn:Ef.
  - exists (c_position c). apply in_map_iff. exists (cid c0).
    split; [rewrite Ef; reflexivity|].
    unfold generate_series. apply in_map_iff.
    exists (Z.to_nat (cid c0 - 1)). split; [lia|]. apply in_seq. lia.
  - pose proof (find_none _ _ Ef c0 (or_introl eq_refl)) as Hf.
    cbv beta in Hf. rewrite Z.eqb_refl in Hf. discriminate Hf.
Qed.

Section OutputValidity.

(** What the callers of [madlib._kmeans_closestID] rely on: given an array
    with at least one centroid, the value is the index, counted from 1, of
    an entry that is not NULL. *)
Hypothesis closest_valid :
  forall (pos : Position) (arr : list (option Position)),
    (exists c, In (Some c) arr) ->
    1 <= _kmeans_closestID pos arr /\
    exists c, nth_error arr (Z.to_nat (_kmeans_closestID pos arr - 1)) = Some (Some c).

Lemma closest_in_range (k : Z) (cs : list CentroidRow) (pos : Position) :
  well_numbered k cs -> 1 <= _kmeans_closestID pos (centroid_array k cs) <= k.
Proof.
  intros Hw.
  destruct (closest_valid pos _ (array_has_centroid k cs Hw)) as (H1 & c & Hnth).
  split; [exact H1|].
  assert (Hlt : (Z.to_nat (_kmeans_closestID pos (centroid_array k cs) - 1)
                 < List.length (centroid_array k cs))%nat)
    by (apply nth_error_Some; congruence).
  destruct Hw as (_ & Hnd & _).
  assert (Hlen : List.length (centroid_array k cs) = Z.to_nat (k - 1 + 1))
    by (rewrite (centroid_array_map k cs Hnd), length_map; apply generate_series_length).
  rewrite Hlen in Hlt. lia.
Qed.

Lemma mean_positions_well_numbered (k : Z) (rows : list PointRow) :
  rows <> [] -> cids_within k rows -> well_numbered k (mean_positions rows).
Proof.
  intros Hne Hr. split; [|split].
  - destruct rows as [|r rows]; [congruence|].
    assert (Hin : In (p_cid r) (map cid (mean_positions (r :: rows)))).
    { rewrite mean_positions_cids. apply group_keys_In. left. reflexivity. }
    intros Hnil. rewrite Hnil in Hin. exact Hin.
  - rewrite mean_positions_cids. apply group_keys_NoDup.
  - intros c Hc. apply (in_map cid) in Hc. rewrite mean_positions_cids in Hc.
    apply (proj1 (group_keys_In _ _)) in Hc. apply in_map_iff in Hc.
    destruct Hc as (r & <- & Hin). apply Hr. exact Hin.
Qed.

Lemma iteration_numbered (k p_count max_iter : Z) (s s1 : Store) (done : bool) :
  numbered_pass k s -> iteration k p_count max_iter s = (Ret done, s1) ->
  numbered_result k s1.
Proof.
  intros (Hop & (cs & Hcs & Hw) & prev & Hprev & Hne) E.
  pose proof (iteration_facts k p_count max_iter s) as Hf.
  pose proof (iteration_counts k p_count max_iter s) as (Hi & Hop1 & _).
  cbv zeta in Hf. rewrite E in Hf, Hi, Hop1. cbn [fst snd] in Hf, Hi, Hop1.
  destruct Hf as (cs' & prev' & Hcs' & Hprev' & _ & Ha & Hc & Ht & _); [discriminate|].
  assert (cs' = cs) by congruence. assert (prev' = prev) by congruence. subst cs' prev'.
  set (arr := centroid_array k cs) in *.
  assert (Hcur : cids_within k (assign_rows arr prev)).
  { intros r Hr. unfold assign_rows in Hr. apply in_map_iff in Hr.
    destruct Hr as (p & <- & _). cbn [closest p_cid].
    apply closest_in_range. exact Hw. }
  assert (Hcne : assign_rows arr prev <> []).
  { destruct prev; [congruence | discriminate]. }
  rewrite <- Hi in Ht.
  split; [split; [congruence | split]|split].
  - exists (mean_positions (assign_rows arr prev)). split; [exact Hc|].
    apply mean_positions_well_numbered; assumption.
  - exists (assign_rows arr prev). split; assumption.
  - exists arr. split; [exact Ha|]. intros pos. apply closest_in_range. exact Hw.
  - exists (assign_rows arr prev). split; assumption.
Qed.

Lemma main_loop_numbered (k p_count max_iter : Z) (fuel : nat) (s s' : Store) :
  numbered_pass k s -> main_loop fuel k p_count max_iter s = (Ret tt, s') ->
  numbered_result k s'.
Proof.
  intros Hs E.
  pose proof (main_loop_rule k p_count max_iter (numbered_pass k)
                (fun o s1 => match o with Ret _ => numbered_result k s1 | _ => True end))
    as Hr.
  cbv beta in Hr. specialize (fun H => Hr H fuel s Hs). rewrite E in Hr.
  apply Hr. intros s1 H1.
  destruct (iteration k p_count max_iter s1) as [[[|]|e|] s1'] eqn:Ei; try exact I.
  - exact (iteration_numbered _ _ _ _ _ _ H1 Ei).
  - apply (iteration_numbered _ _ _ _ _ _ H1 Ei).
Qed.

Lemma kmeans_init_well_numbered (input : list Point) (k : Z) (s s' : Store) (c : Z) :
  0 < k -> input <> [] -> NoDup (map pid input) ->
  0 < numCentroids_of k ->
  (forall i, Permutation (seed_order i input) input) ->
  __kmeans_init input k s = (Ret c, s') ->
  exists cs, output_centroids s' = Some cs /\ well_numbered k cs.
Proof.
  intros Hk Hne Hnd Hn Hperm E.
  assert (Hfirst : exists pt, In pt input /\ limit 1 (seed_order 1 input) = [pt]).
  { pose proof (Hperm 1) as Hp. destruct (seed_order 1 input) as [|x l] eqn:Eo.
    - apply Permutation_nil in Hp. congruence.
    - exists x. split; [|reflexivity].
      apply (Permutation_in _ Hp). left. reflexivity. }
  destruct Hfirst as (pt & Hpt & Hlim).
  unfold __kmeans_init in E. rewrite Hlim in E.
  destruct s as [op oc temps ar lg li cp].
  unfold insert_centroids in E. revert E. store_cbv.
  match goal with |- seed_remaining ?f ?i ?k0 ?j ?s0 = _ -> _ =>
    destruct (seed_remaining_spec input k Hn Hperm Hne Hnd f 1 s0
                [{| cid := 1; c_position := position pt |}])
      as (s2 & cs & Hrun & Hcs & Hids & Hpos)
  end; [lia | lia | reflexivity | |].
  { split; [reflexivity|]. intros c0 [<-|[]]. exists pt. split; [exact Hpt|reflexivity]. }
  rewrite Hrun. intros E. injection E as _ <-.
  exists cs. split; [exact Hcs|].
  assert (Hin : forall x, In x (generate_series 1 k) -> 1 <= x <= k).
  { intros x Hx. unfold generate_series in Hx. apply in_map_iff in Hx.
    destruct Hx as (n & <- & Hn'). apply in_seq in Hn'. lia. }
  split; [|split].
  - intros ->. cbn [map] in Hids. unfold generate_series in Hids.
    replace (Z.to_nat (k - 1 + 1)) with (S (Z.to_nat (k - 1))) in Hids by lia.
    discriminate Hids.
  - rewrite Hids. unfold generate_series.
    apply Finite.Injective_map_NoDup; [|apply seq_NoDup].
    intros x y Hxy. lia.
  - intros c0 Hc0. apply Hin. rewrite <- Hids. apply in_map. exact Hc0.
Qed.

Lemma working_set_nonempty (input : list Point) (k : Z) :
  input <> [] -> Permutation (sample_order input) input -> 0 < numCentroids_of k ->
  working_set input k <> [].
Proof.
  intros Hne Hperm Hn. unfold working_set.
  destruct (sampled input k); [|exact Hne].
  unfold limit. destruct (sample_order input) as [|x l] eqn:E.
  - apply Permutation_nil in Hperm. congruence.
  - assert (Hs : 0 < sample_size_of k)
      by (unfold sample_size_of, sampling_size, max_sample_size; lia).
    destruct (Z.to_nat (sample_size_of k)) eqn:En; [lia | discriminate].
Qed.

Lemma cluster_numbered (fuel : nat) (max_iter : Z) (input : list Point) (k goodness : Z)
    (s s' : Store) (r : Summary) :
  0 < k -> input <> [] -> NoDup (map pid input) ->
  0 < numCentroids_of k ->
  (forall i, Permutation (seed_order i input) input) ->
  Permutation (sample_order input) input ->
  cluster fuel max_iter input k goodness s = (Ret r, s') ->
  exists ps cs,
    output_points s' = Some ps /\ output_centroids s' = Some cs /\
    cids_within k ps /\ well_numbered k cs /\
    c_count_final r = Z.of_nat (List.length cs).
Proof.
  intros Hk Hne Hnd Hn Hperm Hsample H. unfold cluster in H.
  apply bind_ret_inv in H. destruct H as (c_count & s1 & E1 & H).
  apply bind_ret_inv in H. destruct H as ([] & s1' & Echeck & H).
  assert (s1' = s1) by (destruct (negb (c_count =? k)); inversion Echeck; reflexivity).
  subst s1'. clear Echeck.
  apply bind_ret_inv in H. destruct H as (expand & s3 & E3 & H).
  apply bind_ret_inv in H. destruct H as ([] & s4 & E4 & H).
  injection E4 as <-.
  apply bind_ret_inv in H. destruct H as ([] & s5 & E5 & H).
  apply bind_ret_inv in H. destruct H as ([] & s6 & E6 & H).
  apply bind_ret_inv in H. destruct H as (g & s7 & E7 & H).
  apply bind_ret_inv in H. destruct H as (oc & s8 & E8 & H).
  injection E8 as <- <-.
  apply bind_ret_inv in H. destruct H as (cs & s9 & E9 & H).
  injection H as <- <-.
  pose proof (kmeans_init_output_points input k s) as Hop1. rewrite E1 in Hop1.
  cbn [snd] in Hop1.
  destruct (kmeans_init_well_numbered _ _ _ _ _ Hk Hne Hnd Hn Hperm E1)
    as (cs1 & Hcs1 & Hw1).
  apply prepare_ret in E3. destruct E3 as (Hexp & _ & Ht3 & Hop3 & Hc3 & _).
  assert (Hpass : numbered_pass k (with_loop_i 0 s3)).
  { unfold numbered_pass, with_loop_i. cbn [output_points output_centroids loop_i TempTable].
    split; [congruence|]. split.
    - exists cs1. split; [congruence | exact Hw1].
    - exists (map unassigned (working_set input k)).
      split; [rewrite Ht3; apply temp_lookup_head|].
      pose proof (working_set_nonempty input k Hne Hsample Hn) as Hws.
      destruct (working_set input k); [congruence | discriminate]. }
  pose proof (main_loop_numbered _ _ _ _ _ _ Hpass E5)
    as ((Hop5 & (cs5 & Hcs5 & Hw5) & _) & (arr & Harr & Hrange) & cur & Hcur & Hwithin).
  apply write_output_ret in E6.
  destruct E6 as (ps & rows & Hps & Hrows & Hop6 & Hc6 & _).
  assert (ps = []) by congruence. subst ps. cbn [app] in Hop6.
  apply goodness_test_ret in E7. destruct E7 as (Hsame & _).
  unfold locals_and_tables, tables in Hsame.
  injection Hsame as Hp7 Hc7 _ _ _ _.
  assert (Hcs : output_centroids s7 = Some cs5) by congruence.
  rewrite Hcs in E9. injection E9 as <- <-.
  exists rows, cs5. split; [congruence|]. split; [exact Hcs|].
  split; [|split; [exact Hw5 | reflexivity]].
  destruct expand.
  - destruct Hrows as (arr' & Harr' & ->).
    assert (arr' = arr) by congruence. subst arr'.
    intros p Hp. unfold assign_points in Hp. apply in_map_iff in Hp.
    destruct Hp as (q & <- & _). cbn [closest p_cid]. apply Hrange.
  - assert (rows = cur) by congruence. subst rows. exact Hwithin.
Qed.

(** X18. With [_kmeans_closestID] returning the index of a centroid of its
    array, unique pids, and [ORDER BY random()] returning the rows it is
    given, a run that returns has given every output point a centroid id
    between 1 and k; the final centroids table holds between 1 and k rows,
    one per centroid id and every id between 1 and k, and [c_count_final]
    is their number. *)
Theorem output_ids_are_within_1_and_k :
  forall (fuel : nat) (max_iter : Z) (cat : Catalog) (input_table : string)
         (k goodness : Z) (run_id output_schema : string) (s s' : Store) (r : Summary),
    (forall a b rel, relations cat a b = Some rel -> NoDup (map pid (rel_rows rel))) ->
    0 < numCentroids_of k ->
    (forall i l, Permutation (seed_order i l) l) ->
    (forall l, Permutation (sample_order l) l) ->
    kmeans_run_with fuel max_iter cat input_table k goodness run_id output_schema s
      = (Ret r, s') ->
    exists ps cs,
      output_points s' = Some ps /\ output_centroids s' = Some cs /\
      (forall p, In p ps -> 1 <= p_cid p <= k) /\
      (forall c, In c cs -> 1 <= cid c <= k) /\
      NoDup (map cid cs) /\
      c_count_final r = Z.of_nat (List.length cs) /\
      1 <= c_count_final r <= k.
Proof.
  intros fuel max_iter cat input_table k goodness run_id output_schema s s' r
    Hpids Hn Hseed Hsample E.
  rewrite kmeans_run_with_unfold in E.
  apply bind_ret_inv in E. destruct E as (input & s1 & E1 & E).
  apply bind_ret_inv in E. destruct E as ([] & s2 & E2 & E).
  apply validate_input_ret in E1. destruct E1 as (Hk & a & b & rel & _ & Hrel & ->).
  assert (Hne : rel_rows rel <> []).
  { intros Hnil. rewrite Hnil in Hk. cbn in Hk. lia. }
  destruct (cluster_numbered _ _ _ _ _ _ _ _ (proj1 Hk) Hne (Hpids a b rel Hrel) Hn
              (fun i => Hseed i _) (Hsample _) E)
    as (ps & cs & Hps & Hcs & Hwithin & (Hcne & Hnd & Hrange) & Hcount).
  exists ps, cs. repeat (split; [assumption|]).
  rewrite Hcount. split.
  - destruct cs; [congruence | cbn [List.length]; lia].
  - assert (Hincl : incl (map cid cs) (generate_series 1 k)).
    { intros x Hx. apply in_map_iff in Hx. destruct Hx as (c & <- & Hc).
      specialize (Hrange c Hc). unfold generate_series. apply in_map_iff.
      exists (Z.to_nat (cid c - 1)). split; [lia|]. apply in_seq. lia. }
    pose proof (NoDup_incl_length Hnd Hincl) as Hlen.
    rewrite length_map, generate_series_length in Hlen. lia.
Qed.

End OutputValidity.

End Facts.

(** * Quoting and names *)

Lemma scan_body_replace (q : ascii) (val rest : string) :
  not_opening q rest ->
  scan_body q (replace q (String q (String q EmptyString)) val ++ String q rest)
  = Some (val, rest).
Proof.
  intros Hrest. induction val as [|c val IH]; cbn [replace String.append].
  - cbn [scan_body]. rewrite Ascii.eqb_refl.
    destruct rest as [|c' rest']; [reflexivity|].
    cbn [not_opening] in Hrest. apply Ascii.eqb_neq in Hrest. rewrite Hrest. reflexivity.
  - destruct (Ascii.eqb_spec c q) as [->|Hne].
    + cbn [String.append scan_body]. rewrite Ascii.eqb_refl. rewrite IH. reflexivity.
    + cbn [String.append scan_body]. apply Ascii.eqb_neq in Hne. rewrite Hne, IH.
      reflexivity.
Qed.

Lemma append_assoc (a b c : string) : ((a ++ b) ++ c = a ++ (b ++ c))%string.
Proof. induction a as [|x a IH]; cbn [String.append]; [reflexivity | now rewrite IH]. Qed.

Lemma scan_quoted_quote (q : ascii) (val rest : string) :
  not_opening q rest ->
  scan_quoted q ((String q EmptyString
                  ++ replace q (String q (String q EmptyString)) val
                  ++ String q EmptyString) ++ rest)
  = Some (val, rest).
Proof.
  intros Hrest. cbn [String.append scan_quoted]. rewrite Ascii.eqb_refl.
  rewrite append_assoc. cbn [String.append]. apply scan_body_replace. exact Hrest.
Qed.

(** X1. A value quoted by [quote_ident] and followed by any text that does
    not begin with a double quote is read back by the server as one
    delimited identifier whose content is the value, whatever characters the
    value holds; the text after it is left as it was. *)
Theorem quote_ident_read_back :
  forall val rest : string,
    not_opening dquote rest ->
    scan_quoted dquote (quote_ident val ++ rest) = Some (val, rest).
Proof.
  intros val rest Hrest. unfold quote_ident. apply scan_quoted_quote. exact Hrest.
Qed.

(** X2. A value quoted by [quote_literal] and followed by any text that does
    not begin with a single quote is read back as one string constant whose
    content is the value: a single quote inside the value never closes the
    constant. *)
Theorem quote_literal_read_back :
  forall val rest : string,
    not_opening squote rest ->
    scan_quoted squote (quote_literal val ++ rest) = Some (val, rest).
Proof.
  intros val rest Hrest. unfold quote_literal. apply scan_quoted_quote. exact Hrest.
Qed.

Lemma append_nil_r (a : string) : (a ++ EmptyString)%string = a.
Proof. induction a as [|x a IH]; cbn [String.append]; [reflexivity | now rewrite IH]. Qed.

Lemma quote_ident_injective (a b : string) : quote_ident a = quote_ident b -> a = b.
Proof.
  intros H.
  pose proof (scan_quoted_quote dquote a EmptyString I) as Ha.
  pose proof (scan_quoted_quote dquote b EmptyString I) as Hb.
  fold (quote_ident a) in Ha. fold (quote_ident b) in Hb.
  rewrite H, Hb in Ha. congruence.
Qed.

Lemma append_inv_head (a b c : string) : (a ++ b = a ++ c)%string -> b = c.
Proof.
  induction a as [|x a IH]; cbn [String.append]; [auto|].
  intros H. injection H as H. auto.
Qed.

Lemma qualified_injective (a b a' b' : string) :
  (quote_ident a ++ "." ++ quote_ident b = quote_ident a' ++ "." ++ quote_ident b')%string ->
  a = a' /\ b = b'.
Proof.
  intros H.
  assert (Hdot : forall r, not_opening dquote ("." ++ r)%string)
    by (intros r; cbn; discriminate).
  pose proof (scan_quoted_quote dquote a _ (Hdot (quote_ident b))) as Ha.
  pose proof (scan_quoted_quote dquote a' _ (Hdot (quote_ident b'))) as Ha'.
  fold (quote_ident a) in Ha. fold (quote_ident a') in Ha'.
  rewrite H, Ha' in Ha. injection Ha as <- Hb.
  split; [reflexivity|]. symmetry. apply quote_ident_injective.
  unfold quote_ident. cbn [String.append]. rewrite Hb. reflexivity.
Qed.

(** X3. The name of an output points table is never the name of an output
    centroids table, whatever the schemas and the run ids, also of two
    different runs. *)
Theorem output_tables_of_two_kinds_differ :
  forall s r s' r' : string, output_points_name s r <> output_centroids_name s' r'.
Proof.
  intros s r s' r' H. unfold output_points_name, output_centroids_name in H.
  apply qualified_injective in H. destruct H as [_ H].
  cbn [String.append] in H. discriminate H.
Qed.

(** X4. Two runs write to the same output points table, or to the same
    output centroids table, only if they have the same output schema and the
    same run id. *)
Theorem output_tables_identify_the_run :
  forall s r s' r' : string,
    output_points_name s r = output_points_name s' r' \/
    output_centroids_name s r = output_centroids_name s' r' ->
    s = s' /\ r = r'.
Proof.
  intros s r s' r' [H|H]; unfold output_points_name, output_centroids_name in H;
    apply qualified_injective in H; destruct H as [-> H]; split; try reflexivity.
  - exact (append_inv_head "kmeans_out_points_" _ _ H).
  - exact (append_inv_head "kmeans_out_centroids_" _ _ H).
Qed.

(** X5. The name the statements after validation use for the input relation
    reads back as the schema and the table that validation looked up in the
    catalog: the two parts of [input_table] around its dot, character for
    character. *)
Theorem requoted_input_table_reads_back :
  forall (input_table name : string),
    requoted input_table = Some name ->
    exists a b,
      split "."%char input_table = [a; b] /\
      read_qualified name = Some (a, b).
Proof.
  intros t name H. unfold requoted in H.
  destruct (split "."%char t) as [|a [|b [|c l]]]; try discriminate H.
  assert (Hn : name = (quote_ident a ++ "." ++ quote_ident b)%string) by congruence.
  rewrite Hn. clear H Hn. exists a, b. split; [reflexivity|].
  unfold read_qualified.
  assert (Hdot : not_opening dquote ("." ++ quote_ident b)%string)
    by (cbn; discriminate).
  pose proof (scan_quoted_quote dquote a _ Hdot) as Ha.
  fold (quote_ident a) in Ha. rewrite Ha. cbn [String.append].
  rewrite Ascii.eqb_refl.
  pose proof (scan_quoted_quote dquote b EmptyString I) as Hb.
  fold (quote_ident b) in Hb. rewrite append_nil_r in Hb. rewrite Hb. reflexivity.
Qed.


(** * The examples on the rational line *)

Lemma pair_eq_fst {A B} (p : A * B) (a : A) : fst p = a -> p = (a, snd p).
Proof. destruct p. cbn. intros ->. reflexivity. Qed.

Lemma line_l2norm_nonneg (a b : Qc) : (0 <= line_l2norm_diff a b)%Q.
Proof. apply Qabs_nonneg. Qed.

Lemma line_l2norm_zero (a b : Qc) : (line_l2norm_diff a b == 0)%Q <-> a = b.
Proof.
  unfold line_l2norm_diff. split.
  - intros H. apply Qc_is_canon.
    assert (Hz : ((a - b)%Qc == 0)%Q).
    { pose proof (Qle_Qabs (a - b)%Qc) as H1.
      pose proof (Qle_Qabs (- (a - b)%Qc)) as H2.
      rewrite Qabs_opp in H2. rewrite H in H1, H2.
      apply Qle_antisym; [exact H1|].
      apply Qopp_le_compat in H2. rewrite Qopp_involutive in H2. exact H2. }
    assert (Hq : (a - b)%Qc = Q2Qc 0) by (apply Qc_is_canon; rewrite Hz; reflexivity).
    assert (Ha : a = (a - b + b)%Qc) by ring.
    rewrite Ha, Hq. change (Q2Qc 0) with 0%Qc. 
    assert (Hb : (0 + b)%Qc = b) by ring. rewrite Hb. reflexivity.
  - intros ->.
    assert (Hq : (b - b)%Qc = 0%Qc) by ring. rewrite Hq. reflexivity.
Qed.

(** C2, at the failing input.  The run on [crowd] works on a sample of 2400
    of the 2401 points.  Its first pass puts 1199, 2 and 1199 points in the
    three clusters, its second 1200, 0 and 1200.  The fraction it records
    for the second pass is 2/2401: the two clusters present in both
    assignments changed by one point each, and the divisor is the size of
    the population.  The spec's formula gives 4/2400. *)
Theorem recorded_fraction_on_a_sample :
  let t1 := temp_lookup 1 (TempTable (snd (run_upto 1 turning crowd 3 1))) in
  let t2 := temp_lookup 2 (TempTable (snd crowd_run)) in
  option_map (@List.length _) t2 = Some 2400%nat /\
  option_map (@cluster_counts Line) t1 = Some [(1, 1199); (2, 2); (3, 1199)] /\
  option_map (@cluster_counts Line) t2 = Some [(1, 1200); (3, 1200)] /\
  change_pct (snd crowd_run) = [100%Q; 2 # 2401] /\
  match t1, t2 with
  | Some prev, Some cur => Some (change_fraction_spec 3 cur prev)
  | _, _ => None
  end = Some (4 # 2400).
Proof.
  cbv zeta.
  split; [vm_compute; reflexivity|].
  split; [vm_compute; reflexivity|].
  split; [vm_compute; reflexivity|].
  split; vm_compute; reflexivity.
Qed.

(** ** Three points at one position *)

(** C1, counterexample.  On [same3] with k = 2 both seeds sit at 0; the first
    pass assigns every point to centroid 1, and after its Update step the
    centroids table has lost the row of centroid 2. *)
Lemma update_drops_unassigned_centroid :
  let s1 := snd (@iteration Line 2 3 20 same3_entry) in
  option_map (map cid) (output_centroids same3_entry) = Some [1; 2] /\
  option_map (map p_cid) (temp_lookup 1 (TempTable s1)) = Some [1; 1; 1] /\
  option_map (map cid) (output_centroids s1) = Some [1] /\
  match output_centroids same3_entry, temp_lookup 1 (TempTable s1),
        output_centroids s1 with
  | Some before, Some cur, Some after => ~ update_retains before after cur
  | _, _, _ => False
  end.
Proof.
  cbv zeta.
  assert (F1 : option_map (map cid) (output_centroids same3_entry) = Some [1; 2])
    by (vm_compute; reflexivity).
  assert (F2 : option_map (map p_cid)
                 (temp_lookup 1 (TempTable (snd (@iteration Line 2 3 20 same3_entry))))
               = Some [1; 1; 1]) by (vm_compute; reflexivity).
  assert (F3 : option_map (map cid)
                 (output_centroids (snd (@iteration Line 2 3 20 same3_entry)))
               = Some [1]) by (vm_compute; reflexivity).
  split; [exact F1|]. split; [exact F2|]. split; [exact F3|].
  destruct (output_centroids same3_entry) as [before|]; [|discriminate].
  destruct (temp_lookup 1 (TempTable (snd (@iteration Line 2 3 20 same3_entry))))
    as [cur|]; [|discriminate].
  destruct (output_centroids (snd (@iteration Line 2 3 20 same3_entry)))
    as [after|]; [|discriminate].
  cbn [option_map] in F1, F2, F3.
  injection F1 as F1. injection F2 as F2. injection F3 as F3.
  intros H.
  destruct before as [|c1 [|c2 [|c3 before]]]; try discriminate.
  injection F1 as _ Hc2.
  assert (Hnone : members (cid c2) cur = []).
  { destruct (members (cid c2) cur) eqn:E; [reflexivity|]. exfalso.
    assert (Hne : members (cid c2) cur <> []) by (rewrite E; discriminate).
    apply members_nonempty in Hne. rewrite F2, Hc2 in Hne.
    cbn in Hne. intuition discriminate. }
  specialize (H c2 (or_intror (or_introl eq_refl)) Hnone).
  apply (in_map cid) in H. rewrite F3, Hc2 in H. cbn in H. intuition discriminate.
Qed.

(** C1, witness. *)
Lemma update_step_witness :
  fst (@iteration Line 2 3 20 same3_entry) <> Raise SqlError /\
  let s' := snd (@iteration Line 2 3 20 same3_entry) in
  exists cur cs,
    temp_lookup (loop_i s') (TempTable s') = Some cur /\
    output_centroids s' = Some cs /\
    forall c, In c (map cid cs) <-> members c cur <> [].
Proof.
  assert (H : fst (@iteration Line 2 3 20 same3_entry) <> Raise SqlError)
    by (vm_compute; discriminate).
  split; [exact H|].
  exact (update_keeps_assigned_centroids_only (ML := Line) 2 3 20 same3_entry H).
Defined.



(** C6, witness. *)
Lemma refinement_loop_witness :
  (1 <= max_iterations /\ (Z.to_nat max_iterations <= 20)%nat) /\
  (let r := @main_loop Line 20 2 3 max_iterations same3_entry in
   fst r <> OutOfFuel /\ 1 <= loop_i (snd r) <= max_iterations) /\
  fst (run_of plain same3 2 1) <> OutOfFuel.
Proof.
  assert (Hm : 1 <= max_iterations) by (unfold max_iterations; lia).
  assert (Hf : (Z.to_nat max_iterations <= 20)%nat) by (unfold max_iterations; lia).
  split; [split; assumption|].
  split.
  - refine (proj1 (refinement_loop_halts (ML := Line) (CH := plain)
                     20 max_iterations Hm Hf) 2 3 same3_entry _).
    vm_compute. reflexivity.
  - exact (proj2 (refinement_loop_halts (ML := Line) (CH := plain)
                    20 max_iterations Hm Hf)
             (catalog_of same3) "public.points"%string 2 1 "r"%string "public"%string fresh).
Defined.

(** C8, witness: k = 3 on the three points of [same3]. *)
Lemma validation_witness :
  let r := run_of plain same3 3 1 in
  exists e l,
    fst r = Raise (Plpy e) /\
    (3 <= 0 -> e = ErrK 3) /\
    tables (snd r) = tables fresh /\
    log (snd r) = log fresh ++ l /\
    Forall (validation_msg "public.points"%string 3) l.
Proof.
  refine (validation_fails_fast (ML := Line) (CH := plain) 20 max_iterations
            (catalog_of same3) "public.points"%string 3 1 "r"%string "public"%string fresh _).
  right. exists "public"%string, "points"%string,
    {| rel_columns := ["pid"; "position"]%string; rel_rows := same3 |}.
  split; [reflexivity|]. split; [reflexivity|]. cbn. lia.
Defined.

(** The run on [same3] with k = 2 returns. *)
Lemma same3_run_returns :
  run_of plain same3 2 1
  = (Ret {| c_count_final := 1; gfit := Computed (Some (0 # 3)) |},
     snd (run_of plain same3 2 1)).
Proof. apply pair_eq_fst. vm_compute. reflexivity. Qed.

(** C9, witness. *)
Lemma fit_score_witness :
  exists a b rel ps cs,
    split "."%char "public.points"%string = [a; b] /\
    relations (catalog_of same3) a b = Some rel /\
    output_points (snd (run_of plain same3 2 1)) = Some ps /\
    output_centroids (snd (run_of plain same3 2 1)) = Some cs /\
    let m := matched cs ps in
    let r := {| c_count_final := 1; gfit := Computed (Some (0 # 3)) |} in
    (1 <> 1 -> gfit r = NotComputed) /\
    (1 = 1 -> m = [] -> gfit r = Computed None) /\
    (1 = 1 -> m <> [] ->
     exists v,
       gfit r = Computed (Some v) /\
       (v == Qsum (map (distance_to_centroid cs) m)
             / inject_Z (Z.of_nat (List.length m)))%Q /\
       (0 <= v)%Q /\
       ((v == 0)%Q <->
        forall p, In p m ->
          exists c, centroid_of cs p = Some c /\ p_position p = c_position c)) /\
    (sampled (CH := plain) (rel_rows rel) 2 = false -> m = ps).
Proof.
  exact (fit_score_over_matched_points (ML := Line) (CH := plain)
           line_l2norm_nonneg line_l2norm_zero
           20 max_iterations (catalog_of same3) "public.points"%string 2 1 "r"%string "public"%string fresh
           _ _ same3_run_returns).
Defined.

(** C10, witness. *)
Lemma second_pass_witness :
  2 <= max_iterations /\
  2 <= loop_i (snd (run_of plain same3 2 1)) /\
  In (MsgIteration 2) (log (snd (run_of plain same3 2 1))).
Proof.
  assert (Hm : 2 <= max_iterations) by (unfold max_iterations; lia).
  split; [exact Hm|].
  exact (proj2 (second_pass_always_runs (ML := Line) (CH := plain) 20 max_iterations Hm)
           (catalog_of same3) "public.points"%string 2 1 "r"%string "public"%string fresh _ _
           same3_run_returns).
Defined.

(** ** The sampled run *)

(** C4, counterexample.  In the run on [crowd] the last row of the output,
    the point with pid 2401 at position 9, carries centroid id 2: it is the
    closest in the array of the last pass, built before the last Update.  The
    final centroids table has no centroid 2, and the closest of the final
    centroids is centroid 1. *)
Lemma expansion_ignores_final_centroids :
  exists ps cs,
    output_points (snd crowd_run) = Some ps /\
    output_centroids (snd crowd_run) = Some cs /\
    option_map (fun row => (coordinate (p_position row), p_cid row))
      (find (fun row => p_pid row =? 2401) ps) = Some (9%Q, 2) /\
    map (fun c => (cid c, coordinate (c_position c))) cs = [(1, 4%Q); (3, 14%Q)] /\
    ~ expansion_consistent 3 ps cs.
Proof.
  assert (F : match output_points (snd crowd_run), output_centroids (snd crowd_run) with
              | Some ps, Some cs =>
                  Some (option_map
                          (fun row => (coordinate (p_position row), p_cid row,
                                       @_kmeans_closestID Line (p_position row)
                                         (centroid_array 3 cs)))
                          (find (fun row => p_pid row =? 2401) ps),
                        map (fun c => (cid c, coordinate (c_position c))) cs)
              | _, _ => None
              end = Some (Some (9%Q, 2, 1), [(1, 4%Q); (3, 14%Q)]))
    by (vm_compute; reflexivity).
  destruct (output_points (snd crowd_run)) as [ps|]; [|discriminate F].
  destruct (output_centroids (snd crowd_run)) as [cs|]; [|discriminate F].
  exists ps, cs. split; [reflexivity|]. split; [reflexivity|].
  injection F as Frow Fcs.
  destruct (find (fun row => p_pid row =? 2401) ps) as [row|] eqn:En;
    cbn [option_map] in *; [|discriminate Frow].
  injection Frow as Hpos Hcid Hclosest.
  split; [congruence|]. split; [exact Fcs|].
  intros H. apply find_some in En. specialize (H row (proj1 En)).
  assert (Habs : 2 = 1) by (rewrite <- Hcid, <- Hclosest; exact H).
  discriminate Habs.
Qed.

(** The run on [crowd] returns. *)
Lemma crowd_run_returns :
  crowd_run
  = (Ret {| c_count_final := 2; gfit := Computed (Some (8 # 2400)) |}, snd crowd_run).
Proof. apply pair_eq_fst. vm_compute. reflexivity. Qed.

(** C4, witness. *)
Lemma expansion_witness :
  exists a b rel arr,
    split "."%char "public.points"%string = [a; b] /\
    relations (catalog_of crowd) a b = Some rel /\
    ArrayOfCentroids (snd crowd_run) = Some arr /\
    temp_lookup (loop_i (snd crowd_run)) (TempTable (snd crowd_run))
      = Some (assign_points arr (working_set (CH := turning) (rel_rows rel) 3)) /\
    output_points (snd crowd_run) = Some (assign_points arr (rel_rows rel)) /\
    output_centroids (snd crowd_run)
      = Some (mean_positions
                (assign_points arr (working_set (CH := turning) (rel_rows rel) 3))) /\
    (forall p, In p (rel_rows rel) ->
               In {| p_pid := pid p; p_position := position p;
                     p_cid := _kmeans_closestID (position p) arr |}
                  (assign_points arr (rel_rows rel))).
Proof.
  exact (expansion_uses_last_array (ML := Line) (CH := turning) 20 max_iterations
           (catalog_of crowd) "public.points"%string 3 1 "r"%string "public"%string fresh _ _
           crowd_run_returns).
Defined.

(** C9, counterexample.  In the run on [crowd] the fit score is 8/2400: the
    output point with pid 2401 refers to centroid 2, which has no row in the
    final centroids table, and is left out of the sum and of the count.  The
    sum of the distances over the number of output points is 8/2401. *)
Lemma fit_score_skips_unmatched_points :
  exists r ps cs v,
    fst crowd_run = Ret r /\
    output_points (snd crowd_run) = Some ps /\
    output_centroids (snd crowd_run) = Some cs /\
    gfit r = Computed (Some v) /\
    List.length ps = 2401%nat /\
    List.length (matched cs ps) = 2400%nat /\
    ~ (v == fit_spec ps cs)%Q.
Proof.
  assert (F : match fst crowd_run, output_points (snd crowd_run),
                    output_centroids (snd crowd_run) with
              | Ret r, Some ps, Some cs =>
                  Some (gfit r, List.length ps, List.length (matched cs ps),
                        Qeq_bool (fit_spec ps cs) (8 # 2401))
              | _, _, _ => None
              end = Some (Computed (Some (8 # 2400)), 2401%nat, 2400%nat, true))
    by (vm_compute; reflexivity).
  destruct (fst crowd_run) as [r|e|]; [|discriminate F|discriminate F].
  destruct (output_points (snd crowd_run)) as [ps|]; [|discriminate F].
  destruct (output_centroids (snd crowd_run)) as [cs|]; [|discriminate F].
  injection F as Hg Hlen Hm Hspec.
  exists r, ps, cs, (8 # 2400).
  split; [reflexivity|]. split; [reflexivity|]. split; [reflexivity|].
  split; [exact Hg|]. split; [exact Hlen|]. split; [exact Hm|].
  apply Qeq_bool_eq in Hspec. rewrite Hspec. intros Hq. vm_compute in Hq.
  discriminate Hq.
Qed.

(** ** Change fractions *)

(** C7, counterexample.  On [swing8] with k = 2, seeded at 0 and 2, the first
    pass puts 1 and 7 points in the two clusters and the second 7 and 1: the
    recorded fraction is 12/8. *)
Lemma change_fraction_above_one :
  change_pct (snd (run_of favour2 swing8 2 1)) = [100%Q; 12 # 8; 0 # 8] /\
  ~ fractions_within_one (change_pct (snd (run_of favour2 swing8 2 1))).
Proof.
  assert (E : change_pct (snd (run_of favour2 swing8 2 1)) = [100%Q; 12 # 8; 0 # 8])
    by (vm_compute; reflexivity).
  split; [exact E|]. rewrite E. unfold fractions_within_one. cbn [tl].
  intros H. inversion H as [|x l [_ Hle] _]. vm_compute in Hle. apply Hle. reflexivity.
Qed.

(** C5, counterexample.  The sixth pass on [wave14] records 4/14; the
    fraction from 4 passes back, that of the second pass, is 2/14, smaller
    than the current one.  The pass does not set [done]: the entry the code
    compares with is that of the third pass, 4/14. *)
Lemma fourth_pass_back_is_not_compared :
  let r := @iteration Line 2 14 20 wave14_five in
  fst r = Ret false /\ loop_i (snd r) = 6 /\
  change_pct (snd r) = [100%Q; 2 # 14; 4 # 14; 2 # 14; 2 # 14; 4 # 14] /\
  ~ stops_four_back (change_pct (snd r)) 6 false.
Proof.
  cbv zeta.
  assert (E : change_pct (snd (@iteration Line 2 14 20 wave14_five))
              = [100%Q; 2 # 14; 4 # 14; 2 # 14; 2 # 14; 4 # 14])
    by (vm_compute; reflexivity).
  split; [vm_compute; reflexivity|]. split; [vm_compute; reflexivity|].
  split; [exact E|]. rewrite E.
  intros H. specialize (H ltac:(lia) (2 # 14) (4 # 14) eq_refl eq_refl eq_refl).
  discriminate.
Qed.

(** C5, witness. *)
Lemma stabilized_exit_witness :
  let r := @iteration Line 2 10 20 steady10_four in
  r = (Ret true, snd r) /\
  (exists l, log (snd r)
             = l ++ [MsgExitStabilized (((2 # 10) + (2 # 10) + (2 # 10) + (4 # 10)) / 4)]) /\
  (forall fuel, @main_loop Line (S fuel) 2 10 20 steady10_four = (Ret tt, snd r)).
Proof.
  cbv zeta.
  assert (E : @iteration Line 2 10 20 steady10_four
              = (Ret true, snd (@iteration Line 2 10 20 steady10_four)))
    by (apply pair_eq_fst; vm_compute; reflexivity).
  split; [exact E|].
  refine (proj2 (stabilized_exit (ML := Line) 2 10 20 steady10_four _ true
                   (2 # 10) (2 # 10) (2 # 10) (4 # 10) E _ _ _ _ _ _));
    vm_compute; reflexivity.
Defined.

(** * Examples for quoting, validation and whole runs *)

(** ** Quoting *)

(** X1, witness: a value with a double quote in it, followed by a dot. *)
Lemma quote_ident_read_back_witness :
  not_opening dquote ".t"%string /\
  scan_quoted dquote (quote_ident (String "a" (String dquote "b")) ++ ".t")
  = Some (String "a" (String dquote "b"), ".t"%string).
Proof.
  assert (H : not_opening dquote ".t"%string) by (cbn; discriminate).
  split; [exact H|].
  exact (quote_ident_read_back (String "a" (String dquote "b")) ".t" H).
Defined.

(** X2, witness: a value with a single quote in it, followed by a blank. *)
Lemma quote_literal_read_back_witness :
  not_opening squote " AND"%string /\
  scan_quoted squote (quote_literal "it's" ++ " AND") = Some ("it's"%string, " AND"%string).
Proof.
  assert (H : not_opening squote " AND"%string) by (cbn; discriminate).
  split; [exact H|].
  exact (quote_literal_read_back "it's" " AND" H).
Defined.

(** X4, witness. *)
Lemma output_tables_identify_the_run_witness :
  "public"%string = "public"%string /\ "7"%string = "7"%string.
Proof.
  exact (output_tables_identify_the_run "public" "7" "public" "7"
           (or_introl eq_refl)).
Defined.

(** X5, witness. *)
Lemma requoted_input_table_witness :
  exists a b,
    split "."%char "public.points"%string = [a; b] /\
    read_qualified (quote_ident "public" ++ "." ++ quote_ident "points") = Some (a, b).
Proof.
  exact (requoted_input_table_reads_back "public.points"
           (quote_ident "public" ++ "." ++ quote_ident "points") eq_refl).
Defined.

(** ** Validation *)

(** X6, witness: a name with two dots. *)
Lemma input_table_dots_witness :
  0 < 2 /\ occurrences "."%char "a.b.c"%string <> 1%nat /\
  fst (@kmeans_run_with Line plain 20 max_iterations (catalog_of same3) "a.b.c"%string
         2 1 "r"%string "public"%string fresh) = Raise PyValueError.
Proof.
  assert (Hk : 0 < 2) by lia.
  assert (Hd : occurrences "."%char "a.b.c"%string <> 1%nat) by (cbn; discriminate).
  split; [exact Hk|]. split; [exact Hd|].
  exact (proj1 (input_table_needs_exactly_one_dot (ML := Line) (CH := plain)
                  20 max_iterations (catalog_of same3) "a.b.c"%string 2 1
                  "r"%string "public"%string fresh Hk Hd)).
Defined.


(** ** Runs *)

(** X9, witness. *)
Lemma relations_exist_witness :
  0 <= @numCentroids_of Line plain 2 /\
  fst (run_of plain same3 2 1) <> Raise SqlError.
Proof.
  assert (H : 0 <= @numCentroids_of Line plain 2) by (cbn; lia).
  split; [exact H|].
  exact (relations_exist_when_read (ML := Line) (CH := plain) 20 max_iterations
           (catalog_of same3) "public.points"%string 2 1 "r"%string "public"%string
           fresh H).
Defined.

(** The second pass of the run on [same3] returns with [done] set. *)
Lemma same3_second_pass :
  @iteration Line 2 3 20 same3_one
  = (Ret true, snd (@iteration Line 2 3 20 same3_one)).
Proof. apply pair_eq_fst. vm_compute. reflexivity. Qed.



(** X12, witness: a table without a row for centroid 2, k = 3. *)
Lemma centroid_array_witness :
  NoDup (map cid one_and_three) /\
  List.length (centroid_array 3 one_and_three) = 3%nat /\
  forall x, 1 <= x <= 3 ->
    nth_error (centroid_array 3 one_and_three) (Z.to_nat (x - 1))
    = Some (option_map c_position (find (fun c => cid c =? x) one_and_three)).
Proof.
  assert (H : NoDup (map cid one_and_three)).
  { cbn. repeat constructor; cbn; intuition discriminate. }
  split; [exact H|].
  exact (centroid_array_is_indexed_by_cid (ML := Line) 3 one_and_three H).
Defined.


(** X14, witness: the second centroid of [swing8], the first at 0. *)
Lemma heaviest_candidate_witness :
  exists pt w,
    In pt (limit (@numCentroids_of Line favour2 2) (@seed_order Line favour2 2 swing8)) /\
    @seed_statement Line favour2 swing8 2 2 [{| cid := 1; c_position := position (at_ 1 0) |}]
    = [{| cid := 2; c_position := position pt |}] /\
    @seed_weight Line favour2 2 [{| cid := 1; c_position := position (at_ 1 0) |}] pt
    = Some w /\
    forall p w',
      In p (limit (@numCentroids_of Line favour2 2) (@seed_order Line favour2 2 swing8)) ->
      @seed_weight Line favour2 2 [{| cid := 1; c_position := position (at_ 1 0) |}] p
      = Some w' ->
      (w' <= w)%Q.
Proof.
  refine (seeding_takes_the_heaviest_candidate (ML := Line) (CH := favour2) swing8 2 2
            [{| cid := 1; c_position := position (at_ 1 0) |}] _ _ _ _ _).
  - cbn. lia.
  - apply Permutation_refl.
  - discriminate.
  - cbn. repeat constructor; cbn; intuition discriminate.
  - discriminate.
Defined.

(** X15, witness. *)
Lemma temporary_tables_witness :
  (forall j, j <> loop_i (snd (run_of plain same3 2 1)) ->
     temp_lookup j (TempTable (snd (run_of plain same3 2 1)))
     = if (0 <=? j) && (j <? loop_i (snd (run_of plain same3 2 1)))
       then None else temp_lookup j (TempTable fresh)) /\
  temp_lookup (loop_i (snd (run_of plain same3 2 1)))
    (TempTable (snd (run_of plain same3 2 1))) <> None /\
  ArrayOfCentroids (snd (run_of plain same3 2 1)) <> None.
Proof.
  exact (temporary_tables_left_behind (ML := Line) (CH := plain) 20 max_iterations
           (catalog_of same3) "public.points"%string 2 1 "r"%string "public"%string
           fresh _ _ same3_run_returns).
Defined.

(** X17, witness. *)
Lemma recorded_fraction_witness :
  (loop_i same3_one <= 0 ->
   change_pct (snd (@iteration Line 2 3 20 same3_one)) = change_pct same3_one) /\
  (1 <= loop_i same3_one ->
   exists prev cur q,
     temp_lookup (loop_i same3_one) (TempTable same3_one) = Some prev /\
     temp_lookup (loop_i (snd (@iteration Line 2 3 20 same3_one)))
       (TempTable (snd (@iteration Line 2 3 20 same3_one))) = Some cur /\
     change_pct (snd (@iteration Line 2 3 20 same3_one)) = change_pct same3_one ++ [q] /\
     (q == inject_Z (common_change cur prev) / inject_Z 3)%Q).
Proof.
  exact (recorded_fraction_formula (ML := Line) 2 3 20 same3_one _ true
           same3_second_pass).
Defined.

(** ** Centroid ids on the line *)

Lemma line_closest_from_spec (pos : Qc) (arr : list (option Qc)) :
  forall (idx : Z) (best : option (Z * Q)),
    (exists j c, nth_error arr j = Some (Some c) /\
                 line_closest_from pos arr idx best = idx + Z.of_nat j) \/
    (line_closest_from pos arr idx best
     = match best with Some b => fst b | None => 0 end /\
     (best = None -> forall c, ~ In (Some c) arr)).
Proof.
  induction arr as [|[c|] arr IH]; intros idx best; cbn [line_closest_from].
  - right. split; [reflexivity | intros _ c []].
  - assert (Hstep : forall b',
               (exists j c0, nth_error (Some c :: arr) j = Some (Some c0) /\
                             line_closest_from pos arr (idx + 1) (Some (idx, b'))
                             = idx + Z.of_nat j)).
    { intros b'. destruct (IH (idx + 1) (Some (idx, b'))) as [(j & c0 & Hj & Hr)|(Hr & _)].
      - exists (S j), c0. split; [exact Hj|]. rewrite Hr. lia.
      - exists 0%nat, c. split; [reflexivity|]. rewrite Hr. cbn. lia. }
    destruct best as [b|]; [|left; apply Hstep].
    destruct (Qltb (line_l2norm_diff pos c) (snd b)); [left; apply Hstep|].
    destruct (IH (idx + 1) (Some b)) as [(j & c0 & Hj & Hr)|(Hr & _)].
    + left. exists (S j), c0. split; [exact Hj|]. rewrite Hr. lia.
    + right. split; [exact Hr | discriminate].
  - destruct (IH (idx + 1) best) as [(j & c0 & Hj & Hr)|(Hr & Hnone)].
    + left. exists (S j), c0. split; [exact Hj|]. rewrite Hr. lia.
    + right. split; [exact Hr|].
      intros Hb c0 [H|H]; [discriminate H | exact (Hnone Hb c0 H)].
Qed.

(** On the line, the closest centroid is an entry of the array. *)
Lemma line_closest_valid (pos : @Position Line) (arr : list (option (@Position Line))) :
  (exists c, In (Some c) arr) ->
  1 <= @_kmeans_closestID Line pos arr /\
  exists c, nth_error arr (Z.to_nat (@_kmeans_closestID Line pos arr - 1)) = Some (Some c).
Proof.
  intros (c & Hc). cbn [_kmeans_closestID Line]. unfold line_closestID.
  destruct (line_closest_from_spec pos arr 1 None) as [(j & c0 & Hj & Hr)|(_ & Hnone)].
  - rewrite Hr. split; [lia|]. exists c0.
    replace (Z.to_nat (1 + Z.of_nat j - 1)) with j by lia. exact Hj.
  - exfalso. exact (Hnone eq_refl c Hc).
Qed.

(** The one relation of the example catalogs holds the rows it was given. *)
Lemma catalog_of_rows (rows : list (@Point Line)) (a b : string) (rel : @Relation Line) :
  relations (catalog_of rows) a b = Some rel -> rel_rows rel = rows.
Proof.
  unfold catalog_of. cbn [relations].
  destruct (String.eqb a "public" && String.eqb b "points")%bool; [|discriminate].
  intros H. injection H as <-. reflexivity.
Qed.

(** X18, witness: the run on [same3]. *)
Lemma output_ids_witness :
  exists ps cs,
    output_points (snd (run_of plain same3 2 1)) = Some ps /\
    output_centroids (snd (run_of plain same3 2 1)) = Some cs /\
    (forall p, In p ps -> 1 <= p_cid p <= 2) /\
    (forall c, In c cs -> 1 <= cid c <= 2) /\
    NoDup (map cid cs) /\
    1 = Z.of_nat (List.length cs) /\
    1 <= 1 <= 2.
Proof.
  refine (output_ids_are_within_1_and_k (ML := Line) (CH := plain) line_closest_valid
            20 max_iterations (catalog_of same3) "public.points"%string 2 1
            "r"%string "public"%string fresh _ _ _ _ _ _ same3_run_returns).
  - intros a b rel H. rewrite (catalog_of_rows _ _ _ _ H).
    cbn. repeat constructor; cbn; intuition discriminate.
  - cbn. lia.
  - intros i l. apply Permutation_refl.
  - intros l. apply Permutation_refl.
Defined.
